(** * pptoas: the wideband TOA pipeline of PulsePortraiture

    A shallow embedding of the control and book-keeping logic of
    [pptoas.py] (class [GetTOAs] and the command-line entry point), with the
    properties of its natural-language specification stated and settled
    against it.

    Conventions of the embedding.
    - Python floats are idealised as real numbers ([R]); not-a-number is
      modelled only where the code tests for it ([option R], [None] = NaN).
    - Python exceptions are values of [exn]; code that may raise returns a
      [result].  Printing and process exit are recorded in a [prog].
    - Python lists indexed by position are Rocq lists; out-of-range reads and
      writes raise [IndexError] as in Python, they are not silently ignored.
    - A Python dict with string keys is a [gmap string _].
    - The external collaborators (archive loader, fit engine, template
      reader) are not modelled: their answers are inputs of the embedding. *)

From Stdlib Require Import Reals Lra Lia ZArith List Ascii String Bool.
From stdpp Require Import base option list strings pretty gmap.

Import ListNotations.

(* ================================================================== *)
(** * Part I. The embedding                                            *)
(* ================================================================== *)

(** ** Exceptions and results *)

Inductive exn : Type :=
| ValueError
| IndexError
| ZeroDivisionError
| TypeError
| NameError (name : string)
| UnboundLocalError (name : string).

Inductive result (A : Type) : Type :=
| Ok (a : A)
| Raise (e : exn).

Arguments Ok {A} a.
Arguments Raise {A} e.

Definition rbind {A B : Type} (m : result A) (k : A -> result B) : result B :=
  match m with
  | Ok a => k a
  | Raise e => Raise e
  end.

Notation "'do' x <- m ; k" := (rbind m (fun x => k))
  (at level 10, x name, m at level 100, k at level 200).
Notation "'do' ' p <- m ; k" := (rbind m (fun ' p => k))
  (at level 10, p strict pattern, m at level 100, k at level 200).

(** [x is not None]. *)
Definition is_not_None {A : Type} (x : option A) : bool :=
  match x with
  | Some _ => true
  | None => false
  end.

(** [l[i]] for a Python list or a one-dimensional array. *)
Definition getitem {A : Type} (l : list A) (i : nat) : result A :=
  match l !! i with
  | Some a => Ok a
  | None => Raise IndexError
  end.

(** [l[i] = a]. *)
Definition setitem {A : Type} (l : list A) (i : nat) (a : A) : result (list A) :=
  if i <? length l then Ok (<[i := a]> l) else Raise IndexError.

(** ** Global options of [get_TOAs] *)

(** The values a TOA flag can carry. *)
Inductive flag_value : Type :=
| FFloat (x : R)
| FInt (n : nat)
| FStr (s : string).

Record options : Type := {
  fit_DM : bool;
  fit_GM : bool;
  fit_scat : bool;
  fix_alpha : bool;
  log10_tau : bool;
  bary : bool;
  nu_refs : option (option R * option R);
  DM0 : option R;
  print_phase : bool;
  print_flux : bool;
  print_parangle : bool;
  addtnl_toa_flags : list (string * flag_value)  (* the dict's items *)
}.

(** The attributes set at the top of [get_TOAs] (lines 227-241). *)

Definition self_nfit (o : options) : nat :=
  let n := 1 in
  let n := if fit_DM o then n + 1 else n in
  let n := if fit_GM o then n + 1 else n in
  let n := if fit_scat o then n + 2 else n in
  if fix_alpha o then n - 1 else n.

Definition self_fit_alpha (o : options) : bool :=
  if fit_scat o then negb (fix_alpha o) else fit_scat o.

Definition self_fit_flags (o : options) : list bool :=
  [true; fit_DM o; fit_GM o; fit_scat o; self_fit_alpha o].

Definition self_log10_tau (o : options) : bool :=
  if fit_scat o then log10_tau o else false.

(** ** Fit-mask selection (lines 519-529)

    [fit_flags] is a local variable of [get_TOAs]: it is bound by the
    one-channel branch and by the default branch, and only mutated in place
    by the two-channel branch.  [None] is the variable before its first
    binding. *)

Definition select_fit_flags (o : options) (fit_flags : option (list bool))
    (nchx : nat) : result (list bool) :=
  if nchx =? 1 then
    Ok [true; false; false; false; false]
  else if (nchx =? 2) && fit_DM o && fit_GM o then
    match fit_flags with
    | None => Raise (UnboundLocalError "fit_flags")
    | Some ff => setitem ff 2 false
    end
  else
    Ok (self_fit_flags o).

(** The masks handed to the fit engine for the subintegrations of one call,
    given the number of good channels of each, in processing order. *)
Fixpoint fit_flags_passed (o : options) (fit_flags : option (list bool))
    (nchxs : list nat) : result (list (list bool)) :=
  match nchxs with
  | [] => Ok []
  | nchx :: rest =>
      do ff <- select_fit_flags o fit_flags nchx;
      do ffs <- fit_flags_passed o (Some ff) rest;
      Ok (ff :: ffs)
  end.

(** ** What the archive loader and the fit engine hand over *)

(** One good subintegration, restricted to its good channels ([freqsx] is
    [d.freqs[isub, d.ok_ichans[isub]]]). *)
Record subint : Type := {
  isub : nat;
  epoch : R;                (* d.epochs[isub], in days *)
  P : R;                    (* d.Ps[isub], spin period [s] *)
  freqsx : list R;
  doppler_factor : R;       (* d.doppler_factors[isub] *)
  subtime : R;              (* d.subtimes[isub] *)
  parallactic_angle : R;    (* d.parallactic_angles[isub] *)
  flux_estimate : R * R * R (* flux, flux_err, flux_freq when print_flux *)
}.

Abbreviation matrix := (list (list R)).

(** The [DataBunch] returned by [fit_portrait_full]. *)
Record fit_results : Type := {
  phi : R; phi_err : R;
  DM : R; DM_err : R;
  GM : R; GM_err : R;
  tau : R; tau_err : R;
  alpha : R; alpha_err : R;
  covariance_matrix : matrix;
  snr : R;
  red_chi2 : R;
  nu_DM : R; nu_GM : R; nu_tau : R
}.

Definition set_DM (r : fit_results) (x : R) : fit_results :=
  {| phi := phi r; phi_err := phi_err r; DM := x; DM_err := DM_err r;
     GM := GM r; GM_err := GM_err r; tau := tau r; tau_err := tau_err r;
     alpha := alpha r; alpha_err := alpha_err r;
     covariance_matrix := covariance_matrix r; snr := snr r;
     red_chi2 := red_chi2 r; nu_DM := nu_DM r; nu_GM := nu_GM r;
     nu_tau := nu_tau r |}.

Definition set_GM (r : fit_results) (x : R) : fit_results :=
  {| phi := phi r; phi_err := phi_err r; DM := DM r; DM_err := DM_err r;
     GM := x; GM_err := GM_err r; tau := tau r; tau_err := tau_err r;
     alpha := alpha r; alpha_err := alpha_err r;
     covariance_matrix := covariance_matrix r; snr := snr r;
     red_chi2 := red_chi2 r; nu_DM := nu_DM r; nu_GM := nu_GM r;
     nu_tau := nu_tau r |}.

(** The archive-level values read by the pipeline. *)
Record archive : Type := {
  datafile : string;
  backend : string;
  frontend : string;
  telescope : string;
  telescope_code : string;
  nsub : nat;
  nchan : nat;
  nbin : nat;
  bw : R;
  backend_delay : R;
  DM_stored : R;
  ok_subints : list subint    (* the subintegrations of d.ok_isubs, in order *)
}.

(** The fit engine is external; its answer depends on the subintegration and
    on the mask it is given. *)
Definition fit_engine : Type := options -> subint -> list bool -> fit_results.

(** ** TOA computation (lines 572-575) *)

Definition calculate_TOA (epoch P backend_delay : R) (r : fit_results) : R :=
  (epoch + (phi r * P + backend_delay) / (3600 * 24))%R.

Definition calculate_TOA_err (P : R) (r : fit_results) : R :=
  (phi_err r * P * 1e6)%R.

(** ** Doppler correction (lines 583-593): the corrected results and [df]. *)

Definition doppler_correction (bary : bool) (fit_flags : list bool)
    (doppler_factor : R) (r : fit_results) : result (fit_results * R) :=
  if bary then
    let df := doppler_factor in
    do f1 <- getitem fit_flags 1;
    let r := if f1 then set_DM r (DM r * df)%R else r in
    do f2 <- getitem fit_flags 2;
    let r := if f2 then set_GM r (GM r * df ^ 3)%R else r in
    Ok (r, df)
  else
    Ok (r, 1%R).

(** [show_fit] (lines 1410-1414) recovers the fitted values from the stored
    ones. *)
Definition show_fit_DM_GM (bary : bool) (DM_stored_i GM_stored_i df : R) : R * R :=
  if bary then ((DM_stored_i / df)%R, (GM_stored_i / df ^ 3)%R)
  else (DM_stored_i, GM_stored_i).

(** ** Storing the covariance matrix (lines 645-651) *)

Definition zeros (n m : nat) : matrix := replicate n (replicate m 0%R).

Definition shape (M : matrix) : nat * nat :=
  (length M, match M with [] => 0 | row :: _ => length row end).

(** [slot[...] = M] for an [n x n] slot, with numpy's broadcasting: each
    dimension of [M] must be [n] or [1]; otherwise [ValueError]. *)
Definition assign_broadcast (n : nat) (M : matrix) : result matrix :=
  let '(a, b) := shape M in
  if ((a =? n) || (a =? 1)) && ((b =? n) || (b =? 1)) then
    Ok (map (fun i =>
           map (fun j => nth (if b =? n then j else 0)
                             (nth (if a =? n then i else 0) M []) 0%R)
               (seq 0 n))
          (seq 0 n))
  else Raise ValueError.

Definition getitem2 (M : matrix) (i j : nat) : result R :=
  do row <- getitem M i; getitem row j.

Definition setitem2 (slot : matrix) (i j : nat) (v : R) : result matrix :=
  do row <- getitem slot i;
  do row' <- setitem row j v;
  setitem slot i row'.

(** [np.where(fit_flags)[0]]: the positions of the free parameters. *)
Fixpoint where_from (k : nat) (fit_flags : list bool) : list nat :=
  match fit_flags with
  | [] => []
  | b :: rest => if b then k :: where_from (S k) rest else where_from (S k) rest
  end.

Definition np_where (fit_flags : list bool) : list nat := where_from 0 fit_flags.

Definition enumerate {A : Type} (l : list A) : list (nat * A) :=
  combine (seq 0 (length l)) l.

(** The inner loop over [(jj, jfit)] for one [(ii, ifit)]. *)
Fixpoint remap_row (M slot : matrix) (ii ifit : nat) (cols : list (nat * nat))
    : result matrix :=
  match cols with
  | [] => Ok slot
  | (jj, jfit) :: rest =>
      do v <- getitem2 M ii jj;
      do slot' <- setitem2 slot ifit jfit v;
      remap_row M slot' ii ifit rest
  end.

(** The outer loop over [(ii, ifit)]. *)
Fixpoint remap_rows (M slot : matrix) (rows cols : list (nat * nat))
    : result matrix :=
  match rows with
  | [] => Ok slot
  | (ii, ifit) :: rest =>
      do slot' <- remap_row M slot ii ifit cols;
      remap_rows M slot' rest cols
  end.

Definition remap_covariance (fit_flags : list bool) (M slot : matrix) : result matrix :=
  let free := enumerate (np_where fit_flags) in
  remap_rows M slot free free.

(** The [try] / [except ValueError] of lines 645-651, on the zero-initialised
    [self.nfit x self.nfit] slot [covariances[isub]] of line 346. *)
Definition store_covariance (nfit : nat) (fit_flags : list bool) (M : matrix)
    : result matrix :=
  match assign_broadcast nfit M with
  | Ok slot => Ok slot
  | Raise ValueError => remap_covariance fit_flags M (zeros nfit nfit)
  | Raise e => Raise e
  end.

(** ** Flag assembly (lines 655-707) *)

Definition log10 (x : R) : R := (ln x / ln 10)%R.

Definition array_max (l : list R) : result R :=
  match l with
  | [] => Raise ValueError
  | x :: rest => Ok (fold_left Rmax rest x)
  end.

Definition array_min (l : list R) : result R :=
  match l with
  | [] => Raise ValueError
  | x :: rest => Ok (fold_left Rmin rest x)
  end.

(** [nu_ref_DM] as bound at lines 448-453. *)
Definition nu_ref_DM (o : options) : option R :=
  match nu_refs o with
  | None => None
  | Some nu_ref_tuple => nu_ref_tuple.1
  end.

Definition scat_flags (o : options) (s : subint) (r : fit_results) (df : R)
    (toa_flags : gmap string flag_value) : gmap string flag_value :=
  let toa_flags :=
    if self_log10_tau o then
      <["log10_scat_time_err" := FFloat (tau_err r)]>
        (<["log10_scat_time" := FFloat (tau r + log10 (P s / df))%R]>
           (<["scat_time" := FFloat (Rpower 10 (tau r) * P s / df * 1e6)%R]>
              toa_flags))
    else
      <["scat_time_err" := FFloat (tau_err r * P s / df * 1e6)%R]>
        (<["scat_time" := FFloat (tau r * P s / df * 1e6)%R]> toa_flags) in
  <["scat_ind" := FFloat (alpha r)]>
    (<["scat_ref_freq" := FFloat (nu_tau r * df)%R]> toa_flags).

Definition compile_toa_flags (o : options) (modelfile : string) (d : archive)
    (s : subint) (fit_flags : list bool) (r : fit_results) (df : R)
    : result (gmap string flag_value) :=
  let toa_flags : gmap string flag_value := ∅ in
  do f2 <- getitem fit_flags 2;
  let toa_flags :=
    if f2 then <["gm_err" := FFloat (GM_err r)]> (<["gm" := FFloat (GM r)]> toa_flags)
    else toa_flags in
  do f3 <- getitem fit_flags 3;
  let toa_flags := if f3 then scat_flags o s r df toa_flags else toa_flags in
  do f4 <- getitem fit_flags 4;
  let toa_flags :=
    if f4 then <["scat_ind_err" := FFloat (alpha_err r)]> toa_flags else toa_flags in
  let toa_flags := <["be" := FStr (backend d)]> toa_flags in
  let toa_flags := <["fe" := FStr (frontend d)]> toa_flags in
  let toa_flags := <["f" := FStr (frontend d +:+ "_" +:+ backend d)]> toa_flags in
  let toa_flags := <["nbin" := FInt (nbin d)]> toa_flags in
  let toa_flags := <["nch" := FInt (nchan d)]> toa_flags in
  let toa_flags := <["nchx" := FInt (length (freqsx s))]> toa_flags in
  do fmax <- array_max (freqsx s);
  do fmin <- array_min (freqsx s);
  let toa_flags := <["bw" := FFloat (fmax - fmin)%R]> toa_flags in
  let toa_flags := <["chbw" := FFloat (Rabs (bw d) / INR (nchan d))%R]> toa_flags in
  let toa_flags := <["subint" := FInt (isub s)]> toa_flags in
  let toa_flags := <["tobs" := FFloat (subtime s)]> toa_flags in
  let toa_flags := <["fratio" := FFloat (fmax / fmin)%R]> toa_flags in
  let toa_flags := <["tmplt" := FStr modelfile]> toa_flags in
  let toa_flags := <["snr" := FFloat (snr r)]> toa_flags in
  do toa_flags <-
    (if is_not_None (nu_ref_DM o) && forallb (fun b => b) (take 2 fit_flags) then
       do c <- getitem2 (covariance_matrix r) 0 1;
       Ok (<["phi_DM_cov" := FFloat c]> toa_flags)
     else Ok toa_flags);
  let toa_flags := <["gof" := FFloat (red_chi2 r)]> toa_flags in
  let toa_flags :=
    if print_phase o then
      <["phs_err" := FFloat (phi_err r)]> (<["phs" := FFloat (phi r)]> toa_flags)
    else toa_flags in
  let toa_flags :=
    if print_flux o then
      <["flux_ref_freq" := FFloat (flux_estimate s).2]>
        (<["flux_err" := FFloat (flux_estimate s).1.2]>
           (<["flux" := FFloat (flux_estimate s).1.1]> toa_flags))
    else toa_flags in
  let toa_flags :=
    if print_parangle o then
      <["par_angle" := FFloat (parallactic_angle s)]> toa_flags
    else toa_flags in
  Ok (fold_left (fun m kv => <[kv.1 := kv.2]> m) (addtnl_toa_flags o) toa_flags).

(** ** The TOA record (class [TOA]) *)

Record TOA : Type := {
  TOA_archive : string;
  TOA_frequency : R;
  TOA_MJD : R;
  TOA_error : R;
  TOA_telescope : string;
  TOA_telescope_code : string;
  TOA_DM : option R;
  TOA_DM_error : option R;
  TOA_flags : gmap string flag_value
}.

(** ** One subintegration of [get_TOAs] (lines 384-711) *)

(** The per-archive arrays allocated at lines 322-349 that the properties
    below read. *)
Record arrays : Type := {
  TOAs : list R;
  TOA_errs : list R;
  DMs : list R;
  DM_errs : list R;
  GMs : list R;
  GM_errs : list R;
  covariances : list matrix
}.

Definition init_arrays (o : options) (d : archive) : arrays :=
  {| TOAs := replicate (nsub d) 0%R;
     TOA_errs := replicate (nsub d) 0%R;
     DMs := replicate (nsub d) 0%R;
     DM_errs := replicate (nsub d) 0%R;
     GMs := replicate (nsub d) 0%R;
     GM_errs := replicate (nsub d) 0%R;
     covariances := replicate (nsub d) (zeros (self_nfit o) (self_nfit o)) |}.

(** What survives from one loop iteration to the next: the local variable
    [fit_flags], the arrays, and [self.TOA_list]. *)
Record loop_state : Type := {
  local_fit_flags : option (list bool);
  arrs : arrays;
  TOA_list : list TOA
}.

Definition process_subint (fit : fit_engine) (o : options) (modelfile : string)
    (d : archive) (st : loop_state) (s : subint) : result loop_state :=
  (* THE FIT *)
  do fit_flags <- select_fit_flags o (local_fit_flags st) (length (freqsx s));
  let results := fit o s fit_flags in
  (* CALCULATE TOA *)
  let results_TOA := calculate_TOA (epoch s) (P s) (backend_delay d) results in
  let results_TOA_err := calculate_TOA_err (P s) results in
  (* DOPPLER CORRECTION *)
  do '(results, df) <- doppler_correction (bary o) fit_flags (doppler_factor s) results;
  (* lines 626-652 *)
  let a := arrs st in
  do TOAs' <- setitem (TOAs a) (isub s) results_TOA;
  do TOA_errs' <- setitem (TOA_errs a) (isub s) results_TOA_err;
  do DMs' <- setitem (DMs a) (isub s) (DM results);
  do DM_errs' <- setitem (DM_errs a) (isub s) (DM_err results);
  do GMs' <- setitem (GMs a) (isub s) (GM results);
  do GM_errs' <- setitem (GM_errs a) (isub s) (GM_err results);
  do cov <- store_covariance (self_nfit o) fit_flags (covariance_matrix results);
  do covariances' <- setitem (covariances a) (isub s) cov;
  (* lines 655-710 *)
  do f1 <- getitem fit_flags 1;
  let results_DM := if f1 then Some (DM results) else None in
  let results_DM_err := if f1 then Some (DM_err results) else None in
  do toa_flags <- compile_toa_flags o modelfile d s fit_flags results df;
  let toa :=
    {| TOA_archive := datafile d; TOA_frequency := nu_DM results;
       TOA_MJD := results_TOA; TOA_error := results_TOA_err;
       TOA_telescope := telescope d; TOA_telescope_code := telescope_code d;
       TOA_DM := results_DM; TOA_DM_error := results_DM_err;
       TOA_flags := toa_flags |} in
  Ok {| local_fit_flags := Some fit_flags;
        arrs := {| TOAs := TOAs'; TOA_errs := TOA_errs'; DMs := DMs';
                   DM_errs := DM_errs'; GMs := GMs'; GM_errs := GM_errs';
                   covariances := covariances' |};
        TOA_list := TOA_list st ++ [toa] |}.

Fixpoint foldM {A B : Type} (f : A -> B -> result A) (a : A) (l : list B)
    : result A :=
  match l with
  | [] => Ok a
  | b :: rest => do a' <- f a b; foldM f a' rest
  end.

(** ** Archive-level DM aggregation (lines 713-729) *)

Definition Rsum (l : list R) : R := fold_right Rplus 0%R l.

(** [a[idx]] with a list of indices. *)
Fixpoint take_indices {A : Type} (a : list A) (idx : list nat) : result (list A) :=
  match idx with
  | [] => Ok []
  | i :: rest =>
      do x <- getitem a i;
      do xs <- take_indices a rest;
      Ok (x :: xs)
  end.

(** [np.all] on an array of floats. *)
Definition np_all (l : list R) : bool :=
  forallb (fun x => if Req_dec_T x 0 then false else true) l.

(** [np.average(a, weights=w, returned=True)]. *)
Definition np_average (a w : list R) : result (R * R) :=
  let scl := Rsum w in
  if Req_dec_T scl 0 then Raise ZeroDivisionError
  else Ok ((Rsum (zip_with Rmult a w) / scl)%R, scl).

Definition aggregate_DM (DM0 : R) (DMs DM_errs : list R) (ok_isubs : list nat)
    : result (R * R) :=
  let DeltaDMs := map (fun x => (x - DM0)%R) DMs in
  do errs <- take_indices DM_errs ok_isubs;
  let DM_weights :=
    if np_all errs then map (fun e => powerRZ e (-2)) errs
    else replicate (length errs) 1%R in
  do dd <- take_indices DeltaDMs ok_isubs;
  do '(DeltaDM_mean, DeltaDM_var) <- np_average dd DM_weights;
  let DeltaDM_var := powerRZ DeltaDM_var (-1) in
  let DeltaDM_var :=
    if 1 <? length ok_isubs then
      (DeltaDM_var *
       (Rsum (zip_with Rmult (map (fun x => (x - DeltaDM_mean) ^ 2) dd) DM_weights)
        / INR (length dd - 1)))%R
    else DeltaDM_var in
  let DeltaDM_err := sqrt DeltaDM_var in
  Ok (DeltaDM_mean, DeltaDM_err).

(** ** One archive, once loaded (lines 313-768) *)

Record archive_summary : Type := {
  sum_arrays : arrays;
  DeltaDM_mean : R;
  DeltaDM_err : R
}.

Definition process_archive (fit : fit_engine) (o : options) (modelfile : string)
    (fit_flags : option (list bool)) (toas : list TOA) (d : archive)
    : result (option (list bool) * list TOA * archive_summary) :=
  let DM0 := match DM0 o with None => DM_stored d | Some x => x end in
  do st <- foldM (process_subint fit o modelfile d)
             {| local_fit_flags := fit_flags; arrs := init_arrays o d;
                TOA_list := toas |}
             (ok_subints d);
  do '(mean, err) <- aggregate_DM DM0 (DMs (arrs st)) (DM_errs (arrs st))
                       (map isub (ok_subints d));
  Ok (local_fit_flags st, TOA_list st,
      {| sum_arrays := arrs st; DeltaDM_mean := mean; DeltaDM_err := err |}).

(** ** Channel zapping: one subintegration of [get_channels_to_zap]
       (lines 1293-1333)

    [channel_red_chi2 c] is the value of [get_red_chi2] for channel [c]
    ([None] when it is not-a-number); [channel_snrs] is the array
    [self.channel_snrs[iarch][isub]]; [ok_ichans] the good channels. *)

(** [(old_div(SNR_threshold ** 2.0, n)) ** 0.5] for an integer [n]. *)
Definition channel_SNR_threshold (SNR_threshold : R) (n : Z) : result R :=
  if (n =? 0)%Z then Raise ZeroDivisionError
  else Ok (sqrt (SNR_threshold ^ 2 / IZR n)).

(** A float used as a condition. *)
Definition truthy (x : R) : bool := if Req_dec_T x 0 then false else true.

(** The first loop over the good channels (lines 1301-1314). *)
Fixpoint first_pass (SNR_threshold rchi2_threshold threshold : R)
    (channel_red_chi2 : nat -> option R) (channel_snrs : list R)
    (bad_ichans : list nat) (ok_ichans : list nat) : result (list nat) :=
  match ok_ichans with
  | [] => Ok bad_ichans
  | ok_ichan :: rest =>
      let continue_with bad :=
        first_pass SNR_threshold rchi2_threshold threshold channel_red_chi2
          channel_snrs bad rest in
      match channel_red_chi2 ok_ichan with
      | None => continue_with (bad_ichans ++ [ok_ichan])     (* np.isnan *)
      | Some chi2 =>
          if Rgt_dec chi2 rchi2_threshold then
            continue_with (bad_ichans ++ [ok_ichan])
          else if truthy SNR_threshold then
            do x <- getitem channel_snrs ok_ichan;
            if Rlt_dec x threshold then continue_with (bad_ichans ++ [ok_ichan])
            else continue_with bad_ichans
          else continue_with bad_ichans
      end
  end.

(** The [for] loop inside the [while] (lines 1324-1331). *)
Fixpoint recheck (threshold : R) (channel_snrs : list R)
    (bad_ichans : list nat) (ok_ichans : list nat) : result (list nat) :=
  match ok_ichans with
  | [] => Ok bad_ichans
  | ok_ichan :: rest =>
      if bool_decide (ok_ichan ∈ bad_ichans) then
        recheck threshold channel_snrs bad_ichans rest
      else
        do x <- getitem channel_snrs ok_ichan;
        if Rlt_dec x threshold then
          recheck threshold channel_snrs (bad_ichans ++ [ok_ichan]) rest
        else recheck threshold channel_snrs bad_ichans rest
  end.

Definition len_diff {A B : Type} (l : list A) (l' : list B) : Z :=
  (Z.of_nat (length l) - Z.of_nat (length l'))%Z.

(** The [while] loop (lines 1320-1333); [None] when the fuel runs out before
    the loop condition fails. *)
Fixpoint zap_while (fuel : nat) (SNR_threshold : R) (channel_snrs : list R)
    (ok_ichans : list nat) (bad_ichans : list nat) (old_len : nat)
    (added_new : bool) : option (result (list nat)) :=
  if added_new && negb (len_diff ok_ichans bad_ichans =? 0)%Z then
    match fuel with
    | 0 => None
    | S fuel' =>
        match channel_SNR_threshold SNR_threshold (len_diff ok_ichans bad_ichans) with
        | Raise e => Some (Raise e)
        | Ok threshold =>
            match recheck threshold channel_snrs bad_ichans ok_ichans with
            | Raise e => Some (Raise e)
            | Ok bad' =>
                zap_while fuel' SNR_threshold channel_snrs ok_ichans bad'
                  (length bad')
                  (negb (Z.of_nat (length bad') - Z.of_nat old_len =? 0)%Z)
            end
        end
    end
  else Some (Ok bad_ichans).

Definition zap_subint (fuel : nat) (SNR_threshold rchi2_threshold : R)
    (iterate : bool) (channel_red_chi2 : nat -> option R)
    (channel_snrs : list R) (ok_ichans : list nat) : option (result (list nat)) :=
  match channel_SNR_threshold SNR_threshold (Z.of_nat (length ok_ichans)) with
  | Raise e => Some (Raise e)
  | Ok threshold =>
      match first_pass SNR_threshold rchi2_threshold threshold channel_red_chi2
              channel_snrs [] ok_ichans with
      | Raise e => Some (Raise e)
      | Ok bad_ichans =>
          if iterate && truthy SNR_threshold && negb (length bad_ichans =? 0) then
            zap_while fuel SNR_threshold channel_snrs ok_ichans bad_ichans
              (length bad_ichans) true
          else Some (Ok bad_ichans)
      end
  end.

(** The channels of [ok_ichans] that are retained, and the aggregate of
    their signal-to-noise ratios (the root of the sum of squares). *)
Definition retained (ok_ichans bad_ichans : list nat) : list nat :=
  filter (fun c => c ∉ bad_ichans) ok_ichans.

Definition snr_of (channel_snrs : list R) (c : nat) : R := nth c channel_snrs 0%R.

Definition aggregate_snr (channel_snrs : list R) (chans : list nat) : R :=
  sqrt (Rsum (map (fun c => (snr_of channel_snrs c) ^ 2)%R chans)).

(** Every retained channel reaches the effective per-channel threshold
    recomputed from the number of retained channels. *)
Definition meets_threshold (SNR_threshold : R) (channel_snrs : list R)
    (ok_ichans bad_ichans : list nat) : Prop :=
  forall c, c ∈ ok_ichans -> c ∉ bad_ichans ->
    (sqrt (SNR_threshold ^ 2 / IZR (len_diff ok_ichans bad_ichans))
     <= snr_of channel_snrs c)%R.

(** ** Programs that print, load archives and may exit

    The trace records the loader calls and the output that does not depend
    on [quiet]; the progress messages of the measurement loops are not
    recorded. *)

Inductive event : Type :=
| Stdout (line : string)
| PrintHelp
| LoadData (datafile : string).

Inductive outcome (A : Type) : Type :=
| Returns (a : A)
| Raises (e : exn)
| Exits (status : Z).

Arguments Returns {A} a.
Arguments Raises {A} e.
Arguments Exits {A} status.

Definition prog (A : Type) : Type := list event * outcome A.

Definition is_LoadData (e : event) : bool :=
  match e with
  | LoadData _ => true
  | _ => false
  end.

Definition pret {A : Type} (a : A) : prog A := ([], Returns a).

Definition pbind {A B : Type} (m : prog A) (k : A -> prog B) : prog B :=
  match m with
  | (tr, Returns a) => let '(tr', out) := k a in (tr ++ tr', out)
  | (tr, Raises e) => (tr, Raises e)
  | (tr, Exits status) => (tr, Exits status)
  end.

Definition emit (e : event) : prog unit := ([e], Returns tt).

(** [sys.exit(status)]; [sys.exit()] is [sys_exit 0]. *)
Definition sys_exit {A : Type} (status : Z) : prog A := ([], Exits status).

(** What [load_data] answers for a data file: it raises [RuntimeError], or
    the archive is skipped by one of the [continue] statements that precede
    the subintegration loop, or it is used. *)
Inductive load_outcome : Type :=
| LoadError
| Skipped
| Loaded (d : archive).

(** ** [GetTOAs.__init__] (lines 92-159) *)

Definition max_nfile : nat := 999.

(** The [datafiles] argument: a metafile (an ASCII file, given by the lines
    [readlines()] returns) or a single archive name. *)
Inductive datafiles_arg : Type :=
| Metafile (lines : list string)
| SingleArchive (name : string).

(** [datafile[:-1]] *)
Definition drop_last (s : string) : string :=
  substring 0 (String.length s - 1) s.

Record GetTOAs : Type := {
  self_datafiles : list string;
  self_modelfile : string;
  self_quiet : bool;
  self_TOA_list : list TOA;
  self_DeltaDM_means : list R;
  self_DeltaDM_errs : list R
}.

Definition too_many_archives : string :=
  "Too many archives.  See/change max_nfile(=" +:+ pretty max_nfile
  +:+ ") in pptoas.py.".

(** [self.datafiles] as built at lines 103-107. *)
Definition datafile_names (datafiles : datafiles_arg) : list string :=
  match datafiles with
  | Metafile lines => map drop_last lines
  | SingleArchive name => [name]
  end.

Definition GetTOAs_init (datafiles : datafiles_arg) (modelfile : string)
    (quiet : bool) : prog GetTOAs :=
  let self_datafiles := datafile_names datafiles in
  if max_nfile <? length self_datafiles then
    pbind (emit (Stdout too_many_archives)) (fun _ => sys_exit 0)
  else
    pret {| self_datafiles := self_datafiles; self_modelfile := modelfile;
            self_quiet := quiet; self_TOA_list := [];
            self_DeltaDM_means := []; self_DeltaDM_errs := [] |}.

(** ** [get_TOAs]: the loop over the data files (lines 258-792) *)

Fixpoint get_TOAs_loop (load : string -> load_outcome) (fit : fit_engine)
    (o : options) (fit_flags : option (list bool)) (gt : GetTOAs)
    (datafiles : list string) : prog GetTOAs :=
  match datafiles with
  | [] => pret gt
  | f :: rest =>
      pbind (emit (LoadData f)) (fun _ =>
        match load f with
        | LoadError | Skipped => get_TOAs_loop load fit o fit_flags gt rest
        | Loaded d =>
            if length (ok_subints d) =? 0 then
              get_TOAs_loop load fit o fit_flags gt rest
            else
              match process_archive fit o (self_modelfile gt) fit_flags
                      (self_TOA_list gt) d with
              | Raise e => ([], Raises e)
              | Ok (fit_flags', toas, summary) =>
                  get_TOAs_loop load fit o fit_flags'
                    {| self_datafiles := self_datafiles gt;
                       self_modelfile := self_modelfile gt;
                       self_quiet := self_quiet gt;
                       self_TOA_list := toas;
                       self_DeltaDM_means :=
                         self_DeltaDM_means gt ++ [DeltaDM_mean summary];
                       self_DeltaDM_errs :=
                         self_DeltaDM_errs gt ++ [DeltaDM_err summary] |}
                    rest
              end
        end)
  end.

Definition get_TOAs (load : string -> load_outcome) (fit : fit_engine)
    (o : options) (gt : GetTOAs) : prog GetTOAs :=
  get_TOAs_loop load fit o None gt (self_datafiles gt).

(** ** [get_narrowband_TOAs] (lines 794-1189) *)

(** Python values kept by name. *)
Inductive pyval : Type :=
| VFloat (x : R)
| VArray (l : list R).

Definition namespace : Type := gmap string pyval.

Definition as_float (v : pyval) : result R :=
  match v with
  | VFloat x => Ok x
  | VArray _ => Raise TypeError
  end.

(** The names that are parameters of [get_narrowband_TOAs] or assigned
    somewhere in its body: its local names.  Every other name is looked up
    in the module's globals. *)
Definition narrowband_local_names : list string :=
  [ "self"; "datafile"; "tscrunch"; "fit_scat"; "log10_tau"; "scat_guess";
    "print_phase"; "print_flux"; "print_parangle";
    "add_instrumental_response"; "addtnl_toa_flags"; "method"; "bounds";
    "show_plot"; "quiet";
    "already_warned"; "warning_message"; "start"; "tot_duration";
    "datafiles"; "iarch"; "fit_duration"; "data"; "d"; "nsub"; "nchan";
    "nbin"; "npol"; "obs"; "phis"; "phi_errs"; "TOAs"; "TOA_errs"; "taus";
    "tau_errs"; "scales"; "scale_errs"; "channel_snrs"; "profile_fluxes";
    "profile_flux_errs"; "channel_red_chi2s"; "covariances"; "nfevals";
    "rcs"; "MJDs"; "model_data"; "model"; "icount"; "isub"; "sub_id";
    "epoch"; "MJD"; "P"; "full_model"; "model_fit_flags"; "model_fit_alpha";
    "unscat_params"; "unscat_model"; "freqsx"; "weightsx"; "portx";
    "modelx"; "inst_resp_port_FT"; "errs"; "tau_guess"; "alpha_guess";
    "tau_guess_s"; "tau_guess_ref"; "model_prof_scat"; "phi_guess";
    "param_guesses"; "phi_bounds"; "tau_bounds"; "fit_flags"; "ichanx";
    "ichan"; "prof"; "model_prof"; "err"; "results"; "tau"; "alpha";
    "scat_model"; "scat_model_mean"; "toa_flags"; "df"; "k"; "v" ].

(** Reading a name inside a function: a local name must have been bound,
    any other name must be a global. *)
Definition load_name (local_names : list string) (locals globals : namespace)
    (x : string) : result pyval :=
  if bool_decide (x ∈ local_names) then
    match locals !! x with
    | Some v => Ok v
    | None => Raise (UnboundLocalError x)
    end
  else
    match globals !! x with
    | Some v => Ok v
    | None => Raise (NameError x)
    end.

Record narrowband_options : Type := {
  nb_fit_scat : bool;
  nb_log10_tau : bool;
  nb_scat_guess : option (R * R * R)
}.

(** The attributes [read_model] may have set on [self]: [self.alpha], and
    [self.gparams[1]] with [self.model_nu_ref]. *)
Record model_attrs : Type := {
  self_alpha : option R;
  self_gparams : option (R * R)
}.

(** What is outside the method: the loader, the module's globals, the
    default [scattering_alpha], the phase guess computed by the external
    routines from [rot_prof], [tau_guess], [alpha_guess] and [nu_fit_tau],
    and the per-channel loop of lines 1039-1145, given by the records it
    appends and the exception that ends it, if any. *)
Record narrowband_world : Type := {
  nb_load : string -> load_outcome;
  nb_globals : namespace;
  nb_scattering_alpha : R;
  nb_model_attrs : archive -> subint -> model_attrs;
  nb_phase_guess : pyval -> R -> R -> R -> R;
  nb_channel_loop : archive -> subint -> R * R -> list TOA * option exn
}.

(** Guess construction (lines 996-1028): [phi_guess] and [tau_guess].
    [locals] holds the local names bound so far. *)
Definition narrowband_guess (w : narrowband_world) (o : narrowband_options)
    (locals : namespace) (d : archive) (s : subint) : result (R * R) :=
  let read := load_name narrowband_local_names locals (nb_globals w) in
  let m := nb_model_attrs w d s in
  let tau_guess := 0%R in
  let alpha_guess := 0%R in
  if nb_fit_scat o then
    do '(tau_guess, alpha_guess) <-
      match nb_scat_guess o with
      | Some (tau_guess_s, tau_guess_ref, alpha_guess) =>
          do v <- read "nu_fit_tau";
          do nu_fit_tau <- as_float v;
          Ok ((tau_guess_s / P s * Rpower (nu_fit_tau / tau_guess_ref) alpha_guess)%R,
              alpha_guess)
      | None =>
          let alpha_guess :=
            match self_alpha m with
            | Some a => a
            | None => nb_scattering_alpha w
            end in
          match self_gparams m with
          | Some (gparams1, model_nu_ref) =>
              do v <- read "nu_fit_tau";
              do nu_fit_tau <- as_float v;
              Ok ((gparams1 / P s * Rpower (nu_fit_tau / model_nu_ref) alpha_guess)%R,
                  alpha_guess)
          | None => Ok (0%R, alpha_guess)
          end
      end;
    do v <- read "nu_fit_tau";
    do nu_fit_tau <- as_float v;
    do rot_prof <- read "rot_prof";
    let phi_guess := nb_phase_guess w rot_prof tau_guess alpha_guess nu_fit_tau in
    let tau_guess :=
      if nb_log10_tau o then
        log10 (if Req_dec_T tau_guess 0 then (/ INR (nbin d))%R else tau_guess)
      else tau_guess in
    Ok (phi_guess, tau_guess)
  else
    Ok (0%R, tau_guess).

(** The loop over the good subintegrations of one archive: [self.TOA_list]
    afterwards, and the exception that ended the loop, if any.  The values
    of the locals the guess construction reads are Rocq variables; the
    namespace of locals is consulted only for a name of
    [narrowband_local_names] read through [load_name], and there is none. *)
Fixpoint narrowband_subints (w : narrowband_world) (o : narrowband_options)
    (d : archive) (toas : list TOA) (subs : list subint)
    : list TOA * option exn :=
  match subs with
  | [] => (toas, None)
  | s :: rest =>
      match narrowband_guess w o ∅ d s with
      | Raise e => (toas, Some e)
      | Ok guesses =>
          match nb_channel_loop w d s guesses with
          | (records, Some e) => (toas ++ records, Some e)
          | (records, None) => narrowband_subints w o d (toas ++ records) rest
          end
      end
  end.

(** The loop over the data files: the loader calls, [self.TOA_list]
    afterwards, and the exception that ended the call, if any. *)
Fixpoint get_narrowband_TOAs (w : narrowband_world) (o : narrowband_options)
    (toas : list TOA) (datafiles : list string)
    : list event * (list TOA * option exn) :=
  match datafiles with
  | [] => ([], (toas, None))
  | f :: rest =>
      match nb_load w f with
      | LoadError | Skipped =>
          let '(tr, r) := get_narrowband_TOAs w o toas rest in (LoadData f :: tr, r)
      | Loaded d =>
          match narrowband_subints w o d toas (ok_subints d) with
          | (toas', Some e) => ([LoadData f], (toas', Some e))
          | (toas', None) =>
              let '(tr, r) := get_narrowband_TOAs w o toas' rest in
              (LoadData f :: tr, r)
          end
      end
  end.

(** ** The command line (lines 1581-1655) *)

Record cli_options : Type := {
  opt_datafiles : option string;
  opt_modelfile : option string;
  opt_narrowband : bool;
  opt_psrchive : bool;
  opt_quiet : bool;
  opt_wideband : options;
  opt_narrowband_options : narrowband_options
}.

(** What the program finds around it: which files are ASCII metafiles, the
    loader, the fit engine and the surroundings of the narrowband method. *)
Record environment : Type := {
  env_metafile : string -> option (list string);
  env_load : string -> load_outcome;
  env_fit : fit_engine;
  env_narrowband : narrowband_world
}.

Definition banner : string :=
  "
pptoas.py - simultaneously measure TOAs, DMs, and scattering in broadband data
".

(** [parser.exit()]: [optparse.OptionParser.exit(status=0, msg=None)]. *)
Definition parser_exit {A : Type} : prog A := sys_exit 0.

(** The options are checked, the [GetTOAs] object is built, and one of the
    three measurement methods runs; [get_psrchive_TOAs] is PSRCHIVE's own
    work, of which only the archive loads are recorded.  Writing the TOAs
    out afterwards is left to the external serializer. *)
Definition main (env : environment) (c : cli_options) : prog unit :=
  match opt_datafiles c, opt_modelfile c with
  | Some datafiles, Some modelfile =>
      let arg :=
        match env_metafile env datafiles with
        | Some lines => Metafile lines
        | None => SingleArchive datafiles
        end in
      pbind (GetTOAs_init arg modelfile (opt_quiet c)) (fun gt =>
        if negb (opt_narrowband c) && negb (opt_psrchive c) then
          pbind (get_TOAs (env_load env) (env_fit env) (opt_wideband c) gt)
            (fun _ => pret tt)
        else if negb (opt_psrchive c) then
          match get_narrowband_TOAs (env_narrowband env)
                  (opt_narrowband_options c) (self_TOA_list gt)
                  (self_datafiles gt) with
          | (tr, (_, Some e)) => (tr, Raises e)
          | (tr, (_, None)) => (tr, Returns tt)
          end
        else
          (map LoadData (self_datafiles gt), Returns tt))
  | _, _ =>
      pbind (emit (Stdout banner)) (fun _ =>
      pbind (emit PrintHelp) (fun _ =>
      pbind (emit (Stdout EmptyString)) (fun _ =>
      parser_exit)))
  end.

(** ** The command line: [parser.parse_args()] (line 1581) and the check of
       the file arguments (lines 1583-1587)

    [optparse] is Python's; what follows is its argument loop
    ([OptionParser._process_args], [_process_long_opt],
    [_process_short_opts], [_match_abbrev]) on the options declared at lines
    1484-1579. *)

Inductive opt_action : Type :=
| StoreValue      (* action="store": takes one argument *)
| StoreTrue
| StoreFalse
| ShowHelp.       (* the -h/--help option every parser has *)

Inductive opt_value : Type :=
| OptNone
| OptStr (s : string)
| OptBool (b : bool)
| OptFloat (x : R).

Record opt_spec : Type := {
  opt_short : option ascii;
  opt_long : string;
  opt_act : opt_action;
  opt_dest : string;
  opt_default : opt_value
}.

Definition option_table : list opt_spec :=
  [ {| opt_short := Some "h"%char; opt_long := "--help"; opt_act := ShowHelp;
       opt_dest := "help"; opt_default := OptNone |};
    {| opt_short := Some "d"%char; opt_long := "--datafiles"; opt_act := StoreValue;
       opt_dest := "datafiles"; opt_default := OptNone |};
    {| opt_short := Some "m"%char; opt_long := "--modelfile"; opt_act := StoreValue;
       opt_dest := "modelfile"; opt_default := OptNone |};
    {| opt_short := Some "o"%char; opt_long := "--outfile"; opt_act := StoreValue;
       opt_dest := "outfile"; opt_default := OptNone |};
    {| opt_short := None; opt_long := "--narrowband"; opt_act := StoreTrue;
       opt_dest := "narrowband"; opt_default := OptBool false |};
    {| opt_short := None; opt_long := "--psrchive"; opt_act := StoreTrue;
       opt_dest := "psrchive"; opt_default := OptBool false |};
    {| opt_short := None; opt_long := "--errfile"; opt_act := StoreValue;
       opt_dest := "errfile"; opt_default := OptNone |};
    {| opt_short := Some "T"%char; opt_long := "--tscrunch"; opt_act := StoreTrue;
       opt_dest := "tscrunch"; opt_default := OptBool false |};
    {| opt_short := Some "f"%char; opt_long := "--format"; opt_act := StoreValue;
       opt_dest := "format"; opt_default := OptNone |};
    {| opt_short := None; opt_long := "--nu_ref"; opt_act := StoreValue;
       opt_dest := "nu_ref_DM"; opt_default := OptNone |};
    {| opt_short := None; opt_long := "--DM"; opt_act := StoreValue;
       opt_dest := "DM0"; opt_default := OptNone |};
    {| opt_short := None; opt_long := "--no_bary"; opt_act := StoreFalse;
       opt_dest := "bary"; opt_default := OptBool true |};
    {| opt_short := None; opt_long := "--one_DM"; opt_act := StoreTrue;
       opt_dest := "one_DM"; opt_default := OptBool false |};
    {| opt_short := None; opt_long := "--fix_DM"; opt_act := StoreFalse;
       opt_dest := "fit_DM"; opt_default := OptBool true |};
    {| opt_short := None; opt_long := "--fit_dt4"; opt_act := StoreTrue;
       opt_dest := "fit_GM"; opt_default := OptBool false |};
    {| opt_short := None; opt_long := "--fit_scat"; opt_act := StoreTrue;
       opt_dest := "fit_scat"; opt_default := OptBool false |};
    {| opt_short := None; opt_long := "--no_logscat"; opt_act := StoreFalse;
       opt_dest := "log10_tau"; opt_default := OptBool true |};
    {| opt_short := None; opt_long := "--scat_guess"; opt_act := StoreValue;
       opt_dest := "scat_guess"; opt_default := OptNone |};
    {| opt_short := None; opt_long := "--fix_alpha"; opt_act := StoreTrue;
       opt_dest := "fix_alpha"; opt_default := OptBool false |};
    {| opt_short := None; opt_long := "--nu_tau"; opt_act := StoreValue;
       opt_dest := "nu_ref_tau"; opt_default := OptNone |};
    {| opt_short := None; opt_long := "--print_phase"; opt_act := StoreTrue;
       opt_dest := "print_phase"; opt_default := OptBool false |};
    {| opt_short := None; opt_long := "--print_flux"; opt_act := StoreTrue;
       opt_dest := "print_flux"; opt_default := OptBool false |};
    {| opt_short := None; opt_long := "--print_parangle"; opt_act := StoreTrue;
       opt_dest := "print_parangle"; opt_default := OptBool false |};
    {| opt_short := None; opt_long := "--flags"; opt_act := StoreValue;
       opt_dest := "toa_flags"; opt_default := OptStr EmptyString |};
    {| opt_short := None; opt_long := "--snr_cut"; opt_act := StoreValue;
       opt_dest := "snr_cutoff"; opt_default := OptFloat 0 |};
    {| opt_short := None; opt_long := "--showplot"; opt_act := StoreTrue;
       opt_dest := "show_plot"; opt_default := OptBool false |};
    {| opt_short := None; opt_long := "--saveplot"; opt_act := StoreTrue;
       opt_dest := "save_plot"; opt_default := OptBool false |};
    {| opt_short := None; opt_long := "--quiet"; opt_act := StoreTrue;
       opt_dest := "quiet"; opt_default := OptBool false |} ].

(** [options]: the values by destination. *)
Definition cli_values : Type := gmap string opt_value.

(** [parser.get_default_values()]; the help option has no destination. *)
Definition default_values : cli_values :=
  fold_left
    (fun values o =>
       match opt_act o with
       | ShowHelp => values
       | _ => <[opt_dest o := opt_default o]> values
       end)
    option_table ∅.

(** What [parser.error] reports. *)
Inductive parse_error : Type :=
| NoSuchOption (opt : string)
| AmbiguousOption (opt : string)
| RequiresArgument (opt : string)
| TakesNoValue (opt : string).

Inductive parse_outcome : Type :=
| ParseError (e : parse_error)   (* [parser.error]: usage and message on stderr, exit status 2 *)
| ParseHelp                      (* the help action: [print_help()], then [parser.exit()] *)
| Parsed (values : cli_values) (args : list string).

(** [arg.split("=", 1)] for an [arg] that may hold no ["="]. *)
Fixpoint split_at_eq (arg : string) : string * option string :=
  match arg with
  | EmptyString => (EmptyString, None)
  | String c rest =>
      if Ascii.eqb c "="%char then (EmptyString, Some rest)
      else let '(opt, value) := split_at_eq rest in (String c opt, value)
  end.

(** [_match_abbrev]: the option of that name, or else the only option whose
    name starts with it. *)
Definition match_long (opt : string) : parse_error + opt_spec :=
  match find (fun o => String.eqb (opt_long o) opt) option_table with
  | Some o => inr o
  | None =>
      match List.filter (fun o => String.prefix opt (opt_long o)) option_table with
      | [o] => inr o
      | [] => inl (NoSuchOption opt)
      | _ => inl (AmbiguousOption opt)
      end
  end.

Definition match_short (ch : ascii) : option opt_spec :=
  find (fun o => match opt_short o with
                 | Some c => Ascii.eqb c ch
                 | None => false
                 end) option_table.

(** [option.take_action] for the actions that store. *)
Definition store (o : opt_spec) (value : string) (values : cli_values) : cli_values :=
  <[opt_dest o := OptStr value]> values.

Definition store_const (o : opt_spec) (values : cli_values) : cli_values :=
  match opt_act o with
  | StoreTrue => <[opt_dest o := OptBool true]> values
  | StoreFalse => <[opt_dest o := OptBool false]> values
  | _ => values
  end.

(** One pass of the loop of [_process_args]: it ends the parse, or goes on
    with new values and positional arguments, past the next argument too
    when that was taken as the value of an option. *)
Inductive step_result : Type :=
| Stop (r : parse_outcome)
| Continue (values : cli_values) (largs : list string) (next_taken : bool).

(** [_process_short_opts] on the characters that follow the dash. *)
Fixpoint process_short (chars : string) (values : cli_values) (largs : list string)
    (next : option string) : step_result :=
  match chars with
  | EmptyString => Continue values largs false
  | String ch rest =>
      let opt := String "-"%char (String ch EmptyString) in
      match match_short ch with
      | None => Stop (ParseError (NoSuchOption opt))
      | Some o =>
          match opt_act o with
          | StoreValue =>
              match rest with
              | EmptyString =>
                  match next with
                  | None => Stop (ParseError (RequiresArgument opt))
                  | Some value => Continue (store o value values) largs true
                  end
              | _ => Continue (store o rest values) largs false
              end
          | ShowHelp => Stop ParseHelp
          | _ => process_short rest (store_const o values) largs next
          end
      end
  end.

(** [_process_long_opt]. *)
Definition process_long (arg : string) (values : cli_values) (largs : list string)
    (next : option string) : step_result :=
  let '(opt, explicit) := split_at_eq arg in
  match match_long opt with
  | inl e => Stop (ParseError e)
  | inr o =>
      match opt_act o with
      | StoreValue =>
          match explicit with
          | Some value => Continue (store o value values) largs false
          | None =>
              match next with
              | None => Stop (ParseError (RequiresArgument (opt_long o)))
              | Some value => Continue (store o value values) largs true
              end
          end
      | act =>
          match explicit with
          | Some _ => Stop (ParseError (TakesNoValue (opt_long o)))
          | None =>
              match act with
              | ShowHelp => Stop ParseHelp
              | _ => Continue (store_const o values) largs false
              end
          end
      end
  end.

(** [arg[:1] == "-" and len(arg) > 1] *)
Definition is_short_group (arg : string) : bool :=
  match arg with
  | String c (String _ _) => Ascii.eqb c "-"%char
  | _ => false
  end.

(** [arg[1:]] *)
Definition string_tail (arg : string) : string :=
  match arg with
  | EmptyString => EmptyString
  | String _ rest => rest
  end.

Definition step (values : cli_values) (largs : list string) (arg : string)
    (rest : list string) : step_result :=
  if String.eqb arg "--" then Stop (Parsed values (largs ++ rest))
  else if String.prefix "--" arg then process_long arg values largs (head rest)
  else if is_short_group arg then
    process_short (string_tail arg) values largs (head rest)
  else Continue values (largs ++ [arg]) false.

Fixpoint process_args (values : cli_values) (largs rargs : list string)
    : parse_outcome :=
  match rargs with
  | [] => Parsed values largs
  | arg :: rest =>
      match step values largs arg rest with
      | Stop r => r
      | Continue values' largs' next_taken =>
          match next_taken, rest with
          | true, _ :: rest' => process_args values' largs' rest'
          | _, _ => process_args values' largs' rest
          end
      end
  end.

(** [parser.parse_args()] on [sys.argv[1:]]. *)
Definition parse_args (argv : list string) : parse_outcome :=
  process_args default_values [] argv.

(** What the program writes before it has a [GetTOAs] object: output of
    [print], and what [optparse] writes on standard error. *)
Inductive cli_event : Type :=
| Shown (e : event)
| UsageToStderr
| ErrorToStderr (e : parse_error).

Definition is_None_value (values : cli_values) (dest : string) : bool :=
  match values !! dest with
  | Some OptNone | None => true
  | Some _ => false
  end.

(** Lines 1581-1587. *)
Definition command_line (argv : list string)
    : list cli_event * outcome (cli_values * list string) :=
  match parse_args argv with
  | ParseError e => ([UsageToStderr; ErrorToStderr e], Exits 2)
  | ParseHelp => ([Shown PrintHelp], Exits 0)
  | Parsed values args =>
      if is_None_value values "datafiles" || is_None_value values "modelfile" then
        ([Shown (Stdout banner); Shown PrintHelp; Shown (Stdout EmptyString)],
         Exits 0)
      else ([], Returns (values, args))
  end.

(** Whether a character occurs in a string. *)
Fixpoint occurs (ch : ascii) (s : string) : bool :=
  match s with
  | EmptyString => false
  | String c rest => Ascii.eqb c ch || occurs ch rest
  end.

(** Whether an argument, read as an option, can name the option [o]: a long
    option whose name it abbreviates, or a group of short options with the
    option's letter. *)
Definition names_option (o : opt_spec) (arg : string) : bool :=
  if String.prefix "--" arg then String.prefix (split_at_eq arg).1 (opt_long o)
  else if is_short_group arg then
    match opt_short o with
    | Some ch => occurs ch (string_tail arg)
    | None => false
    end
  else false.

Definition datafiles_option : opt_spec :=
  {| opt_short := Some "d"%char; opt_long := "--datafiles"; opt_act := StoreValue;
     opt_dest := "datafiles"; opt_default := OptNone |}.

Definition modelfile_option : opt_spec :=
  {| opt_short := Some "m"%char; opt_long := "--modelfile"; opt_act := StoreValue;
     opt_dest := "modelfile"; opt_default := OptNone |}.

(** ** The specification's formulas, in its own words *)

(** The entry of [enumerate(np.where(fit_flags)[0])] that has a given
    position, and the element of a matrix, zero outside it. *)
Definition find_pos (entries : list (nat * nat)) (pos : nat) : option (nat * nat) :=
  find (fun p => snd p =? pos) entries.

Definition mat_at (M : matrix) (i j : nat) : R := nth j (nth i M []) 0%R.

(** The archive-level slot as the specification describes it, from the
    mask alone: position [pos] is free when the mask is set there, and the
    free parameter at a free position is the i-th one when i free positions
    precede it.  The slot is an [n x n] matrix holding reduced-matrix
    element [(i, j)] at the row and column positions of the [i]-th and
    [j]-th free parameters, and zero elsewhere.  The specification fixes
    [n = 5]. *)
Definition is_free (fit_flags : list bool) (pos : nat) : bool := nth pos fit_flags false.

Fixpoint count_free (fit_flags : list bool) : nat :=
  match fit_flags with
  | [] => 0
  | b :: rest => (if b then 1 else 0) + count_free rest
  end.

Definition free_rank (fit_flags : list bool) (pos : nat) : nat :=
  count_free (take pos fit_flags).

Definition spec_remap (n : nat) (fit_flags : list bool) (M : matrix) : matrix :=
  map (fun r =>
         map (fun c =>
                if is_free fit_flags r && is_free fit_flags c
                then mat_at M (free_rank fit_flags r) (free_rank fit_flags c)
                else 0%R)
             (seq 0 n))
      (seq 0 n).

(** An [n x n] matrix. *)
Definition square (n : nat) (M : matrix) : Prop :=
  length M = n /\ Forall (fun row => length row = n) M.

(** Whether every uncertainty of a list is nonzero. *)
Definition all_nonzero_dec (l : list R) :
  {Forall (fun e => e <> 0%R) l} + {~ Forall (fun e => e <> 0%R) l} :=
  List.Forall_dec (fun e => e <> 0%R)
    (fun e => match Req_dec_T e 0 with
              | left Heq => right (fun Hne => Hne Heq)
              | right Hne => left Hne
              end) l.

(** The weighted mean and the inflated variance of section 4.2. *)
Definition spec_weights (DM_errs : list R) : list R :=
  if all_nonzero_dec DM_errs then map (fun e => (/ (e * e))%R) DM_errs
  else map (fun _ => 1%R) DM_errs.

Definition spec_weighted_mean (xs ws : list R) : R :=
  (Rsum (zip_with Rmult xs ws) / Rsum ws)%R.

Definition spec_inflated_variance (xs ws : list R) : R :=
  let mean := spec_weighted_mean xs ws in
  (/ Rsum ws *
   (Rsum (zip_with (fun x w => (x - mean) * (x - mean) * w) xs ws)
    / (INR (length xs) - 1)))%R.

(** The baseline DM of an archive (lines 354-357). *)
Definition archive_DM0 (o : options) (d : archive) : R :=
  match DM0 o with
  | Some x => x
  | None => DM_stored d
  end.

(** The value the caller's additional flags give to a key: that of its last
    occurrence among the items. *)
Fixpoint last_binding (items : list (string * flag_value)) (k : string)
    : option flag_value :=
  match items with
  | [] => None
  | (k', v) :: rest =>
      match last_binding rest k with
      | Some v' => Some v'
      | None => if String.eqb k' k then Some v else None
      end
  end.

(** ** Concrete inputs used in the examples *)

Definition opts_DM_GM : options :=
  {| fit_DM := true; fit_GM := true; fit_scat := false; fix_alpha := false;
     log10_tau := true; bary := true; nu_refs := None; DM0 := None;
     print_phase := false; print_flux := false; print_parangle := false;
     addtnl_toa_flags := [] |}.

(** The default options of [get_TOAs]. *)
Definition opts_default : options :=
  {| fit_DM := true; fit_GM := false; fit_scat := false; fix_alpha := false;
     log10_tau := true; bary := true; nu_refs := None; DM0 := None;
     print_phase := false; print_flux := false; print_parangle := false;
     addtnl_toa_flags := [] |}.

Definition identity_matrix (k : nat) : matrix :=
  map (fun i => map (fun j => if i =? j then 1%R else 0%R) (seq 0 k)) (seq 0 k).

(** An engine that answers with fixed values and a covariance matrix sized to
    the number of free parameters. *)
Definition ex_fit : fit_engine := fun _ _ fit_flags =>
  {| phi := 0.25; phi_err := 0.001; DM := 10; DM_err := 0.01;
     GM := 2; GM_err := 0.1; tau := 0; tau_err := 0; alpha := 0; alpha_err := 0;
     covariance_matrix := identity_matrix (length (np_where fit_flags));
     snr := 50; red_chi2 := 1; nu_DM := 1400; nu_GM := 1400; nu_tau := 1400 |}.

Definition ex_subint (i nchx : nat) : subint :=
  {| isub := i; epoch := 55000; P := 0.005; freqsx := replicate nchx 1400%R;
     doppler_factor := 1.0001; subtime := 60; parallactic_angle := 0;
     flux_estimate := (0%R, 0%R, 0%R) |}.

Definition ex_archive (subs : list subint) : archive :=
  {| datafile := "a.fits"; backend := "GUPPI"; frontend := "L-wide";
     telescope := "GBT"; telescope_code := "1"; nsub := length subs;
     nchan := 16; nbin := 512; bw := 800; backend_delay := 0;
     DM_stored := 10; ok_subints := subs |}.

Definition ex_state (d : archive) (o : options) : loop_state :=
  {| local_fit_flags := None; arrs := init_arrays o d; TOA_list := [] |}.

(** The state after the only subintegration of a one-subintegration archive
    with four good channels. *)
Definition ex_after_subint : loop_state :=
  let d := ex_archive [ex_subint 0 4] in
  match process_subint ex_fit opts_DM_GM "m.gmodel" d (ex_state d opts_DM_GM)
          (ex_subint 0 4) with
  | Ok st' => st'
  | Raise _ => ex_state d opts_DM_GM
  end.

(** The state after one subintegration with four good channels under the
    default options. *)
Definition ex_after_default : loop_state :=
  let d := ex_archive [ex_subint 0 4] in
  match process_subint ex_fit opts_default "m.gmodel" d (ex_state d opts_default)
          (ex_subint 0 4) with
  | Ok st' => st'
  | Raise _ => ex_state d opts_default
  end.

(** The default options with an output reference frequency for the TOAs. *)
Definition opts_nu_ref : options :=
  {| fit_DM := true; fit_GM := false; fit_scat := false; fix_alpha := false;
     log10_tau := true; bary := true; nu_refs := Some (Some 1400%R, None);
     DM0 := None;
     print_phase := false; print_flux := false; print_parangle := false;
     addtnl_toa_flags := [] |}.

Definition ex_after_nu_ref : loop_state :=
  let d := ex_archive [ex_subint 0 4] in
  match process_subint ex_fit opts_nu_ref "m.gmodel" d (ex_state d opts_nu_ref)
          (ex_subint 0 4) with
  | Ok st' => st'
  | Raise _ => ex_state d opts_nu_ref
  end.

(** DM and GM requested, and [fix_alpha] set without [fit_scat]: the slot
    is 2 x 2 while three parameters are free. *)
Definition opts_fix_alpha : options :=
  {| fit_DM := true; fit_GM := true; fit_scat := false; fix_alpha := true;
     log10_tau := true; bary := true; nu_refs := None; DM0 := None;
     print_phase := false; print_flux := false; print_parangle := false;
     addtnl_toa_flags := [] |}.

Definition ex_GetTOAs : GetTOAs :=
  {| self_datafiles := ["a.fits"; "b.fits"]; self_modelfile := "m.gmodel";
     self_quiet := true; self_TOA_list := [];
     self_DeltaDM_means := []; self_DeltaDM_errs := [] |}.

Definition ex_load : string -> load_outcome :=
  fun _ => Loaded (ex_archive [ex_subint 0 4; ex_subint 1 4]).

(** Four good channels whose signal-to-noise ratios are chosen so that
    cutting the weakest one raises the effective threshold above the next. *)
Definition ex_channel_snrs : list R := [3; 4.5; 10; 10]%R.

Definition ex_red_chi2 : nat -> option R := fun _ => Some 1%R.

Definition ex_ok_ichans : list nat := [0; 1; 2; 3].

(** A metafile that lists one archive more than a thousand times. *)
Definition newline : string := String "010"%char EmptyString.

Definition ex_metafile_lines : list string :=
  replicate 1000 ("a.fits" +:+ newline).

Definition ex_narrowband_world : narrowband_world :=
  {| nb_load := ex_load;
     nb_globals := <["max_nfile" := VFloat 999]> ∅;
     nb_scattering_alpha := (-4)%R;
     nb_model_attrs := fun _ _ => {| self_alpha := None; self_gparams := None |};
     nb_phase_guess := fun _ _ _ _ => 0%R;
     nb_channel_loop := fun _ _ _ => ([], None) |}.

Definition ex_environment : environment :=
  {| env_metafile := fun _ => Some ex_metafile_lines;
     env_load := ex_load;
     env_fit := ex_fit;
     env_narrowband := ex_narrowband_world |}.

Definition ex_narrowband_options : narrowband_options :=
  {| nb_fit_scat := true; nb_log10_tau := true; nb_scat_guess := None |}.

(** [pptoas.py -d metafile -m model]. *)
Definition ex_cli : cli_options :=
  {| opt_datafiles := Some "files.meta"; opt_modelfile := Some "m.gmodel";
     opt_narrowband := false; opt_psrchive := false; opt_quiet := false;
     opt_wideband := opts_default;
     opt_narrowband_options := ex_narrowband_options |}.

(* ================================================================== *)
(** * Further parts of the program                                     *)
(* ================================================================== *)

(** The mask of a one-channel subintegration (line 520). *)
Definition phase_only : list bool := [true; false; false; false; false].

(** What the mask passed for a subintegration with [nchx] good channels has
    to look like. *)
Definition mask_for (o : options) (nchx : nat) (mask : list bool) : Prop :=
  length mask = 5 /\ mask !! 0 = Some true /\
  (nchx = 1 -> mask = phase_only) /\
  (nchx = 2 -> fit_DM o = true -> fit_GM o = true -> mask !! 2 = Some false) /\
  (nchx <> 1 -> ~ (nchx = 2 /\ fit_DM o = true /\ fit_GM o = true) ->
   mask = self_fit_flags o).

(** The keys [compile_toa_flags] sets on every record (lines 678-694). *)
Definition standard_keys : list string :=
  ["be"; "fe"; "f"; "nbin"; "nch"; "nchx"; "bw"; "chbw"; "subint"; "tobs";
   "fratio"; "tmplt"; "snr"; "gof"].

(** The keys that report a fitted DM covariance, GM or scattering. *)
Definition fit_dependent_keys : list string :=
  ["gm"; "gm_err"; "scat_time"; "scat_time_err"; "log10_scat_time";
   "log10_scat_time_err"; "scat_ref_freq"; "scat_ind"; "scat_ind_err";
   "phi_DM_cov"].

(** The state after the only subintegration of an archive, with one good
    channel, under DM, GM and an output reference frequency requested. *)
Definition opts_all_requested : options :=
  {| fit_DM := true; fit_GM := true; fit_scat := true; fix_alpha := false;
     log10_tau := true; bary := true; nu_refs := Some (Some 1400%R, Some 1400%R);
     DM0 := None;
     print_phase := false; print_flux := false; print_parangle := false;
     addtnl_toa_flags := [] |}.

Definition ex_after_one_channel : loop_state :=
  let d := ex_archive [ex_subint 0 1] in
  match process_subint ex_fit opts_all_requested "m.gmodel" d
          (ex_state d opts_all_requested) (ex_subint 0 1) with
  | Ok st' => st'
  | Raise _ => ex_state d opts_all_requested
  end.

(** The default options with two additional flags, one of which collides
    with a computed key. *)
Definition opts_caller_flags : options :=
  {| fit_DM := true; fit_GM := false; fit_scat := false; fix_alpha := false;
     log10_tau := true; bary := true; nu_refs := None; DM0 := None;
     print_phase := false; print_flux := false; print_parangle := false;
     addtnl_toa_flags := [("pta", FStr "NANOGrav"); ("snr", FStr "high")] |}.

Definition ex_after_caller_flags : loop_state :=
  let d := ex_archive [ex_subint 0 4] in
  match process_subint ex_fit opts_caller_flags "m.gmodel" d
          (ex_state d opts_caller_flags) (ex_subint 0 4) with
  | Ok st' => st'
  | Raise _ => ex_state d opts_caller_flags
  end.

(** What the record of a subintegration takes from its archive and from the
    subintegration itself: the archive's names, the TOA and its uncertainty
    computed from the subintegration's epoch and period, and, unless the
    caller overrides it, the subintegration's index as the flag [subint]. *)
Definition record_of_subint (fit : fit_engine) (o : options) (d : archive)
    (s : subint) (toa : TOA) : Prop :=
  TOA_archive toa = datafile d /\
  TOA_telescope toa = telescope d /\
  TOA_telescope_code toa = telescope_code d /\
  (exists fit_flags : list bool,
     TOA_MJD toa
     = calculate_TOA (epoch s) (P s) (backend_delay d) (fit o s fit_flags) /\
     TOA_error toa = calculate_TOA_err (P s) (fit o s fit_flags)) /\
  (last_binding (addtnl_toa_flags o) "subint" = None ->
   TOA_flags toa !! "subint" = Some (FInt (isub s))).

(** The state after the subintegration loop of a two-subintegration archive
    under the default options. *)
Definition ex_two_subints : archive := ex_archive [ex_subint 0 4; ex_subint 1 4].

Definition ex_after_loop : loop_state :=
  match foldM (process_subint ex_fit opts_default "m.gmodel" ex_two_subints)
          (ex_state ex_two_subints opts_default) (ok_subints ex_two_subints) with
  | Ok st' => st'
  | Raise _ => ex_state ex_two_subints opts_default
  end.

(** An engine whose fitted DMs lie one unit above and one unit below the
    stored DM, with equal uncertainties, and options without Doppler
    correction. *)
Definition ex_fit_pm : fit_engine := fun _ s fit_flags =>
  {| phi := 0.25; phi_err := 0.001;
     DM := if isub s =? 0 then 11 else 9; DM_err := 0.5;
     GM := 0; GM_err := 0; tau := 0; tau_err := 0; alpha := 0; alpha_err := 0;
     covariance_matrix := identity_matrix (length (np_where fit_flags));
     snr := 50; red_chi2 := 1; nu_DM := 1400; nu_GM := 1400; nu_tau := 1400 |}.

Definition opts_topo : options :=
  {| fit_DM := true; fit_GM := false; fit_scat := false; fix_alpha := false;
     log10_tau := true; bary := false; nu_refs := None; DM0 := None;
     print_phase := false; print_flux := false; print_parangle := false;
     addtnl_toa_flags := [] |}.

Definition ex_after_loop_pm : loop_state :=
  match foldM (process_subint ex_fit_pm opts_topo "m.gmodel" ex_two_subints)
          (ex_state ex_two_subints opts_topo) (ok_subints ex_two_subints) with
  | Ok st' => st'
  | Raise _ => ex_state ex_two_subints opts_topo
  end.

(** The arrays of an archive keep their lengths through the loop. *)
Definition same_lengths (a a' : arrays) : Prop :=
  length (TOAs a') = length (TOAs a) /\
  length (TOA_errs a') = length (TOA_errs a) /\
  length (DMs a') = length (DMs a) /\
  length (DM_errs a') = length (DM_errs a) /\
  length (GMs a') = length (GMs a) /\
  length (GM_errs a') = length (GM_errs a) /\
  length (covariances a') = length (covariances a).

(** The data files whose archive reaches the subintegration loop. *)
Definition usable (load : string -> load_outcome) (f : string) : bool :=
  match load f with
  | Loaded d => negb (length (ok_subints d) =? 0)
  | LoadError | Skipped => false
  end.

(** A loader that finds an archive only under one name. *)
Definition ex_load_one : string -> load_outcome :=
  fun f => if String.eqb f "a.fits" then Loaded ex_two_subints else LoadError.

(** The reduced chi-square criterion of the first loop over the good
    channels (lines 1306-1309): above the threshold, or not a number. *)
Definition chi2_bad (rchi2_threshold : R) (channel_red_chi2 : nat -> option R)
    (c : nat) : bool :=
  match channel_red_chi2 c with
  | None => true
  | Some chi2 => if Rgt_dec chi2 rchi2_threshold then true else false
  end.

(** The state after one subintegration with four good channels when
    scattering is fitted as well. *)
Definition ex_after_scat : loop_state :=
  let d := ex_archive [ex_subint 0 4] in
  match process_subint ex_fit opts_all_requested "m.gmodel" d
          (ex_state d opts_all_requested) (ex_subint 0 4) with
  | Ok st' => st'
  | Raise _ => ex_state d opts_all_requested
  end.

(** A metafile of two lines, the second without its line end. *)
Definition ex_metafile_entries : list (string * ascii) :=
  [("a.fits", "010"%char); ("b.fit", "s"%char)].

(** The module's globals with [nu_fit_tau] bound but not [rot_prof]. *)
Definition ex_narrowband_world_nu_fit_tau : narrowband_world :=
  {| nb_load := ex_load;
     nb_globals := <["nu_fit_tau" := VFloat 1400]> ∅;
     nb_scattering_alpha := (-4)%R;
     nb_model_attrs := fun _ _ => {| self_alpha := None; self_gparams := None |};
     nb_phase_guess := fun _ _ _ _ => 0%R;
     nb_channel_loop := fun _ _ _ => ([], None) |}.

(** ** The [--flags] option (lines 1629-1630) *)

(** [s.split(',')] *)
Fixpoint split_comma (s : string) : list string :=
  match s with
  | EmptyString => [EmptyString]
  | String c rest =>
      if Ascii.eqb c ","%char then EmptyString :: split_comma rest
      else
        match split_comma rest with
        | tok :: toks => String c tok :: toks
        | [] => [String c EmptyString]
        end
  end.

(** [l[::2]]; [l[1::2]] is [stride2 (tail l)]. *)
Fixpoint stride2 {A : Type} (l : list A) : list A :=
  match l with
  | [] => []
  | x :: l' =>
      x :: match l' with
           | [] => []
           | _ :: rest => stride2 rest
           end
  end.

(** [d[k] = v] on the items of a dict, in insertion order. *)
Fixpoint dict_set (items : list (string * flag_value)) (k : string)
    (v : flag_value) : list (string * flag_value) :=
  match items with
  | [] => [(k, v)]
  | (k', v') :: rest =>
      if String.eqb k' k then (k', v) :: rest else (k', v') :: dict_set rest k v
  end.

(** [dict(pairs)] *)
Definition dict_of (pairs : list (string * flag_value)) : list (string * flag_value) :=
  fold_left (fun items kv => dict_set items kv.1 kv.2) pairs [].

(** [addtnl_toa_flags] as built from [options.toa_flags]. *)
Definition cli_toa_flags (toa_flags : string) : list (string * flag_value) :=
  let k := stride2 (split_comma toa_flags) in
  let v := stride2 (tail (split_comma toa_flags)) in
  dict_of (combine k (map FStr v)).

(** A string without a comma. *)
Fixpoint comma_free (s : string) : bool :=
  match s with
  | EmptyString => true
  | String c rest => negb (Ascii.eqb c ","%char) && comma_free rest
  end.

(** The tokens of a list of key-value pairs, in order. *)
Fixpoint tokens_of (pairs : list (string * string)) : list string :=
  match pairs with
  | [] => []
  | (k, v) :: rest => k :: v :: tokens_of rest
  end.

(* ================================================================== *)
(** * Part II. Properties                                              *)
(* ================================================================== *)

(** ** Results *)

Lemma rbind_Ok {A B : Type} (m : result A) (k : A -> result B) (b : B) :
  rbind m k = Ok b -> exists a, m = Ok a /\ k a = Ok b.
Proof. destruct m as [a|e]; simpl; intros H; [eauto | discriminate]. Qed.

Lemma getitem_Ok {A : Type} (l : list A) (i : nat) (a : A) :
  getitem l i = Ok a <-> l !! i = Some a.
Proof.
  unfold getitem. destruct (l !! i); split; intros H; congruence.
Qed.

Lemma setitem_Ok {A : Type} (l : list A) (i : nat) (a : A) (l' : list A) :
  setitem l i a = Ok l' <-> i < length l /\ l' = <[i := a]> l.
Proof.
  unfold setitem. destruct (Nat.ltb_spec i (length l)); split.
  - intros [= <-]. auto.
  - intros [_ ->]. reflexivity.
  - discriminate.
  - intros [? _]. lia.
Qed.

Ltac inv_bind H :=
  repeat match type of H with
  | rbind _ _ = Ok _ =>
      let a := fresh "a" in
      let Ha := fresh "Ha" in
      apply rbind_Ok in H; destruct H as (a & Ha & H)
  end.

(** ** Fit-mask selection *)

Lemma select_fit_flags_one_channel o fit_flags :
  select_fit_flags o fit_flags 1 = Ok [true; false; false; false; false].
Proof. reflexivity. Qed.

Lemma select_fit_flags_base o fit_flags nchx :
  nchx <> 1 -> ~ (nchx = 2 /\ fit_DM o = true /\ fit_GM o = true) ->
  select_fit_flags o fit_flags nchx = Ok (self_fit_flags o).
Proof.
  intros H1 H2. unfold select_fit_flags.
  destruct (Nat.eqb_spec nchx 1); [contradiction|].
  destruct (Nat.eqb_spec nchx 2), (fit_DM o), (fit_GM o); simpl; try reflexivity.
  exfalso. apply H2. auto.
Qed.

Lemma select_fit_flags_phi_free o fit_flags nchx ff :
  (forall prev, fit_flags = Some prev -> prev !! 0 = Some true) ->
  select_fit_flags o fit_flags nchx = Ok ff -> ff !! 0 = Some true.
Proof.
  intros Hprev. unfold select_fit_flags.
  destruct (nchx =? 1); [intros [= <-]; reflexivity|].
  destruct ((nchx =? 2) && fit_DM o && fit_GM o).
  - destruct fit_flags as [prev|]; [|discriminate].
    intros H. apply setitem_Ok in H as [_ ->].
    rewrite list_lookup_insert_ne by lia. auto.
  - intros [= <-]. reflexivity.
Qed.

(** C1 (the code departs from the claim).  With DM and GM both requested,
    the two-channel branch clears position 2 of whatever mask the previous
    subintegration left in the local variable instead of starting from the
    base mask: after a one-channel subintegration the mask passed for a
    two-channel one has DM off, and when the two-channel subintegration is
    the first of the call the variable is unbound and the call raises. *)
Theorem C1_two_channel_mask_is_stale :
  fit_flags_passed opts_DM_GM None [1; 2]
  = Ok [[true; false; false; false; false]; [true; false; false; false; false]]
  /\ fit_flags_passed opts_DM_GM None [3; 2]
     = Ok [[true; true; true; false; false]; [true; true; false; false; false]]
  /\ fit_flags_passed opts_DM_GM None [2] = Raise (UnboundLocalError "fit_flags").
Proof. repeat split. Qed.

(** ** One subintegration: what [process_subint] leaves behind *)

Lemma doppler_correction_bary (ff : list bool) df r r' df' :
  doppler_correction true ff df r = Ok (r', df') ->
  exists f1 f2 : bool, ff !! 1 = Some f1 /\ ff !! 2 = Some f2 /\ df' = df /\
    r' = (let r1 := if f1 then set_DM r (DM r * df)%R else r in
          if f2 then set_GM r1 (GM r1 * df ^ 3)%R else r1).
Proof.
  unfold doppler_correction. intros H. inv_bind H.
  apply getitem_Ok in Ha, Ha0. injection H as <- <-. eauto 10.
Qed.

Lemma doppler_correction_topo ff df r :
  doppler_correction false ff df r = Ok (r, 1%R).
Proof. reflexivity. Qed.

(** Inversion of a successful iteration of the subintegration loop. *)
Lemma process_subint_Ok fit o modelfile d st s st' :
  process_subint fit o modelfile d st s = Ok st' ->
  exists ff r' df cov flags (f1 : bool),
    select_fit_flags o (local_fit_flags st) (length (freqsx s)) = Ok ff /\
    doppler_correction (bary o) ff (doppler_factor s) (fit o s ff) = Ok (r', df) /\
    store_covariance (self_nfit o) ff (covariance_matrix r') = Ok cov /\
    compile_toa_flags o modelfile d s ff r' df = Ok flags /\
    ff !! 1 = Some f1 /\
    isub s < length (DMs (arrs st)) /\
    isub s < length (GMs (arrs st)) /\
    isub s < length (covariances (arrs st)) /\
    local_fit_flags st' = Some ff /\
    DMs (arrs st') = <[isub s := DM r']> (DMs (arrs st)) /\
    DM_errs (arrs st') = <[isub s := DM_err r']> (DM_errs (arrs st)) /\
    GMs (arrs st') = <[isub s := GM r']> (GMs (arrs st)) /\
    covariances (arrs st') = <[isub s := cov]> (covariances (arrs st)) /\
    isub s < length (TOAs (arrs st)) /\
    TOAs (arrs st') =
      <[isub s := calculate_TOA (epoch s) (P s) (backend_delay d) (fit o s ff)]>
        (TOAs (arrs st)) /\
    TOA_errs (arrs st') =
      <[isub s := calculate_TOA_err (P s) (fit o s ff)]> (TOA_errs (arrs st)) /\
    TOA_list st' = TOA_list st ++
      [ {| TOA_archive := datafile d; TOA_frequency := nu_DM r';
           TOA_MJD := calculate_TOA (epoch s) (P s) (backend_delay d) (fit o s ff);
           TOA_error := calculate_TOA_err (P s) (fit o s ff);
           TOA_telescope := telescope d; TOA_telescope_code := telescope_code d;
           TOA_DM := if f1 then Some (DM r') else None;
           TOA_DM_error := if f1 then Some (DM_err r') else None;
           TOA_flags := flags |} ].
Proof.
  unfold process_subint. intros H.
  apply rbind_Ok in H as (ff & Hff & H).
  apply rbind_Ok in H as ([r' df] & Hdop & H).
  inv_bind H. injection H as <-. simpl.
  repeat match goal with
  | Hs : setitem _ _ _ = Ok _ |- _ => apply setitem_Ok in Hs as [? ->]
  | Hg : getitem _ _ = Ok _ |- _ => apply getitem_Ok in Hg
  end.
  do 6 eexists. repeat split; eauto.
Qed.

(** [show_fit] undoes the correction: dividing the stored values by the same
    factors gives the fitted values back. *)
Lemma show_fit_recovers_fitted (b : bool) (DM_fit GM_fit df : R) :
  df <> 0%R ->
  show_fit_DM_GM b (if b then DM_fit * df else DM_fit)%R
    (if b then GM_fit * df ^ 3 else GM_fit)%R df
  = (DM_fit, GM_fit).
Proof.
  intros Hdf. unfold show_fit_DM_GM. destruct b; [|reflexivity].
  f_equal; field; exact Hdf.
Qed.

(** C3.  The TOA of a successfully fit subintegration is its epoch plus
    (fitted phase x period + backend delay) / 86400 days, and its
    uncertainty is the fitted-phase uncertainty x period in seconds, times
    10^6, that is, in microseconds. *)
Theorem C3_TOA_and_uncertainty
    fit o modelfile d st s st' :
  process_subint fit o modelfile d st s = Ok st' ->
  exists ff toa,
    select_fit_flags o (local_fit_flags st) (length (freqsx s)) = Ok ff /\
    TOA_list st' = TOA_list st ++ [toa] /\
    let fitted := fit o s ff in
    TOA_MJD toa = (epoch s + (phi fitted * P s + backend_delay d) / 86400)%R /\
    TOA_error toa = (phi_err fitted * P s * 1000000)%R /\
    TOAs (arrs st') !! isub s = Some (TOA_MJD toa) /\
    TOA_errs (arrs st') !! isub s = Some (TOA_error toa).
Proof.
  intros H. assert (Hlen := H).
  apply process_subint_Ok in H
    as (ff & r' & df & cov & flags & f1 & Hff & _ & _ & _ & _ & _ & _
        & _ & _ & _ & _ & _ & _ & Hl & HT & HTe & HL).
  eexists ff, _. split; [exact Hff|]. split; [exact HL|]. simpl.
  unfold calculate_TOA, calculate_TOA_err.
  repeat split.
  - f_equal. f_equal. lra.
  - lra.
  - rewrite HT. apply list_lookup_insert_eq. exact Hl.
  - rewrite HTe. apply list_lookup_insert_eq.
    unfold process_subint in Hlen.
    apply rbind_Ok in Hlen as (? & _ & Hlen).
    apply rbind_Ok in Hlen as ([? ?] & _ & Hlen).
    apply rbind_Ok in Hlen as (? & _ & Hlen).
    apply rbind_Ok in Hlen as (? & Hs & _).
    apply setitem_Ok in Hs as [Hs _]. exact Hs.
Qed.

Lemma C3_TOA_and_uncertainty_witness :
  let d := ex_archive [ex_subint 0 4] in
  process_subint ex_fit opts_DM_GM "m.gmodel" d (ex_state d opts_DM_GM)
    (ex_subint 0 4) = Ok ex_after_subint /\
  exists toa,
    TOA_list ex_after_subint = [toa] /\
    TOA_MJD toa = (55000 + (0.25 * 0.005 + 0) / 86400)%R /\
    TOA_error toa = (0.001 * 0.005 * 1000000)%R.
Proof.
  intros d.
  assert (H : process_subint ex_fit opts_DM_GM "m.gmodel" d
                (ex_state d opts_DM_GM) (ex_subint 0 4) = Ok ex_after_subint)
    by reflexivity.
  split; [exact H|].
  destruct (C3_TOA_and_uncertainty _ _ _ _ _ _ _ H)
    as (ff & toa & Hff & HL & HM & HE & _).
  exists toa. split; [exact HL|]. split; [exact HM | exact HE].
Defined.

(** ** Flag assembly *)

Lemma lookup_if {V : Type} (b : bool) (m1 m2 : gmap string V) (k : string) :
  (if b then m1 else m2) !! k = if b then m1 !! k else m2 !! k.
Proof. destruct b; reflexivity. Qed.

Lemma fold_insert_lookup (items : list (string * flag_value))
    (m : gmap string flag_value) (k : string) :
  fold_left (fun m kv => <[kv.1 := kv.2]> m) items m !! k
  = match last_binding items k with
    | Some v => Some v
    | None => m !! k
    end.
Proof.
  revert m. induction items as [|[k' v] items IH]; intros m; simpl.
  - reflexivity.
  - rewrite IH. destruct (last_binding items k); [reflexivity|].
    destruct (String.eqb_spec k' k) as [->|Hne].
    + apply lookup_insert_eq.
    + apply lookup_insert_ne. exact Hne.
Qed.

Lemma getitem2_mat_at (M : matrix) (i j : nat) (c : R) :
  getitem2 M i j = Ok c -> mat_at M i j = c.
Proof.
  unfold getitem2, mat_at. intros H.
  apply rbind_Ok in H as (row & Hrow & H). apply getitem_Ok in Hrow, H.
  rewrite (nth_lookup_Some _ _ _ _ Hrow). apply (nth_lookup_Some _ _ _ _ H).
Qed.

Ltac flag_lookup :=
  unfold scat_flags;
  repeat first
    [ rewrite lookup_insert_ne by discriminate
    | rewrite lookup_insert_eq
    | rewrite lookup_if
    | rewrite lookup_empty ];
  repeat match goal with
  | |- context [if ?b then _ else _] => destruct b
  end;
  try reflexivity.

(** The computed part of the flag map at the keys [gm] and [phi_DM_cov]. *)
Lemma compile_toa_flags_lookup o modelfile d s (ff : list bool) r df flags :
  compile_toa_flags o modelfile d s ff r df = Ok flags ->
  exists f2 : bool,
    ff !! 2 = Some f2 /\
    flags !! "gm"
    = match last_binding (addtnl_toa_flags o) "gm" with
      | Some v => Some v
      | None => if f2 then Some (FFloat (GM r)) else None
      end /\
    flags !! "phi_DM_cov"
    = match last_binding (addtnl_toa_flags o) "phi_DM_cov" with
      | Some v => Some v
      | None =>
          if is_not_None (nu_ref_DM o) && forallb (fun b => b) (take 2 ff)
          then Some (FFloat (mat_at (covariance_matrix r) 0 1))
          else None
      end /\
    (is_not_None (nu_ref_DM o) && forallb (fun b => b) (take 2 ff) = true ->
     exists c, getitem2 (covariance_matrix r) 0 1 = Ok c).
Proof.
  unfold compile_toa_flags. intros H.
  apply rbind_Ok in H as (f2 & Hf2 & H). apply getitem_Ok in Hf2.
  apply rbind_Ok in H as (f3 & _ & H).
  apply rbind_Ok in H as (f4 & _ & H).
  apply rbind_Ok in H as (fmax & _ & H).
  apply rbind_Ok in H as (fmin & _ & H).
  apply rbind_Ok in H as (tf & Htf & H).
  injection H as <-.
  exists f2. split; [exact Hf2|].
  rewrite !fold_insert_lookup.
  destruct (is_not_None (nu_ref_DM o) && forallb (fun b => b) (take 2 ff)).
  - apply rbind_Ok in Htf as (c & Hc & Htf). injection Htf as <-.
    assert (Hat := getitem2_mat_at _ _ _ _ Hc).
    split; [|split]; [| |eauto].
    + destruct (last_binding _ "gm"); [reflexivity|].
      flag_lookup.
    + destruct (last_binding _ "phi_DM_cov"); [reflexivity|].
      rewrite Hat. flag_lookup.
  - injection Htf as <-.
    split; [|split]; [| |discriminate].
    + destruct (last_binding _ "gm"); [reflexivity|].
      flag_lookup.
    + destruct (last_binding _ "phi_DM_cov"); [reflexivity|].
      flag_lookup.
Qed.

Lemma process_subint_record fit o modelfile d st s st' :
  process_subint fit o modelfile d st s = Ok st' ->
  exists (ff : list bool) r' df toa,
    select_fit_flags o (local_fit_flags st) (length (freqsx s)) = Ok ff /\
    doppler_correction (bary o) ff (doppler_factor s) (fit o s ff) = Ok (r', df) /\
    TOA_list st' = TOA_list st ++ [toa] /\
    compile_toa_flags o modelfile d s ff r' df = Ok (TOA_flags toa).
Proof.
  intros H. apply process_subint_Ok in H
    as (ff & r' & df & cov & flags & f1 & Hff & Hdop & _ & Hfl & _ & _ & _
        & _ & _ & _ & _ & _ & _ & _ & _ & _ & HL).
  eexists ff, r', df, _. repeat split; [exact Hff | exact Hdop | exact HL | exact Hfl].
Qed.

Lemma compile_toa_flags_gm o modelfile d s (ff : list bool) r df flags :
  compile_toa_flags o modelfile d s ff r df = Ok flags ->
  ff !! 2 = Some true ->
  last_binding (addtnl_toa_flags o) "gm" = None ->
  flags !! "gm" = Some (FFloat (GM r)).
Proof.
  intros H Hfree Hcaller.
  apply compile_toa_flags_lookup in H as (f2 & Hf2 & Hgm & _).
  rewrite Hfree in Hf2. injection Hf2 as <-.
  rewrite Hgm, Hcaller. reflexivity.
Qed.

(** C2.  In barycentric mode the DM stored for a subintegration and written
    on its TOA record is the fitted DM times the Doppler factor whenever the
    mask has DM free, and the GM stored for it and written on its record as
    the flag [gm] is the fitted GM times the Doppler factor cubed whenever
    the mask has GM free; without [bary] both are the fitted values. *)
Theorem C2_doppler_multiplies
    fit o modelfile d st s st' :
  process_subint fit o modelfile d st s = Ok st' ->
  exists ff toa,
    select_fit_flags o (local_fit_flags st) (length (freqsx s)) = Ok ff /\
    TOA_list st' = TOA_list st ++ [toa] /\
    let fitted := fit o s ff in
    let df := doppler_factor s in
    (bary o = true -> ff !! 1 = Some true ->
       DMs (arrs st') !! isub s = Some (DM fitted * df)%R /\
       TOA_DM toa = Some (DM fitted * df)%R) /\
    (bary o = true -> ff !! 2 = Some true ->
       GMs (arrs st') !! isub s = Some (GM fitted * df ^ 3)%R /\
       (last_binding (addtnl_toa_flags o) "gm" = None ->
        TOA_flags toa !! "gm" = Some (FFloat (GM fitted * df ^ 3)%R))) /\
    (bary o = false ->
       DMs (arrs st') !! isub s = Some (DM fitted) /\
       GMs (arrs st') !! isub s = Some (GM fitted) /\
       (ff !! 1 = Some true -> TOA_DM toa = Some (DM fitted)) /\
       (ff !! 2 = Some true ->
        last_binding (addtnl_toa_flags o) "gm" = None ->
        TOA_flags toa !! "gm" = Some (FFloat (GM fitted)))).
Proof.
  intros H. apply process_subint_Ok in H
    as (ff & r' & df & cov & flags & f1 & Hff & Hdop & _ & Hfl & Hf1 & HlD & HlG
        & _ & _ & HD & _ & HG & _ & _ & _ & _ & HT).
  eexists ff, _. split; [exact Hff|]. split; [exact HT|]. simpl.
  rewrite HD, HG, !list_lookup_insert_eq by assumption.
  destruct (bary o) eqn:Hb.
  - apply doppler_correction_bary in Hdop as (g1 & g2 & Hg1 & Hg2 & -> & ->).
    split; [|split]; intros Hb'; try discriminate; intros Hfree.
    + rewrite Hfree in Hg1, Hf1. injection Hg1 as <-. injection Hf1 as <-.
      destruct g2; split; reflexivity.
    + assert (Hg2' := Hg2). rewrite Hfree in Hg2'. injection Hg2' as <-.
      split; [destruct g1; reflexivity|].
      intros Hcaller.
      rewrite (compile_toa_flags_gm _ _ _ _ _ _ _ _ Hfl Hfree Hcaller).
      destruct g1; reflexivity.
  - rewrite doppler_correction_topo in Hdop. injection Hdop as <- <-.
    split; [|split]; intros Hb'; try discriminate.
    split; [reflexivity|]. split; [reflexivity|]. split.
    + intros Hfree. rewrite Hfree in Hf1. injection Hf1 as <-. reflexivity.
    + intros Hfree Hcaller.
      apply (compile_toa_flags_gm _ _ _ _ _ _ _ _ Hfl Hfree Hcaller).
Qed.

Lemma C2_doppler_multiplies_witness :
  let d := ex_archive [ex_subint 0 4] in
  process_subint ex_fit opts_DM_GM "m.gmodel" d (ex_state d opts_DM_GM)
    (ex_subint 0 4) = Ok ex_after_subint /\
  DMs (arrs ex_after_subint) !! 0 = Some (10 * 1.0001)%R /\
  GMs (arrs ex_after_subint) !! 0 = Some (2 * 1.0001 ^ 3)%R /\
  exists toa,
    TOA_list ex_after_subint = [toa] /\
    TOA_DM toa = Some (10 * 1.0001)%R /\
    TOA_flags toa !! "gm" = Some (FFloat (2 * 1.0001 ^ 3)%R).
Proof.
  assert (H : process_subint ex_fit opts_DM_GM "m.gmodel"
                (ex_archive [ex_subint 0 4])
                (ex_state (ex_archive [ex_subint 0 4]) opts_DM_GM)
                (ex_subint 0 4) = Ok ex_after_subint) by reflexivity.
  split; [exact H|].
  destruct (C2_doppler_multiplies _ _ _ _ _ _ _ H)
    as (ff & toa & Hff & HL & Hbary & HGM & _).
  injection Hff as <-.
  destruct (Hbary eq_refl eq_refl) as [HD HT].
  destruct (HGM eq_refl eq_refl) as [HG Hflag].
  split; [exact HD|]. split; [exact HG|].
  exists toa. split; [exact HL|]. split; [exact HT|]. apply Hflag. reflexivity.
Defined.

(** C8, as stated, fails: under the default options ([fit_DM] on, [fit_GM]
    off, no output reference frequency) the record of a subintegration with
    four good channels has no [phi_DM_cov] flag. *)
Lemma C8_default_options_no_phi_DM_cov :
  fit_DM opts_default = true /\ fit_GM opts_default = false /\
  2 <= length (freqsx (ex_subint 0 4)) /\
  (let d := ex_archive [ex_subint 0 4] in
   process_subint ex_fit opts_default "m.gmodel" d (ex_state d opts_default)
     (ex_subint 0 4) = Ok ex_after_default) /\
  exists toa,
    TOA_list ex_after_default = [toa] /\
    TOA_flags toa !! "phi_DM_cov" = None.
Proof.
  split; [reflexivity|]. split; [reflexivity|]. split; [simpl; lia|].
  assert (H : process_subint ex_fit opts_default "m.gmodel"
                (ex_archive [ex_subint 0 4])
                (ex_state (ex_archive [ex_subint 0 4]) opts_default)
                (ex_subint 0 4) = Ok ex_after_default) by reflexivity.
  split; [exact H|].
  apply process_subint_record in H as (ff & r' & df & toa & _ & _ & HL & Hfl).
  exists toa. split; [exact HL|].
  apply compile_toa_flags_lookup in Hfl as (f2 & _ & _ & Hcov & _).
  rewrite Hcov. reflexivity.
Qed.

(** C8, amended.  With [fit_DM] on and [fit_GM] off, the record of a
    subintegration with at least two good channels carries a [gm] flag only
    when the caller supplies one among the additional flags; it carries
    [phi_DM_cov] whenever an output reference frequency for the TOAs was
    given, and otherwise only when the caller supplies it. *)
Theorem C8_gm_absent_phi_DM_cov_guarded
    fit o modelfile d st s st' :
  fit_DM o = true -> fit_GM o = false -> 2 <= length (freqsx s) ->
  process_subint fit o modelfile d st s = Ok st' ->
  exists toa,
    TOA_list st' = TOA_list st ++ [toa] /\
    TOA_flags toa !! "gm" = last_binding (addtnl_toa_flags o) "gm" /\
    (nu_ref_DM o <> None -> is_Some (TOA_flags toa !! "phi_DM_cov")) /\
    (nu_ref_DM o = None ->
     TOA_flags toa !! "phi_DM_cov"
     = last_binding (addtnl_toa_flags o) "phi_DM_cov").
Proof.
  intros HDM HGM Hn H.
  apply process_subint_record in H as (ff & r' & df & toa & Hff & _ & HL & Hfl).
  exists toa. split; [exact HL|].
  rewrite select_fit_flags_base in Hff; [|lia|rewrite HGM; intros (_ & _ & ?); discriminate].
  injection Hff as <-.
  apply compile_toa_flags_lookup in Hfl as (f2 & Hf2 & Hgm & Hcov & _).
  unfold self_fit_flags in *. rewrite HDM, HGM in *. simpl in Hf2, Hcov.
  injection Hf2 as <-.
  split; [|split].
  - rewrite Hgm. destruct (last_binding _ "gm"); reflexivity.
  - intros Hnu. rewrite Hcov.
    destruct (nu_ref_DM o); [|contradiction]. simpl.
    destruct (last_binding _ "phi_DM_cov"); eauto.
  - intros Hnu. rewrite Hcov, Hnu. simpl.
    destruct (last_binding _ "phi_DM_cov"); reflexivity.
Qed.

Lemma C8_gm_absent_phi_DM_cov_guarded_witness :
  fit_DM opts_nu_ref = true /\ fit_GM opts_nu_ref = false /\
  2 <= length (freqsx (ex_subint 0 4)) /\
  (let d := ex_archive [ex_subint 0 4] in
   process_subint ex_fit opts_nu_ref "m.gmodel" d (ex_state d opts_nu_ref)
     (ex_subint 0 4) = Ok ex_after_nu_ref) /\
  exists toa,
    TOA_list ex_after_nu_ref = [toa] /\
    TOA_flags toa !! "gm" = None /\
    is_Some (TOA_flags toa !! "phi_DM_cov").
Proof.
  assert (Hn : 2 <= length (freqsx (ex_subint 0 4))) by (simpl; lia).
  assert (H : process_subint ex_fit opts_nu_ref "m.gmodel"
                (ex_archive [ex_subint 0 4])
                (ex_state (ex_archive [ex_subint 0 4]) opts_nu_ref)
                (ex_subint 0 4) = Ok ex_after_nu_ref) by reflexivity.
  split; [reflexivity|]. split; [reflexivity|]. split; [exact Hn|].
  split; [exact H|].
  destruct (C8_gm_absent_phi_DM_cov_guarded ex_fit opts_nu_ref _ _ _ _ _
              eq_refl eq_refl Hn H) as (toa & HL & Hgm & Hcov & _).
  exists toa. split; [exact HL|]. split; [exact Hgm|].
  apply Hcov. discriminate.
Defined.

(** ** Storing the covariance matrix *)

Lemma square_row n (M : matrix) i :
  square n M -> i < n -> exists row, M !! i = Some row /\ length row = n.
Proof.
  intros [Hlen Hrows] Hi.
  destruct (lookup_lt_is_Some_2 M i) as [row Hrow]; [lia|].
  exists row. split; [exact Hrow|].
  rewrite Forall_lookup in Hrows. exact (Hrows _ _ Hrow).
Qed.

Lemma getitem2_square n (M : matrix) i j :
  square n M -> i < n -> j < n -> getitem2 M i j = Ok (mat_at M i j).
Proof.
  intros HM Hi Hj. destruct (square_row n M i HM Hi) as (row & Hrow & Hlen).
  destruct (lookup_lt_is_Some_2 row j) as [x Hx]; [lia|].
  unfold getitem2, getitem, mat_at. rewrite Hrow. simpl. rewrite Hx.
  rewrite (nth_lookup_Some _ _ _ _ Hrow), (nth_lookup_Some _ _ _ _ Hx).
  reflexivity.
Qed.

Lemma setitem2_spec n (slot : matrix) i j v :
  square n slot -> i < n -> j < n ->
  exists slot',
    setitem2 slot i j v = Ok slot' /\ square n slot' /\
    forall r c, mat_at slot' r c
                = if (r =? i) && (c =? j) then v else mat_at slot r c.
Proof.
  intros HS Hi Hj. destruct (square_row n slot i HS Hi) as (row & Hrow & Hlen).
  destruct HS as [HlenS Hrows].
  exists (<[i := <[j := v]> row]> slot). split; [|split].
  - unfold setitem2, getitem, setitem. rewrite Hrow. simpl.
    destruct (Nat.ltb_spec j (length row)); [|lia]. simpl.
    destruct (Nat.ltb_spec i (length slot)); [|lia]. reflexivity.
  - split.
    + rewrite length_insert. exact HlenS.
    + apply Forall_insert; [exact Hrows|]. rewrite length_insert. exact Hlen.
  - intros r c. unfold mat_at. rewrite !nth_lookup.
    destruct (Nat.eqb_spec r i) as [->|Hr]; simpl.
    + rewrite list_lookup_insert_eq by lia. simpl.
      destruct (Nat.eqb_spec c j) as [->|Hc].
      * rewrite list_lookup_insert_eq by lia. reflexivity.
      * rewrite list_lookup_insert_ne by lia. rewrite Hrow. reflexivity.
    + rewrite list_lookup_insert_ne by lia. reflexivity.
Qed.

Lemma find_pos_None entries pos :
  pos ∉ map snd entries -> find_pos entries pos = None.
Proof.
  induction entries as [|[ii ifit] entries IH]; simpl; intros Hnot.
  - reflexivity.
  - destruct (Nat.eqb_spec ifit pos) as [->|Hne].
    + exfalso. apply Hnot. left.
    + apply IH. intros Hin. apply Hnot. right. exact Hin.
Qed.

Lemma remap_row_spec n (M slot : matrix) ii ifit cols :
  square n slot -> ifit < n ->
  NoDup (map snd cols) ->
  (forall jj jfit, (jj, jfit) ∈ cols ->
     jfit < n /\ getitem2 M ii jj = Ok (mat_at M ii jj)) ->
  exists slot',
    remap_row M slot ii ifit cols = Ok slot' /\ square n slot' /\
    forall r c, mat_at slot' r c
                = if r =? ifit then
                    match find_pos cols c with
                    | Some p => mat_at M ii (fst p)
                    | None => mat_at slot r c
                    end
                  else mat_at slot r c.
Proof.
  intros HS Hi. revert slot HS.
  induction cols as [|[jj jfit] cols IH]; intros slot HS Hnd Hcols.
  - exists slot. split; [reflexivity|]. split; [exact HS|].
    intros r c. simpl. destruct (r =? ifit); reflexivity.
  - apply NoDup_cons in Hnd as [Hnot Hnd].
    destruct (Hcols jj jfit) as [Hj Hget]; [left|].
    destruct (setitem2_spec n slot ifit jfit (mat_at M ii jj) HS Hi Hj)
      as (slot1 & Hset & HS1 & Hat1).
    destruct (IH slot1 HS1 Hnd) as (slot' & Hrest & HS' & Hat').
    { intros jj' jfit' Hin. apply Hcols. right. exact Hin. }
    exists slot'. split; [|split; [exact HS'|]].
    + simpl. rewrite Hget. simpl. rewrite Hset. simpl. exact Hrest.
    + intros r c. rewrite Hat'. unfold find_pos at 2. simpl.
      fold (find_pos cols c). rewrite !Hat1.
      destruct (Nat.eqb_spec r ifit) as [->|Hr]; simpl; [|reflexivity].
      destruct (Nat.eqb_spec jfit c) as [->|Hc].
      * rewrite find_pos_None by exact Hnot. rewrite Nat.eqb_refl. reflexivity.
      * destruct (find_pos cols c); [reflexivity|].
        destruct (Nat.eqb_spec c jfit); [congruence|reflexivity].
Qed.

Lemma remap_rows_spec n (M slot : matrix) rows cols :
  square n slot ->
  NoDup (map snd rows) -> NoDup (map snd cols) ->
  (forall ii ifit, (ii, ifit) ∈ rows -> ifit < n) ->
  (forall ii ifit jj jfit, (ii, ifit) ∈ rows -> (jj, jfit) ∈ cols ->
     jfit < n /\ getitem2 M ii jj = Ok (mat_at M ii jj)) ->
  exists slot',
    remap_rows M slot rows cols = Ok slot' /\ square n slot' /\
    forall r c, mat_at slot' r c
                = match find_pos rows r, find_pos cols c with
                  | Some p, Some q => mat_at M (fst p) (fst q)
                  | _, _ => mat_at slot r c
                  end.
Proof.
  intros HS Hndr Hndc. revert slot HS Hndr.
  induction rows as [|[ii ifit] rows IH]; intros slot HS Hndr Hrows Hcols.
  - exists slot. split; [reflexivity|]. split; [exact HS|]. reflexivity.
  - apply NoDup_cons in Hndr as [Hnot Hndr].
    destruct (remap_row_spec n M slot ii ifit cols HS) as (slot1 & Hrow & HS1 & Hat1).
    { apply (Hrows ii). left. }
    { exact Hndc. }
    { intros jj jfit Hin. apply (Hcols ii ifit); [left | exact Hin]. }
    destruct (IH slot1 HS1 Hndr) as (slot' & Hrest & HS' & Hat').
    { intros ii' ifit' Hin. apply (Hrows ii'). right. exact Hin. }
    { intros ii' ifit' jj jfit Hin Hin'. apply (Hcols ii' ifit'); [right|]; assumption. }
    exists slot'. split; [|split; [exact HS'|]].
    + simpl. rewrite Hrow. simpl. exact Hrest.
    + intros r c. rewrite Hat'. unfold find_pos at 3. simpl.
      fold (find_pos rows r). rewrite !Hat1.
      destruct (Nat.eqb_spec ifit r) as [->|Hr].
      * rewrite find_pos_None by exact Hnot. rewrite Nat.eqb_refl.
        destruct (find_pos cols c); reflexivity.
      * destruct (Nat.eqb_spec r ifit); [congruence|].
        destruct (find_pos rows r), (find_pos cols c); reflexivity.
Qed.

Lemma snd_enumerate {A : Type} (l : list A) : map snd (enumerate l) = l.
Proof.
  unfold enumerate. generalize 0.
  induction l as [|a l IH]; intros k; simpl; [reflexivity|].
  f_equal. apply IH.
Qed.

Lemma enumerate_lookup {A : Type} (l : list A) (i : nat) (a : A) :
  (i, a) ∈ enumerate l -> l !! i = Some a.
Proof.
  unfold enumerate. intros Hin.
  assert (H : forall k, (i, a) ∈ combine (seq k (length l)) l ->
                        k <= i /\ l !! (i - k) = Some a).
  { clear Hin. induction l as [|b l IH]; intros k; simpl; intros Hin.
    - inversion Hin.
    - apply elem_of_cons in Hin as [[= -> ->]|Hin].
      + split; [lia|]. replace (k - k) with 0 by lia. reflexivity.
      + apply IH in Hin as [Hle Hl]. split; [lia|].
        replace (i - k) with (S (i - S k)) by lia. exact Hl. }
  apply H in Hin as [_ Hl]. rewrite Nat.sub_0_r in Hl. exact Hl.
Qed.

Lemma where_from_ge k (fit_flags : list bool) x :
  x ∈ where_from k fit_flags -> k <= x.
Proof.
  revert k. induction fit_flags as [|b l IH]; intros k; simpl; intros Hin.
  - inversion Hin.
  - destruct b.
    + apply elem_of_cons in Hin as [->|Hin]; [lia|]. apply IH in Hin. lia.
    + apply IH in Hin. lia.
Qed.

Lemma where_from_NoDup k (fit_flags : list bool) : NoDup (where_from k fit_flags).
Proof.
  revert k. induction fit_flags as [|b l IH]; intros k; simpl.
  - constructor.
  - destruct b; [|apply IH]. constructor; [|apply IH].
    intros Hin. apply where_from_ge in Hin. lia.
Qed.

Lemma zeros_square n : square n (zeros n n).
Proof.
  unfold zeros, square. rewrite length_replicate. split; [reflexivity|].
  apply Forall_replicate. apply length_replicate.
Qed.

Lemma mat_at_zeros n m r c : mat_at (zeros n m) r c = 0%R.
Proof.
  unfold mat_at, zeros. rewrite !nth_lookup.
  destruct (replicate n (replicate m 0%R) !! r) as [row|] eqn:Hrow; simpl.
  - apply lookup_replicate_1 in Hrow as [-> _].
    destruct (replicate m 0%R !! c) as [x|] eqn:Hx; simpl; [|reflexivity].
    apply lookup_replicate_1 in Hx as [-> _]. reflexivity.
  - reflexivity.
Qed.

Lemma matrix_ext n (A B : matrix) :
  square n A -> square n B ->
  (forall r c, r < n -> c < n -> mat_at A r c = mat_at B r c) -> A = B.
Proof.
  intros [HlA HrA] [HlB HrB] Hat.
  apply (nth_ext _ _ [] []); [congruence|].
  intros r Hr. rewrite HlA in Hr.
  assert (HA : length (nth r A []) = n).
  { rewrite Forall_forall in HrA. apply HrA. apply list_elem_of_In.
    apply nth_In. lia. }
  assert (HB : length (nth r B []) = n).
  { rewrite Forall_forall in HrB. apply HrB. apply list_elem_of_In.
    apply nth_In. lia. }
  apply (nth_ext _ _ 0%R 0%R); [congruence|].
  intros c Hc. rewrite HA in Hc. apply Hat; assumption.
Qed.

Lemma nth_map_seq {A : Type} (f : nat -> A) n i d :
  i < n -> nth i (map f (seq 0 n)) d = f i.
Proof.
  intros Hi. rewrite (nth_indep _ d (f 0)) by (rewrite length_map, length_seq; exact Hi).
  rewrite (map_nth f (seq 0 n) 0 i). rewrite seq_nth by exact Hi. reflexivity.
Qed.

Lemma map_seq_square (f : nat -> nat -> R) n :
  square n (map (fun r => map (fun c => f r c) (seq 0 n)) (seq 0 n)).
Proof.
  split.
  - rewrite length_map, length_seq. reflexivity.
  - apply Forall_forall. intros row Hin. apply list_elem_of_In, in_map_iff in Hin
      as (r & <- & _). rewrite length_map, length_seq. reflexivity.
Qed.

Lemma mat_at_map_seq (f : nat -> nat -> R) n r c :
  r < n -> c < n ->
  mat_at (map (fun r => map (fun c => f r c) (seq 0 n)) (seq 0 n)) r c = f r c.
Proof.
  intros Hr Hc. unfold mat_at.
  rewrite (nth_map_seq (fun r => map (fun c => f r c) (seq 0 n))) by exact Hr.
  apply (nth_map_seq (f r)). exact Hc.
Qed.

Lemma where_from_length k (fit_flags : list bool) :
  length (where_from k fit_flags) = count_free fit_flags.
Proof.
  revert k. induction fit_flags as [|b l IH]; intros k; simpl; [reflexivity|].
  destruct b; simpl; rewrite IH; reflexivity.
Qed.

Lemma np_where_length (fit_flags : list bool) :
  length (np_where fit_flags) = count_free fit_flags.
Proof. apply where_from_length. Qed.

Lemma where_from_elem k (fit_flags : list bool) pos :
  pos ∈ where_from k fit_flags <-> k <= pos /\ is_free fit_flags (pos - k) = true.
Proof.
  unfold is_free. revert k. induction fit_flags as [|b l IH]; intros k; simpl.
  - split; [intros H; inversion H|]. intros [_ H]. destruct (pos - k); discriminate.
  - assert (Hrest : pos ∈ where_from (S k) l <->
                    S k <= pos /\ nth (pos - S k) l false = true) by apply IH.
    destruct (Nat.eq_dec pos k) as [->|Hne].
    + replace (k - k) with 0 by lia.
      destruct b.
      * split; [intros _; split; [lia | reflexivity] | intros _; left].
      * rewrite Hrest. split; [intros [H _]; lia | intros [_ H]; discriminate].
    + assert (Hnth : match pos - k with
                     | 0 => b
                     | S m => nth m l false
                     end = nth (pos - S k) l false \/ pos < k).
      { destruct (le_lt_dec k pos) as [Hle|Hlt]; [left | right; exact Hlt].
        replace (pos - k) with (S (pos - S k)) by lia. reflexivity. }
      destruct b.
      * rewrite elem_of_cons, Hrest.
        split.
        -- intros [->|[Hle Hn]]; [contradiction|]. split; [lia|].
           destruct Hnth as [->|Hlt]; [exact Hn | lia].
        -- intros [Hle Hn]. right. split; [lia|].
           destruct Hnth as [<-|Hlt]; [exact Hn | lia].
      * rewrite Hrest. split.
        -- intros [Hle Hn]. split; [lia|].
           destruct Hnth as [->|Hlt]; [exact Hn | lia].
        -- intros [Hle Hn]. split; [lia|].
           destruct Hnth as [<-|Hlt]; [exact Hn | lia].
Qed.

Lemma np_where_elem (fit_flags : list bool) pos :
  pos ∈ np_where fit_flags <-> is_free fit_flags pos = true.
Proof.
  unfold np_where. rewrite where_from_elem, Nat.sub_0_r.
  split; [intros [_ H]; exact H | intros H; split; [lia | exact H]].
Qed.

Lemma find_none_snd (entries : list (nat * nat)) pos :
  pos ∉ map snd entries -> find (fun p => snd p =? pos) entries = None.
Proof.
  induction entries as [|[i p] entries IH]; simpl; [reflexivity|].
  intros Hnot. apply not_elem_of_cons in Hnot as [Hne Hnot].
  destruct (Nat.eqb_spec p pos) as [->|_]; [contradiction | apply IH; exact Hnot].
Qed.

Lemma combine_seq_snd {A : Type} (l : list A) s :
  map snd (combine (seq s (length l)) l) = l.
Proof.
  revert s. induction l as [|a l IH]; intros s; simpl; [reflexivity|].
  f_equal. apply IH.
Qed.

Lemma find_where_from (fit_flags : list bool) pos : forall k s,
  k <= pos ->
  find (fun p => snd p =? pos)
       (combine (seq s (length (where_from k fit_flags))) (where_from k fit_flags))
  = if is_free fit_flags (pos - k)
    then Some (s + free_rank fit_flags (pos - k), pos)
    else None.
Proof.
  unfold is_free, free_rank.
  induction fit_flags as [|b l IH]; intros k s Hk.
  - simpl. destruct (pos - k); reflexivity.
  - destruct (Nat.eq_dec pos k) as [->|Hne].
    + replace (k - k) with 0 by lia. simpl. destruct b; simpl.
      * rewrite Nat.eqb_refl, Nat.add_0_r. reflexivity.
      * apply find_none_snd. rewrite combine_seq_snd.
        intros Hin. apply where_from_ge in Hin. lia.
    + replace (pos - k) with (S (pos - S k)) by lia. simpl.
      destruct b; simpl.
      * destruct (Nat.eqb_spec k pos) as [->|_]; [contradiction|].
        rewrite (IH (S k) (S s)) by lia.
        destruct (nth (pos - S k) l false); [|reflexivity].
        f_equal. f_equal. lia.
      * rewrite (IH (S k) s) by lia. reflexivity.
Qed.

Lemma find_pos_free (fit_flags : list bool) pos :
  find_pos (enumerate (np_where fit_flags)) pos
  = if is_free fit_flags pos then Some (free_rank fit_flags pos, pos) else None.
Proof.
  unfold find_pos, enumerate, np_where.
  rewrite (find_where_from fit_flags pos 0 0) by lia.
  rewrite Nat.sub_0_r. reflexivity.
Qed.

(** The remapping loop computes the specification's slot, for any slot
    size that holds the positions of the free parameters. *)
Lemma remap_covariance_spec nfit (fit_flags : list bool) (M : matrix) :
  square (count_free fit_flags) M ->
  (forall pos, is_free fit_flags pos = true -> pos < nfit) ->
  remap_covariance fit_flags M (zeros nfit nfit) = Ok (spec_remap nfit fit_flags M).
Proof.
  intros HM Hpos. rewrite <- np_where_length in HM.
  assert (Hpos' : forall pos, pos ∈ np_where fit_flags -> pos < nfit)
    by (intros pos Hin; apply Hpos, np_where_elem, Hin).
  clear Hpos. unfold remap_covariance.
  set (free := enumerate (np_where fit_flags)).
  assert (Hnd : NoDup (map snd free)).
  { unfold free. rewrite snd_enumerate. apply where_from_NoDup. }
  assert (Hin : forall ii ifit, (ii, ifit) ∈ free ->
                  ifit < nfit /\ ii < length (np_where fit_flags)).
  { intros ii ifit H. apply enumerate_lookup in H. split.
    - apply Hpos'. apply list_elem_of_lookup. eauto.
    - apply lookup_lt_Some in H. exact H. }
  destruct (remap_rows_spec nfit M (zeros nfit nfit) free free
              (zeros_square nfit) Hnd Hnd) as (slot' & Hrun & HS' & Hat).
  { intros ii ifit H. apply (Hin ii ifit H). }
  { intros ii ifit jj jfit H H'. destruct (Hin _ _ H), (Hin _ _ H').
    split; [assumption|]. eapply getitem2_square; eassumption. }
  rewrite Hrun. f_equal. apply (matrix_ext nfit); [exact HS'| apply map_seq_square |].
  intros r c Hr Hc. rewrite Hat. unfold spec_remap.
  rewrite (mat_at_map_seq
             (fun r c => if is_free fit_flags r && is_free fit_flags c
                         then mat_at M (free_rank fit_flags r) (free_rank fit_flags c)
                         else 0%R)) by assumption.
  unfold free. rewrite !find_pos_free.
  destruct (is_free fit_flags r), (is_free fit_flags c); simpl;
    try reflexivity; apply mat_at_zeros.
Qed.

Lemma assign_broadcast_mismatch n k (M : matrix) :
  square k M -> k <> n -> k <> 1 -> assign_broadcast n M = Raise ValueError.
Proof.
  intros [Hlen _] Hn H1. unfold assign_broadcast, shape. rewrite Hlen.
  destruct (Nat.eqb_spec k n); [contradiction|].
  destruct (Nat.eqb_spec k 1); [contradiction|]. reflexivity.
Qed.

Lemma assign_broadcast_same n (M : matrix) :
  square n M -> assign_broadcast n M = Ok M.
Proof.
  intros HM. assert (HM' := HM). destruct HM' as [Hlen Hrows].
  unfold assign_broadcast, shape. rewrite Hlen, Nat.eqb_refl. simpl.
  assert (Hb : match M with [] => 0 | row :: _ => length row end = n).
  { destruct M as [|row M]; [exact Hlen|].
    apply Forall_cons in Hrows as [Hrow _]. exact Hrow. }
  rewrite Hb, Nat.eqb_refl. simpl. f_equal.
  apply (matrix_ext n); [apply (map_seq_square (fun i j => nth j (nth i M []) 0%R)) | exact HM |].
  intros r c Hr Hc.
  apply (mat_at_map_seq (fun i j => nth j (nth i M []) 0%R)); assumption.
Qed.

Lemma foldM_app {A B : Type} (f : A -> B -> result A) (a : A) (l1 l2 : list B) :
  foldM f a (l1 ++ l2) = rbind (foldM f a l1) (fun a' => foldM f a' l2).
Proof.
  revert a. induction l1 as [|b l1 IH]; intros a; simpl; [reflexivity|].
  destruct (f a b); simpl; [apply IH | reflexivity].
Qed.

Lemma rbind_Raise {A B : Type} (m : result A) (k : A -> result B) (e : exn) :
  rbind m k = Raise e -> m = Raise e \/ exists a, m = Ok a /\ k a = Raise e.
Proof. destruct m as [a|e']; simpl; [eauto | intros [= <-]; auto]. Qed.

Lemma getitem_Raise {A : Type} (l : list A) i e :
  getitem l i = Raise e -> e = IndexError.
Proof. unfold getitem. destruct (l !! i); [discriminate | intros [= <-]; reflexivity]. Qed.

Lemma setitem_Raise {A : Type} (l : list A) i a e :
  setitem l i a = Raise e -> e = IndexError.
Proof. unfold setitem. destruct (i <? length l); [discriminate | intros [= <-]; reflexivity]. Qed.

Lemma getitem2_Raise (M : matrix) i j e : getitem2 M i j = Raise e -> e = IndexError.
Proof.
  unfold getitem2. intros H. apply rbind_Raise in H as [H|(row & _ & H)];
    eapply getitem_Raise; exact H.
Qed.

Lemma setitem2_Raise (slot : matrix) i j v e :
  setitem2 slot i j v = Raise e -> e = IndexError.
Proof.
  unfold setitem2. intros H.
  apply rbind_Raise in H as [H|(row & _ & H)]; [eapply getitem_Raise; exact H|].
  apply rbind_Raise in H as [H|(row' & _ & H)]; eapply setitem_Raise; exact H.
Qed.

Lemma remap_row_Raise M cols : forall slot ii ifit e,
  remap_row M slot ii ifit cols = Raise e -> e = IndexError.
Proof.
  induction cols as [|[jj jfit] rest IH]; intros slot ii ifit e; simpl; [discriminate|].
  intros H. apply rbind_Raise in H as [H|(v & _ & H)]; [eapply getitem2_Raise; exact H|].
  apply rbind_Raise in H as [H|(slot' & _ & H)]; [eapply setitem2_Raise; exact H|].
  eapply IH; exact H.
Qed.

Lemma remap_rows_Raise M cols rows : forall slot e,
  remap_rows M slot rows cols = Raise e -> e = IndexError.
Proof.
  induction rows as [|[ii ifit] rest IH]; intros slot e; simpl; [discriminate|].
  intros H. apply rbind_Raise in H as [H|(slot' & _ & H)]; [eapply remap_row_Raise; exact H|].
  eapply IH; exact H.
Qed.

Lemma setitem2_Ok_bound n (slot : matrix) i j v slot' :
  square n slot -> setitem2 slot i j v = Ok slot' ->
  i < n /\ j < n /\ square n slot'.
Proof.
  intros Hsq H.
  assert (Hb : i < n /\ j < n).
  { unfold setitem2 in H.
    apply rbind_Ok in H as (row & Hrow & H).
    apply rbind_Ok in H as (row' & Hrow' & _).
    apply getitem_Ok in Hrow. apply setitem_Ok in Hrow' as [Hj _].
    destruct Hsq as [Hlen Hall].
    split; [rewrite <- Hlen; eapply lookup_lt_Some; exact Hrow|].
    rewrite Forall_forall in Hall.
    rewrite <- (Hall row); [exact Hj|].
    eapply list_elem_of_lookup_2. exact Hrow. }
  destruct Hb as [Hi Hj]. split; [exact Hi|]. split; [exact Hj|].
  destruct (setitem2_spec n slot i j v Hsq Hi Hj) as (slot'' & Hs & Hsq'' & _).
  rewrite H in Hs. injection Hs as <-. exact Hsq''.
Qed.

Lemma remap_row_Ok_bound n M cols : forall slot ii ifit slot',
  square n slot -> remap_row M slot ii ifit cols = Ok slot' ->
  square n slot' /\
  forall jj jfit, (jj, jfit) ∈ cols -> ifit < n /\ jfit < n.
Proof.
  induction cols as [|[jj0 jfit0] rest IH]; intros slot ii ifit slot' Hsq; simpl.
  - intros [= <-]. split; [exact Hsq|]. intros jj jfit Hin. inversion Hin.
  - intros H. apply rbind_Ok in H as (v & _ & H).
    apply rbind_Ok in H as (slot1 & Hset & H).
    apply (setitem2_Ok_bound n) in Hset as (Hi & Hj & Hsq1); [|exact Hsq].
    apply IH in H as [Hsq' Hrest]; [|exact Hsq1].
    split; [exact Hsq'|]. intros jj jfit Hin.
    apply elem_of_cons in Hin as [[= -> ->]|Hin]; [auto | eapply Hrest; exact Hin].
Qed.

Lemma remap_rows_Ok_bound n M cols rows : forall slot slot',
  square n slot -> remap_rows M slot rows cols = Ok slot' ->
  square n slot' /\
  forall ii ifit jj jfit, (ii, ifit) ∈ rows -> (jj, jfit) ∈ cols -> ifit < n /\ jfit < n.
Proof.
  induction rows as [|[ii0 ifit0] rest IH]; intros slot slot' Hsq; simpl.
  - intros [= <-]. split; [exact Hsq|]. intros ii ifit jj jfit Hin. inversion Hin.
  - intros H. apply rbind_Ok in H as (slot1 & Hrow & H).
    apply (remap_row_Ok_bound n) in Hrow as [Hsq1 Hb]; [|exact Hsq].
    apply IH in H as [Hsq' Hrest]; [|exact Hsq1].
    split; [exact Hsq'|]. intros ii ifit jj jfit Hin Hjn.
    apply elem_of_cons in Hin as [[= -> ->]|Hin];
      [eapply Hb; exact Hjn | eapply Hrest; eassumption].
Qed.

Lemma elem_of_enumerate {A : Type} (l : list A) (a : A) :
  a ∈ l -> exists i, (i, a) ∈ enumerate l.
Proof.
  intros Hin. rewrite <- (snd_enumerate l) in Hin.
  change (map snd (enumerate l)) with (snd <$> enumerate l) in Hin.
  apply list_elem_of_fmap in Hin as ([i a'] & -> & Hin). exists i. exact Hin.
Qed.

Lemma remap_covariance_out_of_range nfit (fit_flags : list bool) (M : matrix) pos :
  pos ∈ np_where fit_flags -> nfit <= pos ->
  remap_covariance fit_flags M (zeros nfit nfit) = Raise IndexError.
Proof.
  intros Hin Hpos. unfold remap_covariance.
  destruct (remap_rows M (zeros nfit nfit) (enumerate (np_where fit_flags))
              (enumerate (np_where fit_flags))) as [slot'|e] eqn:Hrun.
  - exfalso. apply (remap_rows_Ok_bound nfit) in Hrun as [_ Hb]; [|apply zeros_square].
    destruct (elem_of_enumerate _ _ Hin) as [i Hi].
    destruct (Hb i pos i pos Hi Hi) as [Hlt _]. lia.
  - apply remap_rows_Raise in Hrun. rewrite Hrun. reflexivity.
Qed.

Lemma pbind_emit {A : Type} (e : event) (k : unit -> prog A) :
  pbind (emit e) k = (e :: fst (k tt), snd (k tt)).
Proof. unfold pbind, emit. destruct (k tt). reflexivity. Qed.

Lemma get_TOAs_loop_cons load fit o fit_flags gt f rest :
  get_TOAs_loop load fit o fit_flags gt (f :: rest)
  = pbind (emit (LoadData f)) (fun _ =>
      if usable load f then
        match load f with
        | Loaded d =>
            match process_archive fit o (self_modelfile gt) fit_flags
                    (self_TOA_list gt) d with
            | Raise e => ([], Raises e)
            | Ok (fit_flags', toas, summary) =>
                get_TOAs_loop load fit o fit_flags'
                  {| self_datafiles := self_datafiles gt;
                     self_modelfile := self_modelfile gt;
                     self_quiet := self_quiet gt;
                     self_TOA_list := toas;
                     self_DeltaDM_means :=
                       self_DeltaDM_means gt ++ [DeltaDM_mean summary];
                     self_DeltaDM_errs :=
                       self_DeltaDM_errs gt ++ [DeltaDM_err summary] |}
                  rest
            end
        | _ => get_TOAs_loop load fit o fit_flags gt rest
        end
      else get_TOAs_loop load fit o fit_flags gt rest).
Proof.
  simpl. unfold usable. f_equal.
  destruct (load f) as [| |d]; try reflexivity.
  destruct (length (ok_subints d) =? 0); reflexivity.
Qed.

Lemma setitem_lt {A : Type} (l : list A) i a :
  i < length l -> setitem l i a = Ok (<[i := a]> l).
Proof.
  intros Hi. unfold setitem. destruct (Nat.ltb_spec i (length l)); [reflexivity | lia].
Qed.

Lemma process_subint_lengths fit o modelfile d st s st' :
  process_subint fit o modelfile d st s = Ok st' ->
  same_lengths (arrs st) (arrs st').
Proof.
  unfold process_subint. intros H.
  apply rbind_Ok in H as (ff & _ & H).
  apply rbind_Ok in H as ([r' df] & _ & H).
  apply rbind_Ok in H as (a1 & H1 & H). apply setitem_Ok in H1 as [_ ->].
  apply rbind_Ok in H as (a2 & H2 & H). apply setitem_Ok in H2 as [_ ->].
  apply rbind_Ok in H as (a3 & H3 & H). apply setitem_Ok in H3 as [_ ->].
  apply rbind_Ok in H as (a4 & H4 & H). apply setitem_Ok in H4 as [_ ->].
  apply rbind_Ok in H as (a5 & H5 & H). apply setitem_Ok in H5 as [_ ->].
  apply rbind_Ok in H as (a6 & H6 & H). apply setitem_Ok in H6 as [_ ->].
  apply rbind_Ok in H as (cov & _ & H).
  apply rbind_Ok in H as (a7 & H7 & H). apply setitem_Ok in H7 as [_ ->].
  apply rbind_Ok in H as (f1 & _ & H).
  apply rbind_Ok in H as (flags & _ & H).
  injection H as <-. unfold same_lengths. simpl.
  rewrite !length_insert. repeat split.
Qed.

Lemma subint_loop_lengths fit o modelfile d subs : forall st st',
  foldM (process_subint fit o modelfile d) st subs = Ok st' ->
  same_lengths (arrs st) (arrs st').
Proof.
  induction subs as [|s subs IH]; intros st st' H; simpl in H.
  - injection H as <-. unfold same_lengths. repeat split.
  - apply rbind_Ok in H as (st1 & Hs & H).
    apply process_subint_lengths in Hs. apply IH in H.
    unfold same_lengths in *.
    destruct Hs as (?&?&?&?&?&?&?), H as (?&?&?&?&?&?&?).
    repeat split; congruence.
Qed.

(** A failure of the covariance store of one subintegration is the outcome
    of the subintegration. *)
Lemma process_subint_covariance_raises fit o modelfile d st s ff r' df e :
  select_fit_flags o (local_fit_flags st) (length (freqsx s)) = Ok ff ->
  doppler_correction (bary o) ff (doppler_factor s) (fit o s ff) = Ok (r', df) ->
  same_lengths (init_arrays o d) (arrs st) ->
  isub s < nsub d ->
  store_covariance (self_nfit o) ff (covariance_matrix r') = Raise e ->
  process_subint fit o modelfile d st s = Raise e.
Proof.
  intros Hff Hdop Hlen Hi Hcov.
  destruct Hlen as (H1 & H2 & H3 & H4 & H5 & H6 & _).
  simpl in H1, H2, H3, H4, H5, H6. rewrite length_replicate in *.
  unfold process_subint. rewrite Hff. cbn [rbind]. rewrite Hdop. cbn [rbind].
  rewrite !setitem_lt by lia. cbn [rbind].
  rewrite Hcov. reflexivity.
Qed.

Lemma get_TOAs_loop_unusable load fit o fit_flags gt pre l :
  Forall (fun g => usable load g = false) pre ->
  get_TOAs_loop load fit o fit_flags gt (pre ++ l)
  = (map LoadData pre ++ fst (get_TOAs_loop load fit o fit_flags gt l),
     snd (get_TOAs_loop load fit o fit_flags gt l)).
Proof.
  induction 1 as [|g pre Hg _ IH]; simpl app.
  - simpl. destruct (get_TOAs_loop load fit o fit_flags gt l). reflexivity.
  - rewrite get_TOAs_loop_cons, pbind_emit, Hg, IH. reflexivity.
Qed.

Lemma get_TOAs_loop_raises load fit o fit_flags gt f rest d e :
  load f = Loaded d -> ok_subints d <> [] ->
  process_archive fit o (self_modelfile gt) fit_flags (self_TOA_list gt) d = Raise e ->
  get_TOAs_loop load fit o fit_flags gt (f :: rest) = ([LoadData f], Raises e).
Proof.
  intros Hload Hne Harch. simpl. rewrite Hload.
  destruct (Nat.eqb_spec (length (ok_subints d)) 0) as [Hz|_].
  - destruct (ok_subints d); [congruence | discriminate].
  - rewrite Harch. reflexivity.
Qed.




(** ** Archive-level DM aggregation *)

Lemma take_indices_map {A B : Type} (f : A -> B) (a : list A) idx xs :
  take_indices a idx = Ok xs -> take_indices (map f a) idx = Ok (map f xs).
Proof.
  revert xs. induction idx as [|i idx IH]; intros xs; simpl.
  - intros [= <-]. reflexivity.
  - intros H. apply rbind_Ok in H as (x & Hx & H).
    apply rbind_Ok in H as (xs' & Hxs & H). injection H as <-.
    apply getitem_Ok in Hx.
    assert (Hg : getitem (map f a) i = Ok (f x)).
    { unfold getitem. change (map f a) with (f <$> a).
      rewrite list_lookup_fmap, Hx. reflexivity. }
    rewrite Hg. simpl. rewrite (IH _ Hxs). reflexivity.
Qed.

Lemma take_indices_length {A : Type} (a : list A) idx xs :
  take_indices a idx = Ok xs -> length xs = length idx.
Proof.
  revert xs. induction idx as [|i idx IH]; intros xs; simpl.
  - intros [= <-]. reflexivity.
  - intros H. apply rbind_Ok in H as (x & _ & H).
    apply rbind_Ok in H as (xs' & Hxs & H). injection H as <-.
    simpl. f_equal. apply IH. exact Hxs.
Qed.

Lemma np_all_true (l : list R) : np_all l = true -> Forall (fun x => x <> 0%R) l.
Proof.
  unfold np_all. induction l as [|x l IH]; simpl; intros H; constructor.
  - destruct (Req_dec_T x 0); [discriminate|assumption].
  - apply IH. destruct (Req_dec_T x 0); [discriminate|exact H].
Qed.

Lemma np_all_false (l : list R) : np_all l = false -> ~ Forall (fun x => x <> 0%R) l.
Proof.
  unfold np_all. induction l as [|x l IH]; simpl; [discriminate|].
  intros H Hall. apply Forall_cons in Hall as [Hx Hall].
  destruct (Req_dec_T x 0); [contradiction|]. exact (IH H Hall).
Qed.

Lemma code_weights_spec (errs : list R) :
  (if np_all errs then map (fun e => powerRZ e (-2)) errs
   else replicate (length errs) 1%R) = spec_weights errs.
Proof.
  unfold spec_weights.
  destruct (np_all errs) eqn:Hall, (all_nonzero_dec errs) as [Hnz|Hz].
  - apply map_ext. intros e. simpl. rewrite Rmult_1_r. reflexivity.
  - exfalso. apply Hz, np_all_true, Hall.
  - exfalso. exact (np_all_false _ Hall Hnz).
  - clear. induction errs as [|e errs IH]; simpl; [reflexivity|]. f_equal. exact IH.
Qed.

Lemma spec_weights_pos (errs : list R) :
  Forall (fun w => (0 < w)%R) (spec_weights errs).
Proof.
  unfold spec_weights. destruct (all_nonzero_dec errs) as [Hall|_].
  - induction Hall as [|e errs He _ IH]; simpl; constructor; [|exact IH].
    apply Rinv_0_lt_compat. nra.
  - induction errs; simpl; constructor; [lra|assumption].
Qed.

Lemma spec_weights_length (errs : list R) :
  length (spec_weights errs) = length errs.
Proof. unfold spec_weights. destruct (all_nonzero_dec errs); apply length_map. Qed.

Lemma Rsum_pos (l : list R) :
  l <> [] -> Forall (fun w => (0 < w)%R) l -> (0 < Rsum l)%R.
Proof.
  intros Hne Hpos. destruct Hpos as [|w l Hw Hl]; [contradiction|]. simpl.
  assert (0 <= Rsum l)%R; [|lra].
  clear Hne Hw. induction Hl as [|w' l Hw' _ IH]; simpl; lra.
Qed.

Lemma Rsum_sq_nonneg (mean : R) (xs ws : list R) :
  Forall (fun w => (0 < w)%R) ws ->
  (0 <= Rsum (zip_with (fun x w => (x - mean) * (x - mean) * w) xs ws))%R.
Proof.
  intros Hw. revert xs. induction Hw as [|w ws Hw _ IH]; intros [|x xs]; simpl;
    try lra.
  specialize (IH xs).
  assert (0 <= (x - mean) * (x - mean) * w)%R
    by (apply Rmult_le_pos; [apply Rle_0_sqr | lra]).
  lra.
Qed.

Lemma zip_with_sq (mean : R) (xs ws : list R) :
  zip_with Rmult (map (fun x => ((x - mean) ^ 2)%R) xs) ws
  = zip_with (fun x w => ((x - mean) * (x - mean) * w)%R) xs ws.
Proof.
  revert ws. induction xs as [|x xs IH]; intros [|w ws]; simpl; try reflexivity.
  rewrite IH. f_equal. ring.
Qed.

Lemma powerRZ_minus_1 (x : R) : powerRZ x (-1) = (/ x)%R.
Proof. simpl. rewrite Rmult_1_r. reflexivity. Qed.

Lemma take_indices_map_inv {A B : Type} (f : A -> B) (a : list A) idx ys :
  take_indices (map f a) idx = Ok ys ->
  exists xs, take_indices a idx = Ok xs /\ ys = map f xs.
Proof.
  revert ys. induction idx as [|i idx IH]; intros ys; simpl.
  - intros [= <-]. exists []. split; reflexivity.
  - intros H. apply rbind_Ok in H as (y & Hy & H).
    apply rbind_Ok in H as (ys' & Hys & H). injection H as <-.
    apply getitem_Ok in Hy. change (map f a) with (f <$> a) in Hy.
    rewrite list_lookup_fmap in Hy.
    destruct (a !! i) as [x|] eqn:Hx; [|discriminate]. injection Hy as <-.
    destruct (IH _ Hys) as (xs & Hxs & ->).
    exists (x :: xs). unfold getitem. rewrite Hx. simpl. rewrite Hxs.
    split; reflexivity.
Qed.

Lemma aggregate_DM_empty (DM0 : R) (DMs DM_errs : list R) :
  aggregate_DM DM0 DMs DM_errs [] = Raise ZeroDivisionError.
Proof.
  unfold aggregate_DM. simpl. unfold np_average. simpl.
  destruct (Req_dec_T 0 0) as [_|H]; [reflexivity | contradiction].
Qed.

(** The aggregation of lines 713-729 on its own: the closed form of its
    result. *)
Lemma aggregate_DM_spec
    (DM0 : R) (DMs DM_errs : list R) (ok_isubs : list nat) (dms errs : list R) :
  ok_isubs <> [] ->
  take_indices DMs ok_isubs = Ok dms ->
  take_indices DM_errs ok_isubs = Ok errs ->
  exists mean err,
    aggregate_DM DM0 DMs DM_errs ok_isubs = Ok (mean, err) /\
    let xs := map (fun x => (x - DM0)%R) dms in
    let ws := spec_weights errs in
    mean = spec_weighted_mean xs ws /\
    (1 < length ok_isubs -> (err * err)%R = spec_inflated_variance xs ws) /\
    (length ok_isubs = 1 -> (err * err)%R = (/ Rsum ws)%R).
Proof.
  intros Hne Hdms Herrs.
  assert (Hlen_e := take_indices_length _ _ _ Herrs).
  assert (Hlen_d := take_indices_length _ _ _ Hdms).
  assert (Hsum : (0 < Rsum (spec_weights errs))%R).
  { apply Rsum_pos; [|apply spec_weights_pos].
    intros Hnil. apply (f_equal length) in Hnil.
    rewrite spec_weights_length, Hlen_e in Hnil. destruct ok_isubs; [congruence|discriminate]. }
  unfold aggregate_DM. rewrite Herrs. cbn [rbind].
  rewrite (take_indices_map (fun x => (x - DM0)%R) _ _ _ Hdms). cbn [rbind].
  rewrite code_weights_spec. unfold np_average.
  destruct (Req_dec_T (Rsum (spec_weights errs)) 0) as [Hz|_]; [lra|].
  cbn [rbind].
  set (xs := map (fun x => (x - DM0)%R) dms).
  set (ws := spec_weights errs). fold ws in Hsum.
  eexists _, _. split; [reflexivity|].
  split; [reflexivity|].
  assert (Hinv : (0 < / Rsum ws)%R) by (apply Rinv_0_lt_compat; exact Hsum).
  rewrite powerRZ_minus_1.
  split.
  - intros Hn. destruct (Nat.ltb_spec 1 (length ok_isubs)); [|lia].
    unfold spec_inflated_variance. fold (spec_weighted_mean xs ws).
    rewrite zip_with_sq.
    assert (Hlx : length xs = length ok_isubs)
      by (unfold xs; rewrite length_map; exact Hlen_d).
    rewrite Hlx. rewrite minus_INR by lia. simpl (INR 1).
    apply sqrt_sqrt.
    assert (Hden : (0 < INR (length ok_isubs) - 1)%R).
    { apply lt_INR in Hn. simpl in Hn. lra. }
    assert (Hnum := Rsum_sq_nonneg (spec_weighted_mean xs ws) xs ws
                      (spec_weights_pos errs)).
    apply Rmult_le_pos; [lra|].
    apply Rmult_le_pos; [exact Hnum|].
    apply Rlt_le, Rinv_0_lt_compat. exact Hden.
  - intros Hn. destruct (Nat.ltb_spec 1 (length ok_isubs)); [lia|].
    apply sqrt_sqrt. lra.
Qed.

(** C4.  For every archive that is processed to the end, [DeltaDM_mean] is
    the weighted mean of [DM_i - DM0] over the good subintegrations, the
    [DM_i] and their uncertainties being the values stored for them, with
    weights [DM_err_i^-2] when every uncertainty is nonzero and uniform
    weights otherwise; with more than one good subintegration the square of
    [DeltaDM_err] is [(sum w)^-1] times
    [sum ((DeltaDM_i - mean)^2 w_i) / (n - 1)], and with one it is
    [(sum w)^-1]. *)
Theorem C4_weighted_mean_and_inflated_variance
    fit o modelfile fit_flags toas d fit_flags' toas' summary :
  process_archive fit o modelfile fit_flags toas d
  = Ok (fit_flags', toas', summary) ->
  exists st dms errs,
    foldM (process_subint fit o modelfile d)
      {| local_fit_flags := fit_flags; arrs := init_arrays o d;
         TOA_list := toas |} (ok_subints d) = Ok st /\
    sum_arrays summary = arrs st /\
    take_indices (DMs (arrs st)) (map isub (ok_subints d)) = Ok dms /\
    take_indices (DM_errs (arrs st)) (map isub (ok_subints d)) = Ok errs /\
    let xs := map (fun x => (x - archive_DM0 o d)%R) dms in
    let ws := spec_weights errs in
    let n := length (ok_subints d) in
    DeltaDM_mean summary = spec_weighted_mean xs ws /\
    (1 < n ->
     (DeltaDM_err summary * DeltaDM_err summary)%R = spec_inflated_variance xs ws) /\
    (n = 1 ->
     (DeltaDM_err summary * DeltaDM_err summary)%R = (/ Rsum ws)%R).
Proof.
  unfold process_archive. intros H.
  apply rbind_Ok in H as (st & Hloop & H).
  apply rbind_Ok in H as ([mean err] & Hagg & H).
  injection H as _ _ <-. cbn [sum_arrays DeltaDM_mean DeltaDM_err].
  fold (archive_DM0 o d) in Hagg.
  assert (Hne : map isub (ok_subints d) <> []).
  { intros Hnil. rewrite Hnil, aggregate_DM_empty in Hagg. discriminate. }
  assert (Htake : exists dms errs,
            take_indices (DMs (arrs st)) (map isub (ok_subints d)) = Ok dms /\
            take_indices (DM_errs (arrs st)) (map isub (ok_subints d)) = Ok errs).
  { unfold aggregate_DM in Hagg.
    apply rbind_Ok in Hagg as (errs & Herrs & Hagg).
    apply rbind_Ok in Hagg as (dd & Hdd & _).
    apply take_indices_map_inv in Hdd as (dms & Hdms & _). eauto. }
  destruct Htake as (dms & errs & Hdms & Herrs).
  destruct (aggregate_DM_spec (archive_DM0 o d) _ _ _ _ _ Hne Hdms Herrs)
    as (mean' & err' & Hrun & Hmean & Hvar & Hone).
  rewrite Hagg in Hrun. injection Hrun as <- <-.
  exists st, dms, errs. rewrite length_map in Hvar, Hone.
  repeat split; assumption.
Qed.

Lemma aggregate_DM_runs (DM0 : R) (DMs DM_errs : list R) (ok_isubs : list nat)
    (dms errs : list R) :
  ok_isubs <> [] ->
  take_indices DMs ok_isubs = Ok dms ->
  take_indices DM_errs ok_isubs = Ok errs ->
  let xs := map (fun x => (x - DM0)%R) dms in
  let ws := spec_weights errs in
  let mean := (Rsum (zip_with Rmult xs ws) / Rsum ws)%R in
  (0 < Rsum ws)%R /\
  aggregate_DM DM0 DMs DM_errs ok_isubs
  = Ok (mean,
        sqrt (if 1 <? length ok_isubs then
                / Rsum ws *
                (Rsum (zip_with Rmult (map (fun x => ((x - mean) ^ 2)%R) xs) ws)
                 / INR (length xs - 1))
              else / Rsum ws)%R).
Proof.
  intros Hne Hdms Herrs xs ws mean.
  assert (Hlen_e := take_indices_length _ _ _ Herrs).
  assert (Hsum : (0 < Rsum ws)%R).
  { apply Rsum_pos; [|apply spec_weights_pos].
    intros Hnil. apply (f_equal length) in Hnil. unfold ws in Hnil.
    rewrite spec_weights_length, Hlen_e in Hnil.
    destruct ok_isubs; [congruence|discriminate]. }
  split; [exact Hsum|].
  unfold aggregate_DM. rewrite Herrs. cbn [rbind].
  rewrite (take_indices_map (fun x => (x - DM0)%R) _ _ _ Hdms). cbn [rbind].
  rewrite code_weights_spec. unfold np_average. fold xs ws.
  destruct (Req_dec_T (Rsum ws) 0) as [Hz|_]; [lra|]. cbn [rbind].
  rewrite powerRZ_minus_1. fold mean.
  destruct (1 <? length ok_isubs); reflexivity.
Qed.

Lemma spec_weights_half : spec_weights [0.5; 0.5]%R = [4; 4]%R.
Proof.
  unfold spec_weights.
  destruct (all_nonzero_dec [0.5; 0.5]%R) as [_|Hz].
  - simpl. f_equal; [|f_equal]; lra.
  - exfalso. apply Hz. repeat constructor; lra.
Qed.

Lemma ex_pm_runs :
  exists r, process_archive ex_fit_pm opts_topo "m.gmodel" None [] ex_two_subints = Ok r.
Proof.
  assert (Hloop : foldM (process_subint ex_fit_pm opts_topo "m.gmodel" ex_two_subints)
                    (ex_state ex_two_subints opts_topo)
                    (ok_subints ex_two_subints) = Ok ex_after_loop_pm) by reflexivity.
  destruct (aggregate_DM_runs 10 (DMs (arrs ex_after_loop_pm))
              (DM_errs (arrs ex_after_loop_pm)) [0; 1]
              [11; 9]%R [0.5; 0.5]%R)
    as [_ Hagg]; [discriminate | reflexivity | reflexivity |].
  unfold process_archive.
  change (ex_state ex_two_subints opts_topo)
    with {| local_fit_flags := None; arrs := init_arrays opts_topo ex_two_subints;
            TOA_list := [] |} in Hloop.
  rewrite Hloop. cbn [rbind].
  change (match DM0 opts_topo with
          | Some x => x
          | None => DM_stored ex_two_subints
          end) with 10%R.
  change (map isub (ok_subints ex_two_subints)) with [0; 1].
  rewrite Hagg. cbn [rbind]. eexists. reflexivity.
Qed.

(** An archive of two subintegrations whose DM offsets are +1 and -1 with
    equal uncertainties: the mean offset is 0 and the squared uncertainty
    is 1. *)
Lemma C4_weighted_mean_and_inflated_variance_witness :
  exists fit_flags' toas' summary,
    process_archive ex_fit_pm opts_topo "m.gmodel" None [] ex_two_subints
    = Ok (fit_flags', toas', summary) /\
    DeltaDM_mean summary = 0%R /\
    (DeltaDM_err summary * DeltaDM_err summary)%R = 1%R.
Proof.
  destruct ex_pm_runs as [[[ff' toas'] summary] Hrun].
  exists ff', toas', summary. split; [exact Hrun|].
  destruct (C4_weighted_mean_and_inflated_variance _ _ _ _ _ _ _ _ _ Hrun)
    as (st & dms & errs & Hloop & _ & Hdms & Herrs & Hmean & Hvar & _).
  assert (Hst : st = ex_after_loop_pm).
  { assert (Hloop' : foldM (process_subint ex_fit_pm opts_topo "m.gmodel" ex_two_subints)
                       (ex_state ex_two_subints opts_topo)
                       (ok_subints ex_two_subints) = Ok ex_after_loop_pm) by reflexivity.
    change (ex_state ex_two_subints opts_topo)
      with {| local_fit_flags := None; arrs := init_arrays opts_topo ex_two_subints;
              TOA_list := [] |} in Hloop'.
    rewrite Hloop in Hloop'. injection Hloop' as ->. reflexivity. }
  subst st.
  assert (Hd : dms = [11; 9]%R).
  { assert (Hd' : take_indices (DMs (arrs ex_after_loop_pm))
                    (map isub (ok_subints ex_two_subints)) = Ok [11; 9]%R) by reflexivity.
    rewrite Hdms in Hd'. injection Hd' as ->. reflexivity. }
  assert (He : errs = [0.5; 0.5]%R).
  { assert (He' : take_indices (DM_errs (arrs ex_after_loop_pm))
                    (map isub (ok_subints ex_two_subints)) = Ok [0.5; 0.5]%R) by reflexivity.
    rewrite Herrs in He'. injection He' as ->. reflexivity. }
  subst dms errs.
  assert (Hm : DeltaDM_mean summary = 0%R).
  { rewrite Hmean, spec_weights_half. unfold spec_weighted_mean, Rsum, archive_DM0.
    simpl. lra. }
  split; [exact Hm|].
  rewrite Hvar by (simpl; lia).
  unfold spec_inflated_variance. rewrite <- Hmean, Hm, spec_weights_half.
  unfold Rsum, archive_DM0. simpl. lra.
Defined.

(** ** Channel zapping *)

Lemma getitem_snr (channel_snrs : list R) c :
  c < length channel_snrs -> getitem channel_snrs c = Ok (snr_of channel_snrs c).
Proof.
  intros Hc. destruct (lookup_lt_is_Some_2 channel_snrs c Hc) as [x Hx].
  unfold getitem, snr_of. rewrite Hx, (nth_lookup_Some _ _ _ _ Hx). reflexivity.
Qed.

Lemma first_pass_spec T rchi2 thr chi2 (snrs : list R) (ok bad0 : list nat) :
  (forall c, c ∈ ok -> c < length snrs) ->
  exists added,
    first_pass T rchi2 thr chi2 snrs bad0 ok = Ok (bad0 ++ added) /\
    added `sublist_of` ok /\
    (truthy T = true ->
     forall c, c ∈ ok -> c ∉ added -> ~ (snr_of snrs c < thr)%R).
Proof.
  revert bad0. induction ok as [|c ok IH]; intros bad0 Hvalid.
  - exists []. rewrite app_nil_r. repeat split; [constructor|].
    intros _ c Hc. inversion Hc.
  - assert (Hvalid' : forall c', c' ∈ ok -> c' < length snrs)
      by (intros c' Hc'; apply Hvalid; right; exact Hc').
    assert (Hbad : exists added,
              first_pass T rchi2 thr chi2 snrs (bad0 ++ [c]) ok
              = Ok (bad0 ++ added) /\
              added `sublist_of` c :: ok /\
              (truthy T = true -> forall c', c' ∈ c :: ok -> c' ∉ added ->
                 ~ (snr_of snrs c' < thr)%R)).
    { destruct (IH (bad0 ++ [c]) Hvalid') as (added & Hrun & Hsub & Hkeep).
      exists (c :: added). rewrite <- app_assoc in Hrun. split; [exact Hrun|].
      split; [apply sublist_skip; exact Hsub|].
      intros HT c' Hc' Hnot. apply not_elem_of_cons in Hnot as [Hne Hnot].
      apply elem_of_cons in Hc' as [->|Hc']; [contradiction|].
      apply Hkeep; assumption. }
    assert (Hgood : ~ (truthy T = true /\ (snr_of snrs c < thr)%R) ->
              exists added,
                first_pass T rchi2 thr chi2 snrs bad0 ok = Ok (bad0 ++ added) /\
                added `sublist_of` c :: ok /\
                (truthy T = true -> forall c', c' ∈ c :: ok -> c' ∉ added ->
                   ~ (snr_of snrs c' < thr)%R)).
    { intros Hc. destruct (IH bad0 Hvalid') as (added & Hrun & Hsub & Hkeep).
      exists added. split; [exact Hrun|]. split; [apply sublist_cons; exact Hsub|].
      intros HT c' Hc' Hnot.
      apply elem_of_cons in Hc' as [->|Hc']; [tauto|].
      apply Hkeep; assumption. }
    simpl. destruct (chi2 c) as [x|]; [|exact Hbad].
    destruct (Rgt_dec x rchi2); [exact Hbad|].
    destruct (truthy T) eqn:HT.
    + rewrite (getitem_snr snrs c) by (apply Hvalid; left). simpl.
      destruct (Rlt_dec (snr_of snrs c) thr); [exact Hbad|].
      apply Hgood. tauto.
    + apply Hgood. intros [? _]. discriminate.
Qed.

Lemma recheck_spec thr (snrs : list R) (ok bad : list nat) :
  (forall c, c ∈ ok -> c < length snrs) -> NoDup bad ->
  exists added,
    recheck thr snrs bad ok = Ok (bad ++ added) /\
    NoDup (bad ++ added) /\
    (forall c, c ∈ added -> c ∈ ok) /\
    (forall c, c ∈ ok -> c ∉ bad ++ added -> ~ (snr_of snrs c < thr)%R).
Proof.
  revert bad. induction ok as [|c ok IH]; intros bad Hvalid Hnd.
  - exists []. rewrite app_nil_r. repeat split; [exact Hnd | |].
    + intros c Hc. inversion Hc.
    + intros c Hc. inversion Hc.
  - assert (Hvalid' : forall c', c' ∈ ok -> c' < length snrs)
      by (intros c' Hc'; apply Hvalid; right; exact Hc').
    simpl. destruct (bool_decide_reflect (c ∈ bad)) as [Hin|Hnin].
    + destruct (IH bad Hvalid' Hnd) as (added & Hrun & Hnd' & Hsub & Hkeep).
      exists added. split; [exact Hrun|]. split; [exact Hnd'|]. split.
      * intros c' Hc'. right. apply Hsub. exact Hc'.
      * intros c' Hc' Hnot. apply elem_of_cons in Hc' as [->|Hc'].
        -- exfalso. apply Hnot. apply elem_of_app. left. exact Hin.
        -- apply Hkeep; assumption.
    + rewrite (getitem_snr snrs c) by (apply Hvalid; left). simpl.
      destruct (Rlt_dec (snr_of snrs c) thr) as [Hlt|Hge].
      * destruct (IH (bad ++ [c]) Hvalid') as (added & Hrun & Hnd' & Hsub & Hkeep).
        { apply NoDup_app. split; [exact Hnd|]. split; [|apply NoDup_singleton].
          intros x Hx Hx'. apply list_elem_of_singleton in Hx' as ->. contradiction. }
        rewrite <- app_assoc in Hrun, Hnd', Hkeep. simpl in Hrun, Hnd', Hkeep.
        exists (c :: added). split; [exact Hrun|]. split; [exact Hnd'|]. split.
        -- intros c' Hc'. apply elem_of_cons in Hc' as [->|Hc']; [left|right].
           apply Hsub. exact Hc'.
        -- intros c' Hc' Hnot. apply elem_of_cons in Hc' as [->|Hc'].
           ++ exfalso. apply Hnot. apply elem_of_app. right. left.
           ++ apply Hkeep; assumption.
      * destruct (IH bad Hvalid' Hnd) as (added & Hrun & Hnd' & Hsub & Hkeep).
        exists added. split; [exact Hrun|]. split; [exact Hnd'|]. split.
        -- intros c' Hc'. right. apply Hsub. exact Hc'.
        -- intros c' Hc' Hnot. apply elem_of_cons in Hc' as [->|Hc'];
             [exact Hge | apply Hkeep; assumption].
Qed.

Lemma zap_while_unfold fuel T (snrs : list R) (ok bad : list nat) old_len added_new :
  zap_while fuel T snrs ok bad old_len added_new
  = if added_new && negb (len_diff ok bad =? 0)%Z then
      match fuel with
      | 0 => None
      | S fuel' =>
          match channel_SNR_threshold T (len_diff ok bad) with
          | Raise e => Some (Raise e)
          | Ok threshold =>
              match recheck threshold snrs bad ok with
              | Raise e => Some (Raise e)
              | Ok bad' =>
                  zap_while fuel' T snrs ok bad' (length bad')
                    (negb (Z.of_nat (length bad') - Z.of_nat old_len =? 0)%Z)
              end
          end
      end
    else Some (Ok bad).
Proof. destruct fuel; reflexivity. Qed.

Lemma bad_length_le (ok bad : list nat) :
  NoDup bad -> (forall c, c ∈ bad -> c ∈ ok) -> length bad <= length ok.
Proof.
  intros Hnd Hsub. apply submseteq_length, NoDup_submseteq; assumption.
Qed.

Lemma all_bad (ok bad : list nat) :
  NoDup bad -> (forall c, c ∈ bad -> c ∈ ok) -> length ok <= length bad ->
  forall c, c ∈ ok -> c ∈ bad.
Proof.
  intros Hnd Hsub Hlen c Hc.
  assert (Hperm : bad ≡ₚ ok).
  { apply submseteq_length_Permutation; [|exact Hlen].
    apply NoDup_submseteq; assumption. }
  rewrite Hperm. exact Hc.
Qed.

Lemma zap_while_spec fuel T (snrs : list R) (ok : list nat) :
  (forall c, c ∈ ok -> c < length snrs) ->
  forall (bad : list nat) (added_new : bool),
  NoDup bad -> (forall c, c ∈ bad -> c ∈ ok) ->
  (added_new = true -> length ok - length bad <= fuel) ->
  (added_new = false -> meets_threshold T snrs ok bad) ->
  exists bad',
    zap_while fuel T snrs ok bad (length bad) added_new = Some (Ok bad') /\
    NoDup bad' /\ (forall c, c ∈ bad' -> c ∈ ok) /\
    ((forall c, c ∈ ok -> c ∈ bad') \/ meets_threshold T snrs ok bad').
Proof.
  intros Hvalid. induction fuel as [|fuel IH]; intros bad added_new Hnd Hsub Hfuel Hmeets;
    rewrite zap_while_unfold;
    assert (Hle := bad_length_le ok bad Hnd Hsub);
    unfold len_diff in *.
  - destruct added_new; simpl.
    + destruct (Z.eqb_spec (Z.of_nat (length ok) - Z.of_nat (length bad)) 0) as [Hz|Hz]; simpl.
      * exists bad. split; [reflexivity|]. split; [exact Hnd|]. split; [exact Hsub|].
        left. apply all_bad; [assumption..|lia].
      * specialize (Hfuel eq_refl). lia.
    + exists bad. split; [reflexivity|]. split; [exact Hnd|]. split; [exact Hsub|].
      right. apply Hmeets. reflexivity.
  - destruct added_new; simpl.
    + destruct (Z.eqb_spec (Z.of_nat (length ok) - Z.of_nat (length bad)) 0) as [Hz|Hz]; simpl.
      * exists bad. split; [reflexivity|]. split; [exact Hnd|]. split; [exact Hsub|].
        left. apply all_bad; [assumption..|lia].
      * unfold channel_SNR_threshold.
        destruct (Z.eqb_spec (Z.of_nat (length ok) - Z.of_nat (length bad)) 0);
          [contradiction|].
        destruct (recheck_spec
                    (sqrt (T ^ 2 / IZR (Z.of_nat (length ok) - Z.of_nat (length bad))))
                    snrs ok bad Hvalid Hnd)
          as (added & Hrun & Hnd' & Hadded & Hkeep).
        rewrite Hrun.
        apply IH.
        -- exact Hnd'.
        -- intros c Hc. apply elem_of_app in Hc as [Hc|Hc]; auto.
        -- intros Hnew. specialize (Hfuel eq_refl).
           rewrite length_app in *.
           destruct (Z.eqb_spec (Z.of_nat (length bad + length added)
                                 - Z.of_nat (length bad)) 0); [discriminate|].
           lia.
        -- intros Hnew. rewrite length_app in Hnew.
           destruct (Z.eqb_spec (Z.of_nat (length bad + length added)
                                 - Z.of_nat (length bad)) 0) as [Hz'|]; [|discriminate].
           assert (added = []) as -> by (destruct added; [reflexivity|simpl in Hz'; lia]).
           rewrite app_nil_r in *.
           intros c Hc Hnot. apply Rnot_lt_le. unfold len_diff.
           apply Hkeep; assumption.
    + exists bad. split; [reflexivity|]. split; [exact Hnd|]. split; [exact Hsub|].
      right. apply Hmeets. reflexivity.
Qed.

Lemma zap_while_fuel_mono fuel T (snrs : list R) (ok : list nat) :
  forall (bad : list nat) old_len added_new r,
  zap_while fuel T snrs ok bad old_len added_new = Some r ->
  forall fuel', fuel <= fuel' ->
  zap_while fuel' T snrs ok bad old_len added_new = Some r.
Proof.
  induction fuel as [|fuel IH]; intros bad old_len added_new r Hrun fuel' Hle;
    rewrite zap_while_unfold in Hrun; rewrite zap_while_unfold;
    destruct (added_new && negb (len_diff ok bad =? 0)%Z); try exact Hrun;
    try discriminate.
  destruct fuel' as [|fuel']; [lia|].
  destruct (channel_SNR_threshold T (len_diff ok bad)); [|exact Hrun].
  destruct (recheck a snrs bad ok); [|exact Hrun].
  apply (IH _ _ _ _ Hrun). lia.
Qed.

Lemma retained_length (ok bad : list nat) :
  NoDup ok -> NoDup bad -> (forall c, c ∈ bad -> c ∈ ok) ->
  length (retained ok bad) + length bad = length ok.
Proof.
  intros Hok Hbad Hsub. unfold retained.
  assert (Hperm : filter (fun c => c ∈ bad) ok ≡ₚ bad).
  { apply NoDup_Permutation; [apply NoDup_filter; exact Hok | exact Hbad |].
    intros c. rewrite list_elem_of_filter. split; [tauto|]. auto. }
  assert (Hsplit := filter_app_complement (fun c => c ∈ bad) ok).
  apply Permutation_length in Hsplit, Hperm.
  rewrite length_app in Hsplit. lia.
Qed.

Lemma Rsum_lower_bound (f : nat -> R) (q : R) (l : list nat) :
  (forall c, c ∈ l -> (q <= f c)%R) -> (INR (length l) * q <= Rsum (map f l))%R.
Proof.
  induction l as [|c l IH]; intros Hl.
  - simpl. lra.
  - change (length (c :: l)) with (S (length l)). rewrite S_INR. simpl.
    assert (q <= f c)%R by (apply Hl; left).
    assert (INR (length l) * q <= Rsum (map f l))%R
      by (apply IH; intros c' Hc'; apply Hl; right; exact Hc').
    lra.
Qed.

(** When every retained channel reaches the effective threshold, the root of
    the sum of the squared retained signal-to-noise ratios reaches the
    target. *)
Lemma aggregate_reaches_target T (snrs : list R) (ok bad : list nat) :
  NoDup ok -> NoDup bad -> (forall c, c ∈ bad -> c ∈ ok) ->
  length bad < length ok ->
  meets_threshold T snrs ok bad ->
  (Rabs T <= aggregate_snr snrs (retained ok bad))%R.
Proof.
  intros Hok Hbad Hsub Hlt Hmeets.
  assert (Hlen := retained_length ok bad Hok Hbad Hsub).
  set (n := IZR (len_diff ok bad)).
  assert (Hn : n = INR (length (retained ok bad))).
  { unfold n, len_diff. rewrite INR_IZR_INZ. f_equal. lia. }
  assert (Hnpos : (0 < n)%R).
  { rewrite Hn. apply lt_0_INR. lia. }
  assert (Hq : (0 <= T ^ 2 / n)%R).
  { apply Rmult_le_pos; [nra|]. apply Rlt_le, Rinv_0_lt_compat. exact Hnpos. }
  unfold aggregate_snr. rewrite <- sqrt_Rsqr_abs. apply sqrt_le_1_alt.
  assert (Hsum := Rsum_lower_bound (fun c => (snr_of snrs c ^ 2)%R) (T ^ 2 / n)%R
                    (retained ok bad)).
  rewrite <- Hn in Hsum.
  replace (Rsqr T) with (n * (T ^ 2 / n))%R by (unfold Rsqr; field; lra).
  apply Hsum. intros c Hc. unfold retained in Hc.
  apply list_elem_of_filter in Hc as [Hnot Hc].
  specialize (Hmeets c Hc Hnot). fold n in Hmeets.
  assert (Hs := sqrt_pos (T ^ 2 / n)).
  assert (Hss := sqrt_sqrt (T ^ 2 / n) Hq).
  nra.
Qed.

(** C6.  With a nonzero [SNR_threshold] and [iterate] set, the S/N cut of a
    subintegration terminates (any fuel from the number of good channels on
    gives the same list of bad channels), and at the end either every good
    channel is marked bad, or every retained channel's S/N is at least
    sqrt(SNR_threshold^2 / n_retained) for the final number of retained
    channels, so that the aggregate S/N of the retained channels is at least
    the target. *)
Theorem C6_zap_iteration_fixed_point
    (SNR_threshold rchi2_threshold : R) (channel_red_chi2 : nat -> option R)
    (channel_snrs : list R) (ok_ichans : list nat) :
  SNR_threshold <> 0%R ->
  ok_ichans <> [] -> NoDup ok_ichans ->
  (forall c, c ∈ ok_ichans -> c < length channel_snrs) ->
  exists bad_ichans,
    (forall fuel, length ok_ichans <= fuel ->
       zap_subint fuel SNR_threshold rchi2_threshold true channel_red_chi2
         channel_snrs ok_ichans = Some (Ok bad_ichans)) /\
    NoDup bad_ichans /\
    (forall c, c ∈ bad_ichans -> c ∈ ok_ichans) /\
    ((forall c, c ∈ ok_ichans -> c ∈ bad_ichans) \/
     (meets_threshold SNR_threshold channel_snrs ok_ichans bad_ichans /\
      (Rabs SNR_threshold
       <= aggregate_snr channel_snrs (retained ok_ichans bad_ichans))%R)).
Proof.
  intros HT Hne Hok Hvalid.
  assert (Htruthy : truthy SNR_threshold = true).
  { unfold truthy. destruct (Req_dec_T SNR_threshold 0); [contradiction|reflexivity]. }
  assert (Hlen : length ok_ichans <> 0) by (destruct ok_ichans; [congruence|discriminate]).
  set (thr0 := sqrt (SNR_threshold ^ 2 / IZR (Z.of_nat (length ok_ichans)))).
  destruct (first_pass_spec SNR_threshold rchi2_threshold thr0 channel_red_chi2
              channel_snrs ok_ichans [] Hvalid) as (bad0 & Hfirst & Hsub & Hkeep).
  simpl in Hfirst. specialize (Hkeep Htruthy).
  assert (Hnd0 : NoDup bad0) by (eapply sublist_NoDup; eassumption).
  assert (Hsub0 : forall c, c ∈ bad0 -> c ∈ ok_ichans)
    by (intros c Hc; eapply elem_of_sublist; eassumption).
  assert (Hfinish : forall bad, NoDup bad -> (forall c, c ∈ bad -> c ∈ ok_ichans) ->
            (forall c, c ∈ ok_ichans -> c ∈ bad) \/
            meets_threshold SNR_threshold channel_snrs ok_ichans bad ->
            (forall c, c ∈ ok_ichans -> c ∈ bad) \/
            (meets_threshold SNR_threshold channel_snrs ok_ichans bad /\
             (Rabs SNR_threshold
              <= aggregate_snr channel_snrs (retained ok_ichans bad))%R)).
  { intros bad Hnd Hsubset [Hall|Hmeets]; [left; exact Hall|].
    assert (Hle := bad_length_le ok_ichans bad Hnd Hsubset).
    destruct (Nat.eq_dec (length bad) (length ok_ichans)) as [Heq|Hneq].
    - left. apply all_bad; [assumption..|lia].
    - right. split; [exact Hmeets|].
      apply aggregate_reaches_target; [assumption..|lia|exact Hmeets]. }
  assert (Hhead : forall fuel,
            zap_subint fuel SNR_threshold rchi2_threshold true channel_red_chi2
              channel_snrs ok_ichans
            = if negb (length bad0 =? 0) then
                zap_while fuel SNR_threshold channel_snrs ok_ichans bad0
                  (length bad0) true
              else Some (Ok bad0)).
  { intros fuel. unfold zap_subint, channel_SNR_threshold.
    destruct (Z.eqb_spec (Z.of_nat (length ok_ichans)) 0); [lia|].
    fold thr0. rewrite Hfirst, Htruthy. reflexivity. }
  destruct (Nat.eqb_spec (length bad0) 0) as [Hz|Hnz].
  - exists bad0. split; [intros fuel _; rewrite Hhead; reflexivity|].
    split; [exact Hnd0|]. split; [exact Hsub0|].
    apply Hfinish; [assumption..|]. right.
    destruct bad0; [|discriminate].
    intros c Hc Hnot. unfold len_diff. simpl. rewrite Z.sub_0_r.
    apply Rnot_lt_le. apply Hkeep; assumption.
  - destruct (zap_while_spec (length ok_ichans) SNR_threshold channel_snrs
                ok_ichans Hvalid bad0 true Hnd0 Hsub0)
      as (bad & Hrun & Hnd & Hsubset & Hend).
    { intros _. lia. }
    { discriminate. }
    exists bad. split.
    + intros fuel Hfuel. rewrite Hhead. simpl.
      apply (zap_while_fuel_mono _ _ _ _ _ _ _ _ Hrun). exact Hfuel.
    + split; [exact Hnd|]. split; [exact Hsubset|].
      apply Hfinish; assumption.
Qed.

Lemma C6_zap_iteration_fixed_point_witness :
  (8 <> 0)%R /\ ex_ok_ichans <> [] /\ NoDup ex_ok_ichans /\
  (forall c, c ∈ ex_ok_ichans -> c < length ex_channel_snrs) /\
  exists bad_ichans,
    (forall fuel, 4 <= fuel ->
       zap_subint fuel 8 1.3 true ex_red_chi2 ex_channel_snrs ex_ok_ichans
       = Some (Ok bad_ichans)) /\
    ((forall c, c ∈ ex_ok_ichans -> c ∈ bad_ichans) \/
     (meets_threshold 8 ex_channel_snrs ex_ok_ichans bad_ichans /\
      (Rabs 8 <= aggregate_snr ex_channel_snrs (retained ex_ok_ichans bad_ichans))%R)).
Proof.
  assert (H8 : (8 <> 0)%R) by lra.
  assert (Hne : ex_ok_ichans <> []) by discriminate.
  assert (Hnd : NoDup ex_ok_ichans).
  { unfold ex_ok_ichans.
    repeat (apply NoDup_cons; split;
      [intros Hin; repeat (apply elem_of_cons in Hin as [Hin|Hin]; [discriminate|]);
       inversion Hin|]).
    apply NoDup_nil. exact I. }
  assert (Hvalid : forall c, c ∈ ex_ok_ichans -> c < length ex_channel_snrs).
  { intros c Hc. unfold ex_ok_ichans in Hc. simpl.
    repeat (apply elem_of_cons in Hc as [->|Hc]; [lia|]). inversion Hc. }
  split; [exact H8|]. split; [exact Hne|]. split; [exact Hnd|].
  split; [exact Hvalid|].
  destruct (C6_zap_iteration_fixed_point 8 1.3 ex_red_chi2 ex_channel_snrs
              ex_ok_ichans H8 Hne Hnd Hvalid)
    as (bad & Hrun & _ & _ & Hend).
  exists bad. split; [exact Hrun | exact Hend].
Defined.

Lemma lt_sqrt (x y : R) : (0 <= x)%R -> (x * x < y)%R -> (x < sqrt y)%R.
Proof.
  intros Hx Hxy. rewrite <- (sqrt_square x Hx) at 1.
  apply sqrt_lt_1_alt. split; nra.
Qed.

Lemma not_lt_sqrt (x y : R) : (0 <= x)%R -> (y <= x * x)%R -> ~ (x < sqrt y)%R.
Proof.
  intros Hx Hxy. apply Rle_not_lt. rewrite <- (sqrt_square x Hx) at 1.
  apply sqrt_le_1_alt. exact Hxy.
Qed.

Ltac decide_snr :=
  repeat match goal with
  | |- context [Rlt_dec ?a (sqrt ?b)] =>
      let H := fresh "H" in
      destruct (Rlt_dec a (sqrt b)) as [H|H];
      [ try (exfalso; revert H; apply not_lt_sqrt; lra)
      | try (exfalso; apply H; apply lt_sqrt; lra) ]
  | |- context [Rgt_dec ?a ?b] =>
      let H := fresh "H" in
      destruct (Rgt_dec a b) as [H|H]; [try (exfalso; lra)|]
  | |- context [Req_dec_T ?a ?b] =>
      let H := fresh "H" in
      destruct (Req_dec_T a b) as [H|H]; [try (exfalso; lra)|]
  end.

Example first_pass_example :
  first_pass 8 1.3 (sqrt (8 ^ 2 / 4)) ex_red_chi2 ex_channel_snrs [] ex_ok_ichans
  = Ok [0].
Proof.
  unfold ex_ok_ichans, ex_channel_snrs, ex_red_chi2. simpl. unfold truthy.
  decide_snr. reflexivity.
Qed.

Example recheck_example_3 :
  recheck (sqrt (8 ^ 2 / 3)) ex_channel_snrs [0] ex_ok_ichans = Ok [0; 1].
Proof.
  unfold ex_ok_ichans, ex_channel_snrs. simpl.
  decide_snr. reflexivity.
Qed.

Example recheck_example_2 :
  recheck (sqrt (8 ^ 2 / 2)) ex_channel_snrs [0; 1] ex_ok_ichans = Ok [0; 1].
Proof.
  unfold ex_ok_ichans, ex_channel_snrs. simpl.
  decide_snr. reflexivity.
Qed.

Lemma truthy_nonzero (x : R) : x <> 0%R -> truthy x = true.
Proof.
  intros Hx. unfold truthy. destruct (Req_dec_T x 0); [contradiction|reflexivity].
Qed.

(** The iteration at work: the first pass cuts channel 0 only; recomputing
    the threshold for three channels then cuts channel 1 as well, and a
    further recomputation for two channels cuts nothing more.  Without
    [iterate] only channel 0 is cut. *)
Example zap_iterate_cuts_both :
  zap_subint 4 8 1.3 true ex_red_chi2 ex_channel_snrs ex_ok_ichans
  = Some (Ok [0; 1])
  /\ zap_subint 4 8 1.3 false ex_red_chi2 ex_channel_snrs ex_ok_ichans
     = Some (Ok [0]).
Proof.
  assert (H8 : truthy 8 = true) by (apply truthy_nonzero; lra).
  unfold zap_subint, channel_SNR_threshold.
  change (Z.of_nat (length ex_ok_ichans)) with 4%Z.
  change (4 =? 0)%Z with false. cbv iota.
  rewrite first_pass_example, H8.
  split; [|reflexivity].
  change (true && true && negb (length [0] =? 0)) with true. cbv iota.
  rewrite zap_while_unfold. unfold channel_SNR_threshold.
  change (len_diff ex_ok_ichans [0]) with 3%Z.
  change (true && negb (3 =? 0)%Z) with true. change (3 =? 0)%Z with false.
  cbv iota. rewrite recheck_example_3.
  rewrite zap_while_unfold. unfold channel_SNR_threshold.
  change (len_diff ex_ok_ichans [0; 1]) with 2%Z.
  change (negb (Z.of_nat (length [0; 1]) - Z.of_nat (length [0]) =? 0)%Z) with true.
  change (true && negb (2 =? 0)%Z) with true. change (2 =? 0)%Z with false.
  cbv iota. rewrite recheck_example_2.
  rewrite zap_while_unfold. reflexivity.
Qed.

(** ** The constructor and the command line *)

Lemma too_many_archives_text :
  too_many_archives
  = "Too many archives.  See/change max_nfile(=999) in pptoas.py.".
Proof. reflexivity. Qed.

(** C7.  With more than [max_nfile] = 999 data files the constructor prints
    its diagnostic and exits, and the program ends there: nothing else is
    printed and no archive is loaded. *)
Theorem C7_too_many_archives_exit
    (datafiles : datafiles_arg) (modelfile : string) (quiet : bool) :
  999 < length (datafile_names datafiles) ->
  GetTOAs_init datafiles modelfile quiet
  = ([Stdout "Too many archives.  See/change max_nfile(=999) in pptoas.py."],
     Exits 0)
  /\ forall env c f,
       opt_datafiles c = Some f -> opt_modelfile c = Some modelfile ->
       opt_quiet c = quiet ->
       match env_metafile env f with
       | Some lines => Metafile lines
       | None => SingleArchive f
       end = datafiles ->
       main env c
       = ([Stdout "Too many archives.  See/change max_nfile(=999) in pptoas.py."],
          Exits 0)
       /\ existsb is_LoadData (fst (main env c)) = false.
Proof.
  intros Hmany.
  assert (Hinit : GetTOAs_init datafiles modelfile quiet
                  = ([Stdout too_many_archives], Exits 0)).
  { unfold GetTOAs_init.
    destruct (Nat.ltb_spec max_nfile (length (datafile_names datafiles)));
      [reflexivity | unfold max_nfile in *; lia]. }
  rewrite too_many_archives_text in Hinit.
  split; [exact Hinit|].
  intros env c f Hf Hm Hq Harg.
  assert (Hmain : main env c
                  = ([Stdout "Too many archives.  See/change max_nfile(=999) in pptoas.py."],
                     Exits 0)).
  { unfold main. rewrite Hf, Hm, Harg, Hq, Hinit. reflexivity. }
  split; [exact Hmain|]. rewrite Hmain. reflexivity.
Qed.

Lemma C7_too_many_archives_exit_witness :
  999 < length (datafile_names (Metafile ex_metafile_lines)) /\
  main ex_environment ex_cli
  = ([Stdout "Too many archives.  See/change max_nfile(=999) in pptoas.py."],
     Exits 0).
Proof.
  assert (H : 999 < length (datafile_names (Metafile ex_metafile_lines))).
  { unfold datafile_names, ex_metafile_lines.
    rewrite length_map, length_replicate. lia. }
  split; [exact H|].
  apply (proj2 (C7_too_many_archives_exit (Metafile ex_metafile_lines)
                  "m.gmodel" false H) ex_environment ex_cli "files.meta");
    reflexivity.
Defined.

Lemma string_prefix_refl (s : string) : String.prefix s s = true.
Proof.
  induction s as [|c s IH]; simpl; [reflexivity|].
  destruct (ascii_dec c c) as [_|Hne]; [exact IH | contradiction].
Qed.

Lemma match_long_inr (opt : string) (o : opt_spec) :
  match_long opt = inr o ->
  In o option_table /\ String.prefix opt (opt_long o) = true.
Proof.
  unfold match_long.
  destruct (find (fun o => String.eqb (opt_long o) opt) option_table) as [o'|] eqn:Hfind.
  - intros [= <-]. apply find_some in Hfind as [Hin Heq].
    apply String.eqb_eq in Heq. split; [exact Hin|].
    rewrite Heq. apply string_prefix_refl.
  - destruct (List.filter (fun o => String.prefix opt (opt_long o)) option_table)
      as [|o' [|o'' l]] eqn:Hfilter; try discriminate.
    intros [= <-].
    assert (Hin : In o' (List.filter (fun o => String.prefix opt (opt_long o)) option_table))
      by (rewrite Hfilter; left; reflexivity).
    apply filter_In in Hin. exact Hin.
Qed.

Lemma match_short_Some (ch : ascii) (o : opt_spec) :
  match_short ch = Some o -> In o option_table /\ opt_short o = Some ch.
Proof.
  unfold match_short. intros H. apply find_some in H as [Hin Heq].
  split; [exact Hin|].
  destruct (opt_short o) as [c|]; [|discriminate].
  apply Ascii.eqb_eq in Heq. rewrite Heq. reflexivity.
Qed.

(** The two file options are the only ones with their destinations. *)
Lemma dest_datafiles (o : opt_spec) :
  In o option_table -> opt_dest o = "datafiles" -> o = datafiles_option.
Proof.
  unfold option_table. intros Hin Hdest.
  repeat (destruct Hin as [<-|Hin]; [first [discriminate Hdest | reflexivity]|]).
  destruct Hin.
Qed.

Lemma dest_modelfile (o : opt_spec) :
  In o option_table -> opt_dest o = "modelfile" -> o = modelfile_option.
Proof.
  unfold option_table. intros Hin Hdest.
  repeat (destruct Hin as [<-|Hin]; [first [discriminate Hdest | reflexivity]|]).
  destruct Hin.
Qed.

Section Absent.
(** An option [t] that is the only one with its destination. *)
Variable t : opt_spec.
Hypothesis t_only :
  forall o, In o option_table -> opt_dest o = opt_dest t -> o = t.

Lemma store_other o value (values : cli_values) :
  In o option_table -> o <> t ->
  store o value values !! opt_dest t = values !! opt_dest t.
Proof.
  intros Hin Hne. unfold store. apply lookup_insert_ne.
  intros Heq. apply Hne, t_only; assumption.
Qed.

Lemma store_const_other o (values : cli_values) :
  In o option_table -> o <> t ->
  store_const o values !! opt_dest t = values !! opt_dest t.
Proof.
  intros Hin Hne. unfold store_const.
  assert (Hd : opt_dest o <> opt_dest t)
    by (intros Heq; apply Hne, t_only; assumption).
  destruct (opt_act o); try reflexivity; apply lookup_insert_ne; exact Hd.
Qed.

Lemma process_short_absent chars : forall values largs next values' largs' taken,
  (match opt_short t with Some ch => occurs ch chars | None => false end) = false ->
  process_short chars values largs next = Continue values' largs' taken ->
  values' !! opt_dest t = values !! opt_dest t.
Proof.
  induction chars as [|ch rest IH]; intros values largs next values' largs' taken Habs;
    simpl.
  - intros [= <- _ _]. reflexivity.
  - assert (Hne : forall o, match_short ch = Some o -> In o option_table /\ o <> t).
    { intros o Ho. apply match_short_Some in Ho as [Hin Hs].
      split; [exact Hin|]. intros ->. rewrite Hs in Habs. simpl in Habs.
      rewrite Ascii.eqb_refl in Habs. discriminate. }
    assert (Hrest : (match opt_short t with
                     | Some c => occurs c rest
                     | None => false
                     end) = false).
    { destruct (opt_short t) as [c|]; [|reflexivity].
      simpl in Habs. apply orb_false_iff in Habs as [_ H]. exact H. }
    destruct (match_short ch) as [o|] eqn:Ho; [|discriminate].
    destruct (Hne o eq_refl) as [Hin Hot].
    destruct (opt_act o) eqn:Hact.
    + destruct rest as [|c rest'].
      * destruct next as [value|]; [|discriminate].
        intros [= <- _ _]. apply store_other; assumption.
      * intros [= <- _ _]. apply store_other; assumption.
    + intros H. apply IH in H; [|exact Hrest].
      rewrite H. apply store_const_other; assumption.
    + intros H. apply IH in H; [|exact Hrest].
      rewrite H. apply store_const_other; assumption.
    + discriminate.
Qed.

Lemma process_long_absent arg values largs next values' largs' taken :
  String.prefix (split_at_eq arg).1 (opt_long t) = false ->
  process_long arg values largs next = Continue values' largs' taken ->
  values' !! opt_dest t = values !! opt_dest t.
Proof.
  unfold process_long. destruct (split_at_eq arg) as [opt explicit]. simpl.
  intros Habs.
  destruct (match_long opt) as [e|o] eqn:Ho; [discriminate|].
  apply match_long_inr in Ho as [Hin Hpre].
  assert (Hot : o <> t) by (intros ->; congruence).
  destruct (opt_act o) eqn:Hact.
  - destruct explicit as [value|].
    + intros [= <- _ _]. apply store_other; assumption.
    + destruct next as [value|]; [|discriminate].
      intros [= <- _ _]. apply store_other; assumption.
  - destruct explicit; [discriminate|].
    intros [= <- _ _]. apply store_const_other; assumption.
  - destruct explicit; [discriminate|].
    intros [= <- _ _]. apply store_const_other; assumption.
  - destruct explicit; discriminate.
Qed.

Lemma process_short_stop chars : forall values largs next r,
  process_short chars values largs next = Stop r ->
  match r with Parsed _ _ => False | _ => True end.
Proof.
  induction chars as [|ch rest IH]; intros v l next r; simpl; [discriminate|].
  destruct (match_short ch) as [o|]; [|intros [= <-]; exact I].
  destruct (opt_act o).
  - destruct rest; [destruct next|]; try discriminate.
    intros [= <-]; exact I.
  - apply IH.
  - apply IH.
  - intros [= <-]; exact I.
Qed.

Lemma process_long_stop arg values largs next r :
  process_long arg values largs next = Stop r ->
  match r with Parsed _ _ => False | _ => True end.
Proof.
  unfold process_long. destruct (split_at_eq arg) as [opt explicit].
  destruct (match_long opt) as [e|o]; [intros [= <-]; exact I|].
  destruct (opt_act o), explicit, next;
    try discriminate; intros [= <-]; exact I.
Qed.

Lemma step_absent values largs arg rest :
  names_option t arg = false ->
  match step values largs arg rest with
  | Continue values' _ _ | Stop (Parsed values' _) =>
      values' !! opt_dest t = values !! opt_dest t
  | Stop _ => True
  end.
Proof.
  unfold names_option, step.
  destruct (String.eqb arg "--"); [reflexivity|].
  destruct (String.prefix "--" arg).
  - intros Habs.
    destruct (process_long arg values largs (head rest)) as [r|v' l' tk] eqn:Hrun.
    + apply process_long_stop in Hrun. destruct r; [exact I | exact I | contradiction].
    + eapply process_long_absent; eassumption.
  - destruct (is_short_group arg); [|reflexivity].
    intros Habs.
    destruct (process_short (string_tail arg) values largs (head rest))
      as [r|v' l' tk] eqn:Hrun.
    + apply process_short_stop in Hrun. destruct r; [exact I | exact I | contradiction].
    + eapply process_short_absent; eassumption.
Qed.

Lemma process_args_absent : forall rargs values largs values' args,
  Forall (fun arg => names_option t arg = false) rargs ->
  process_args values largs rargs = Parsed values' args ->
  values' !! opt_dest t = values !! opt_dest t.
Proof.
  intros rargs.
  assert (Hgen : forall n rargs, length rargs <= n ->
            forall values largs values' args,
            Forall (fun arg => names_option t arg = false) rargs ->
            process_args values largs rargs = Parsed values' args ->
            values' !! opt_dest t = values !! opt_dest t).
  { clear rargs. induction n as [|n IH]; intros rargs Hlen values largs values' args Habs.
    - destruct rargs; [|simpl in Hlen; lia]. simpl. intros [= <- _]. reflexivity.
    - destruct rargs as [|arg rest]; [simpl; intros [= <- _]; reflexivity|].
      apply Forall_cons in Habs as [Harg Hrest]. simpl in Hlen.
      assert (Hstep := step_absent values largs arg rest Harg).
      simpl. destruct (step values largs arg rest) as [r|v1 l1 taken].
      + intros ->. exact Hstep.
      + intros Hrun. rewrite <- Hstep.
        destruct taken.
        * destruct rest as [|x rest'].
          -- apply (IH [] ltac:(simpl; lia) _ _ _ _ Hrest Hrun).
          -- apply Forall_cons in Hrest as [_ Hrest'].
             apply (IH rest' ltac:(simpl in Hlen; lia) _ _ _ _ Hrest' Hrun).
        * apply (IH rest ltac:(lia) _ _ _ _ Hrest Hrun). }
  apply (Hgen (length rargs)). lia.
Qed.
End Absent.

Lemma default_datafiles : default_values !! "datafiles" = Some OptNone.
Proof. reflexivity. Qed.

Lemma default_modelfile : default_values !! "modelfile" = Some OptNone.
Proof. reflexivity. Qed.

(** Without a next argument no option takes one, and what the pass does
    then does not depend on what follows. *)
Lemma process_short_next chars : forall values largs next values' largs' taken,
  process_short chars values largs next = Continue values' largs' taken ->
  match next with
  | Some _ => True
  | None =>
      taken = false /\
      forall next', process_short chars values largs next'
                    = Continue values' largs' taken
  end.
Proof.
  induction chars as [|ch rest IH]; intros values largs next values' largs' taken;
    simpl.
  - intros [= <- <- <-]. destruct next; [exact I|]. split; reflexivity.
  - destruct (match_short ch) as [o|]; [|discriminate].
    destruct (opt_act o).
    + destruct rest as [|c rest'].
      * destruct next; [intros _; exact I | discriminate].
      * intros [= <- <- <-]. destruct next; [exact I|]. split; reflexivity.
    + apply IH.
    + apply IH.
    + discriminate.
Qed.

Lemma process_long_next arg values largs next values' largs' taken :
  process_long arg values largs next = Continue values' largs' taken ->
  match next with
  | Some _ => True
  | None =>
      taken = false /\
      forall next', process_long arg values largs next'
                    = Continue values' largs' taken
  end.
Proof.
  destruct next as [value|]; [intros _; exact I|].
  unfold process_long. destruct (split_at_eq arg) as [opt explicit].
  destruct (match_long opt) as [e|o]; [discriminate|].
  destruct (opt_act o), explicit; try discriminate;
    intros [= <- <- <-]; split; reflexivity.
Qed.

Lemma step_next values largs arg rest values' largs' taken suffix :
  step values largs arg rest = Continue values' largs' taken ->
  step values largs arg (rest ++ suffix) = Continue values' largs' taken /\
  (taken = true -> rest <> []).
Proof.
  unfold step. destruct (String.eqb arg "--"); [discriminate|].
  destruct rest as [|x rest]; [|intros H; split; [exact H | discriminate]].
  cbn [app head].
  destruct (String.prefix "--" arg).
  - intros H. apply process_long_next in H as [-> H].
    split; [apply H | discriminate].
  - destruct (is_short_group arg).
    + intros H. apply process_short_next in H as [-> H].
      split; [apply H | discriminate].
    + intros H. split; [exact H|]. injection H as _ _ <-. discriminate.
Qed.

Lemma step_stop_parsed values largs arg rest values' args :
  step values largs arg rest = Stop (Parsed values' args) -> arg = "--".
Proof.
  unfold step. destruct (String.eqb_spec arg "--") as [->|_]; [reflexivity|].
  destruct (String.prefix "--" arg).
  - intros H. apply process_long_stop in H. contradiction.
  - destruct (is_short_group arg); [|discriminate].
    intros H. apply process_short_stop in H. contradiction.
Qed.

(** A command line that parses, and has no [--] in it, is parsed the same
    way when more arguments follow. *)
Lemma process_args_app (suffix : list string) : forall pre values largs values' args,
  "--" ∉ pre ->
  process_args values largs pre = Parsed values' args ->
  process_args values largs (pre ++ suffix) = process_args values' args suffix.
Proof.
  intros pre.
  assert (Hgen : forall n pre, length pre <= n ->
            forall values largs values' args,
            "--" ∉ pre ->
            process_args values largs pre = Parsed values' args ->
            process_args values largs (pre ++ suffix)
            = process_args values' args suffix).
  { clear pre. induction n as [|n IH]; intros pre Hlen values largs values' args Hdd.
    - destruct pre; [|simpl in Hlen; lia]. simpl. intros [= <- <-]. reflexivity.
    - destruct pre as [|arg rest]; [simpl; intros [= <- <-]; reflexivity|].
      apply not_elem_of_cons in Hdd as [Harg Hrest]. simpl in Hlen.
      simpl. destruct (step values largs arg rest) as [r|v1 l1 taken] eqn:Hstep.
      + intros ->. apply step_stop_parsed in Hstep. congruence.
      + apply (step_next _ _ _ _ _ _ _ suffix) in Hstep as [Hstep Htaken].
        rewrite Hstep. destruct taken.
        * destruct rest as [|x rest']; [exfalso; apply Htaken; reflexivity|].
          apply not_elem_of_cons in Hrest as [_ Hrest'].
          simpl. apply IH; [simpl in Hlen; lia | exact Hrest'].
        * destruct (rest ++ suffix) eqn:Happ.
          -- apply app_eq_nil in Happ as [-> ->]. simpl.
             intros [= <- <-]. reflexivity.
          -- rewrite <- Happ. apply IH; [lia | exact Hrest]. }
  apply (Hgen (length pre)). lia.
Qed.

Lemma requires_argument (values : cli_values) (largs : list string) (opt : string) :
  opt ∈ ["-d"; "--datafiles"; "-m"; "--modelfile"] ->
  process_args values largs [opt] = ParseError (RequiresArgument opt).
Proof.
  intros Hopt.
  repeat (apply elem_of_cons in Hopt as [->|Hopt]; [reflexivity|]).
  inversion Hopt.
Qed.




(** ** The narrowband method with scattering *)

Lemma nu_fit_tau_not_local :
  bool_decide ("nu_fit_tau" ∈ narrowband_local_names) = false.
Proof. reflexivity. Qed.

Lemma rot_prof_not_local :
  bool_decide ("rot_prof" ∈ narrowband_local_names) = false.
Proof. reflexivity. Qed.

Lemma read_nu_fit_tau (locals globals : namespace) :
  globals !! "nu_fit_tau" = None ->
  load_name narrowband_local_names locals globals "nu_fit_tau"
  = Raise (NameError "nu_fit_tau").
Proof.
  intros Hg. unfold load_name. rewrite nu_fit_tau_not_local, Hg. reflexivity.
Qed.

Lemma narrowband_guess_raises w o locals d s :
  nb_fit_scat o = true -> nb_globals w !! "nu_fit_tau" = None ->
  narrowband_guess w o locals d s = Raise (NameError "nu_fit_tau").
Proof.
  intros Hscat Hg. unfold narrowband_guess. rewrite Hscat.
  rewrite (read_nu_fit_tau locals _ Hg).
  destruct (nb_scat_guess o) as [[[tau_guess_s tau_guess_ref] alpha_guess]|];
    [reflexivity|].
  destruct (self_gparams (nb_model_attrs w d s)) as [[gparams1 model_nu_ref]|];
    reflexivity.
Qed.

Lemma narrowband_subints_raises w o d toas subs :
  nb_fit_scat o = true -> nb_globals w !! "nu_fit_tau" = None ->
  narrowband_subints w o d toas subs
  = (toas, match subs with
           | [] => None
           | _ :: _ => Some (NameError "nu_fit_tau")
           end).
Proof.
  intros Hscat Hg. destruct subs as [|s rest]; simpl; [reflexivity|].
  rewrite (narrowband_guess_raises w o ∅ d s Hscat Hg). reflexivity.
Qed.

(** C10.  With [fit_scat] set, [nu_fit_tau] and [rot_prof] are not local
    names of the method, and unless the module's globals bind [nu_fit_tau]
    the guess construction of the first good subintegration of a loaded
    archive raises [NameError]; whatever the data files, the call adds no TOA
    record. *)
Theorem C10_narrowband_fit_scat_raises
    (w : narrowband_world) (o : narrowband_options) (toas : list TOA)
    (datafiles : list string) :
  nb_fit_scat o = true ->
  nb_globals w !! "nu_fit_tau" = None ->
  ("nu_fit_tau" ∉ narrowband_local_names) /\
  ("rot_prof" ∉ narrowband_local_names) /\
  fst (snd (get_narrowband_TOAs w o toas datafiles)) = toas /\
  (snd (snd (get_narrowband_TOAs w o toas datafiles)) = None \/
   snd (snd (get_narrowband_TOAs w o toas datafiles))
   = Some (NameError "nu_fit_tau")) /\
  ((exists f d, f ∈ datafiles /\ nb_load w f = Loaded d /\ ok_subints d <> []) ->
   snd (snd (get_narrowband_TOAs w o toas datafiles))
   = Some (NameError "nu_fit_tau")).
Proof.
  intros Hscat Hg.
  split; [apply (bool_decide_eq_false_1 _ nu_fit_tau_not_local)|].
  split; [apply (bool_decide_eq_false_1 _ rot_prof_not_local)|].
  induction datafiles as [|f rest IH]; simpl.
  - split; [reflexivity|]. split; [left; reflexivity|].
    intros (f & d & Hf & _). inversion Hf.
  - destruct IH as (IHtoas & IHexn & IHraise).
    assert (Hskip :
      forall r, (let '(tr, r') := get_narrowband_TOAs w o toas rest in
                 (LoadData f :: tr, r')) = r ->
      (forall d, nb_load w f = Loaded d -> ok_subints d = []) ->
      fst (snd r) = toas /\
      (snd (snd r) = None \/ snd (snd r) = Some (NameError "nu_fit_tau")) /\
      ((exists f' d, f' ∈ f :: rest /\ nb_load w f' = Loaded d /\ ok_subints d <> []) ->
       snd (snd r) = Some (NameError "nu_fit_tau"))).
    { intros r <- Hnone.
      destruct (get_narrowband_TOAs w o toas rest) as [tr [toas' e]]. simpl in *.
      split; [exact IHtoas|]. split; [exact IHexn|].
      intros (f' & d & Hf' & Hload & Hsubs).
      apply elem_of_cons in Hf' as [->|Hf'].
      - exfalso. apply Hsubs. apply Hnone. exact Hload.
      - apply IHraise. eauto. }
    destruct (nb_load w f) as [| |d] eqn:Hload.
    + apply Hskip; [reflexivity|]. intros d' [=].
    + apply Hskip; [reflexivity|]. intros d' [=].
    + rewrite (narrowband_subints_raises w o d toas (ok_subints d) Hscat Hg).
      destruct (ok_subints d) as [|s subs] eqn:Hsubs.
      * apply Hskip; [reflexivity|]. intros d' [= <-]. exact Hsubs.
      * simpl. split; [reflexivity|]. split; [right; reflexivity|].
        intros _. reflexivity.
Qed.

Lemma C10_narrowband_fit_scat_raises_witness :
  nb_fit_scat ex_narrowband_options = true /\
  nb_globals ex_narrowband_world !! "nu_fit_tau" = None /\
  fst (snd (get_narrowband_TOAs ex_narrowband_world ex_narrowband_options []
              ["a.fits"])) = [] /\
  snd (snd (get_narrowband_TOAs ex_narrowband_world ex_narrowband_options []
              ["a.fits"])) = Some (NameError "nu_fit_tau").
Proof.
  assert (Hscat : nb_fit_scat ex_narrowband_options = true) by reflexivity.
  assert (Hg : nb_globals ex_narrowband_world !! "nu_fit_tau" = None)
    by reflexivity.
  split; [exact Hscat|]. split; [exact Hg|].
  destruct (C10_narrowband_fit_scat_raises ex_narrowband_world
              ex_narrowband_options [] ["a.fits"] Hscat Hg)
    as (_ & _ & Htoas & _ & Hraise).
  split; [exact Htoas|]. apply Hraise.
  exists "a.fits", (ex_archive [ex_subint 0 4; ex_subint 1 4]).
  split; [left|]. split; [reflexivity | discriminate].
Defined.

(* ================================================================== *)
(** * Part III. Further properties                                     *)
(* ================================================================== *)

(** ** The base mask and the mask selection *)

(** X1.  The number of free parameters of the base mask is [self.nfit],
    except when [fix_alpha] is given without [fit_scat]: then [self.nfit]
    is one less than the number of free parameters. *)
Theorem X1_nfit_counts_free_parameters (o : options) :
  length (np_where (self_fit_flags o))
  = self_nfit o + (if fix_alpha o && negb (fit_scat o) then 1 else 0).
Proof.
  unfold self_fit_flags, self_fit_alpha, self_nfit, np_where.
  destruct (fit_DM o), (fit_GM o), (fit_scat o), (fix_alpha o); reflexivity.
Qed.

Lemma select_fit_flags_mask_for o (prev : list bool) nchx :
  length prev = 5 -> prev !! 0 = Some true ->
  exists mask, select_fit_flags o (Some prev) nchx = Ok mask /\ mask_for o nchx mask.
Proof.
  intros Hlen Hphi. unfold select_fit_flags.
  destruct (Nat.eqb_spec nchx 1) as [->|H1].
  - exists phase_only. split; [reflexivity|]. unfold mask_for, phase_only.
    repeat split; try reflexivity; try discriminate; intros; congruence.
  - destruct (Nat.eqb_spec nchx 2) as [->|H2]; simpl.
    + destruct (fit_DM o) eqn:HDM, (fit_GM o) eqn:HGM; simpl;
        try (exists (self_fit_flags o); split; [reflexivity|];
             unfold mask_for, self_fit_flags; rewrite ?HDM, ?HGM;
             repeat split; try reflexivity; try discriminate; intros; congruence).
      exists (<[2 := false]> prev). split.
      * apply setitem_Ok. split; [lia|reflexivity].
      * unfold mask_for. rewrite length_insert.
        split; [exact Hlen|]. split; [rewrite list_lookup_insert_ne by lia; exact Hphi|].
        split; [discriminate|]. split.
        -- intros _ _ _. apply list_lookup_insert_eq. lia.
        -- intros _ Hnot. exfalso. apply Hnot. auto.
    + exists (self_fit_flags o). split; [reflexivity|].
      unfold mask_for, self_fit_flags.
      repeat split; try reflexivity; intros; try congruence; contradiction.
Qed.

Lemma fit_flags_passed_bound o (prev : list bool) nchxs :
  length prev = 5 -> prev !! 0 = Some true ->
  exists masks, fit_flags_passed o (Some prev) nchxs = Ok masks /\
                Forall2 (mask_for o) nchxs masks.
Proof.
  revert prev. induction nchxs as [|nchx rest IH]; intros prev Hlen Hphi.
  - exists []. split; [reflexivity | constructor].
  - destruct (select_fit_flags_mask_for o prev nchx Hlen Hphi) as (mask & Hsel & Hmask).
    destruct (IH mask) as (masks & Hrest & Hall);
      [apply Hmask | apply Hmask |].
    exists (mask :: masks). split.
    + simpl. rewrite Hsel. simpl. rewrite Hrest. reflexivity.
    + constructor; assumption.
Qed.

(** X2.  The mask selection of a call raises exactly when DM and GM are both
    requested and the first subintegration processed has two good channels:
    the local [fit_flags] is then read before any assignment.  In every
    other case a mask is passed for every subintegration. *)
Theorem X2_mask_selection_raises_only_at_the_start (o : options) (nchxs : list nat) :
  match nchxs with
  | 2 :: _ =>
      if fit_DM o && fit_GM o then
        fit_flags_passed o None nchxs = Raise (UnboundLocalError "fit_flags")
      else exists masks, fit_flags_passed o None nchxs = Ok masks
  | _ => exists masks, fit_flags_passed o None nchxs = Ok masks
  end.
Proof.
  assert (Hgo : forall nchx rest mask,
            select_fit_flags o None nchx = Ok mask ->
            length mask = 5 -> mask !! 0 = Some true ->
            exists masks, fit_flags_passed o None (nchx :: rest) = Ok masks).
  { intros nchx rest mask Hsel Hlen Hphi.
    destruct (fit_flags_passed_bound o mask rest Hlen Hphi) as (masks & Hrest & _).
    exists (mask :: masks). simpl. rewrite Hsel. simpl. rewrite Hrest. reflexivity. }
  destruct nchxs as [|nchx rest]; [exists []; reflexivity|].
  destruct nchx as [|[|[|n]]].
  - apply (Hgo 0 rest (self_fit_flags o)); reflexivity.
  - apply (Hgo 1 rest phase_only); reflexivity.
  - destruct (fit_DM o) eqn:HDM, (fit_GM o) eqn:HGM; simpl;
      try (apply (Hgo 2 rest (self_fit_flags o));
           [unfold select_fit_flags; rewrite HDM, HGM; reflexivity
           | reflexivity | reflexivity]).
    unfold select_fit_flags. rewrite HDM, HGM. reflexivity.
  - apply (Hgo (S (S (S n))) rest (self_fit_flags o)); reflexivity.
Qed.

(** X3.  Whenever the masks of a call are all selected, each has five
    entries with phi free; a one-channel subintegration gets the phase-only
    mask, a two-channel one with DM and GM requested has GM off, and every
    other subintegration gets the base mask. *)
Theorem X3_masks_passed (o : options) (nchxs : list nat) (masks : list (list bool)) :
  fit_flags_passed o None nchxs = Ok masks ->
  Forall2 (mask_for o) nchxs masks.
Proof.
  destruct nchxs as [|nchx rest]; simpl.
  - intros [= <-]. constructor.
  - intros H. apply rbind_Ok in H as (mask & Hsel & H).
    apply rbind_Ok in H as (masks' & Hrest & H). injection H as <-.
    assert (Hmask : mask_for o nchx mask).
    { unfold select_fit_flags in Hsel.
      destruct (Nat.eqb_spec nchx 1) as [->|H1].
      - injection Hsel as <-. unfold mask_for, phase_only.
        repeat split; try reflexivity; try discriminate; intros; congruence.
      - destruct ((nchx =? 2) && fit_DM o && fit_GM o) eqn:Hc; [discriminate|].
        injection Hsel as <-. unfold mask_for, self_fit_flags.
        split; [reflexivity|]. split; [reflexivity|].
        split; [intros; contradiction|]. split; [|reflexivity].
        intros -> HDM HGM. rewrite HDM, HGM in Hc. discriminate. }
    destruct (fit_flags_passed_bound o mask rest) as (masks'' & Hrest' & Hall);
      [apply Hmask | apply Hmask |].
    rewrite Hrest in Hrest'. injection Hrest' as <-.
    constructor; assumption.
Qed.

Lemma X3_masks_passed_witness :
  fit_flags_passed opts_DM_GM None [3; 2; 1]
  = Ok [[true; true; true; false; false]; [true; true; false; false; false];
        [true; false; false; false; false]]
  /\ Forall2 (mask_for opts_DM_GM) [3; 2; 1]
       [[true; true; true; false; false]; [true; true; false; false; false];
        [true; false; false; false; false]].
Proof.
  assert (H : fit_flags_passed opts_DM_GM None [3; 2; 1]
              = Ok [[true; true; true; false; false];
                    [true; true; false; false; false];
                    [true; false; false; false; false]]) by reflexivity.
  split; [exact H|]. exact (X3_masks_passed _ _ _ H).
Defined.

(** ** The flags and the record of one subintegration *)

Lemma elem_of_list_cases {A : Type} (P : A -> Prop) (l : list A) :
  Forall P l -> forall x, x ∈ l -> P x.
Proof. intros H x Hx. rewrite Forall_forall in H. exact (H x Hx). Qed.

(** X4.  The caller's additional flags are applied last: a key the caller
    supplies is on the record with the caller's value (that of its last
    occurrence), whether or not the pipeline computed a flag of that name. *)
Theorem X4_caller_flags_win fit o modelfile d st s st' :
  process_subint fit o modelfile d st s = Ok st' ->
  exists toa,
    TOA_list st' = TOA_list st ++ [toa] /\
    forall k v, last_binding (addtnl_toa_flags o) k = Some v ->
                TOA_flags toa !! k = Some v.
Proof.
  intros H.
  apply process_subint_record in H as (ff & r' & df & toa & _ & _ & HL & Hfl).
  exists toa. split; [exact HL|]. intros k v Hk.
  unfold compile_toa_flags in Hfl.
  apply rbind_Ok in Hfl as (f2 & _ & Hfl).
  apply rbind_Ok in Hfl as (f3 & _ & Hfl).
  apply rbind_Ok in Hfl as (f4 & _ & Hfl).
  apply rbind_Ok in Hfl as (fmax & _ & Hfl).
  apply rbind_Ok in Hfl as (fmin & _ & Hfl).
  apply rbind_Ok in Hfl as (tf & _ & Hfl).
  injection Hfl as <-. rewrite fold_insert_lookup, Hk. reflexivity.
Qed.

Lemma X4_caller_flags_win_witness :
  (let d := ex_archive [ex_subint 0 4] in
   process_subint ex_fit opts_caller_flags "m.gmodel" d
     (ex_state d opts_caller_flags) (ex_subint 0 4) = Ok ex_after_caller_flags) /\
  exists toa,
    TOA_list ex_after_caller_flags = [toa] /\
    TOA_flags toa !! "pta" = Some (FStr "NANOGrav") /\
    TOA_flags toa !! "snr" = Some (FStr "high").
Proof.
  assert (H : process_subint ex_fit opts_caller_flags "m.gmodel"
                (ex_archive [ex_subint 0 4])
                (ex_state (ex_archive [ex_subint 0 4]) opts_caller_flags)
                (ex_subint 0 4) = Ok ex_after_caller_flags) by reflexivity.
  split; [exact H|].
  destruct (X4_caller_flags_win _ _ _ _ _ _ _ H) as (toa & HL & Hk).
  exists toa. split; [exact HL|]. split; apply Hk; reflexivity.
Defined.

(** X5.  Every record carries the fourteen standard keys; unless the caller
    overrides them, [nchx] is the number of good channels of the
    subintegration, [subint] its index and [tmplt] the model file. *)
Theorem X5_standard_keys_present fit o modelfile d st s st' :
  process_subint fit o modelfile d st s = Ok st' ->
  exists toa,
    TOA_list st' = TOA_list st ++ [toa] /\
    (forall k, k ∈ standard_keys -> is_Some (TOA_flags toa !! k)) /\
    (last_binding (addtnl_toa_flags o) "nchx" = None ->
     TOA_flags toa !! "nchx" = Some (FInt (length (freqsx s)))) /\
    (last_binding (addtnl_toa_flags o) "subint" = None ->
     TOA_flags toa !! "subint" = Some (FInt (isub s))) /\
    (last_binding (addtnl_toa_flags o) "tmplt" = None ->
     TOA_flags toa !! "tmplt" = Some (FStr modelfile)).
Proof.
  intros H.
  apply process_subint_record in H as (ff & r' & df & toa & _ & _ & HL & Hfl).
  exists toa. split; [exact HL|].
  unfold compile_toa_flags in Hfl.
  apply rbind_Ok in Hfl as (f2 & _ & Hfl).
  apply rbind_Ok in Hfl as (f3 & _ & Hfl).
  apply rbind_Ok in Hfl as (f4 & _ & Hfl).
  apply rbind_Ok in Hfl as (fmax & _ & Hfl).
  apply rbind_Ok in Hfl as (fmin & _ & Hfl).
  apply rbind_Ok in Hfl as (tf & Htf & Hfl).
  injection Hfl as <-.
  destruct (is_not_None (nu_ref_DM o) && forallb (fun b => b) (take 2 ff)).
  - apply rbind_Ok in Htf as (c & _ & Htf). injection Htf as <-.
    split; [|repeat split]; try (intros Hk; rewrite fold_insert_lookup, Hk; flag_lookup).
    apply elem_of_list_cases. unfold standard_keys.
    repeat constructor; rewrite fold_insert_lookup;
      (destruct (last_binding _ _); [eauto|]); flag_lookup; eauto.
  - injection Htf as <-.
    split; [|repeat split]; try (intros Hk; rewrite fold_insert_lookup, Hk; flag_lookup).
    apply elem_of_list_cases. unfold standard_keys.
    repeat constructor; rewrite fold_insert_lookup;
      (destruct (last_binding _ _); [eauto|]); flag_lookup; eauto.
Qed.

Lemma X5_standard_keys_present_witness :
  (let d := ex_archive [ex_subint 0 4] in
   process_subint ex_fit opts_default "m.gmodel" d (ex_state d opts_default)
     (ex_subint 0 4) = Ok ex_after_default) /\
  exists toa,
    TOA_list ex_after_default = [toa] /\
    is_Some (TOA_flags toa !! "gof") /\
    TOA_flags toa !! "nchx" = Some (FInt 4) /\
    TOA_flags toa !! "tmplt" = Some (FStr "m.gmodel").
Proof.
  assert (H : process_subint ex_fit opts_default "m.gmodel"
                (ex_archive [ex_subint 0 4])
                (ex_state (ex_archive [ex_subint 0 4]) opts_default)
                (ex_subint 0 4) = Ok ex_after_default) by reflexivity.
  split; [exact H|].
  destruct (X5_standard_keys_present _ _ _ _ _ _ _ H)
    as (toa & HL & Hkeys & Hnchx & _ & Htmplt).
  exists toa. split; [exact HL|]. split; [|split].
  - apply Hkeys. unfold standard_keys. set_solver.
  - apply Hnchx. reflexivity.
  - apply Htmplt. reflexivity.
Defined.

(** X6.  A subintegration with exactly one good channel yields a phase-only
    record, whatever was requested: the record has no DM and no DM error,
    none of the keys that report GM, scattering or the phase-DM covariance
    unless the caller supplies them, and the stored DM and GM are the fit
    engine's values without Doppler correction. *)
Theorem X6_one_channel_record fit o modelfile d st s st' :
  length (freqsx s) = 1 ->
  process_subint fit o modelfile d st s = Ok st' ->
  exists toa,
    TOA_list st' = TOA_list st ++ [toa] /\
    local_fit_flags st' = Some phase_only /\
    TOA_DM toa = None /\ TOA_DM_error toa = None /\
    (forall k, k ∈ fit_dependent_keys ->
       TOA_flags toa !! k = last_binding (addtnl_toa_flags o) k) /\
    DMs (arrs st') !! isub s = Some (DM (fit o s phase_only)) /\
    GMs (arrs st') !! isub s = Some (GM (fit o s phase_only)).
Proof.
  intros Hone H.
  apply process_subint_Ok in H
    as (ff & r' & df & cov & flags & f1 & Hff & Hdop & _ & Hfl & Hf1 & HlD & HlG
        & _ & Hloc & HD & _ & HG & _ & _ & _ & _ & HL).
  rewrite Hone in Hff. injection Hff as <-.
  change [true; false; false; false; false] with phase_only in *.
  injection Hf1 as <-.
  assert (Hr : r' = fit o s phase_only).
  { destruct (bary o).
    - apply doppler_correction_bary in Hdop as (g1 & g2 & Hg1 & Hg2 & _ & ->).
      injection Hg1 as <-. injection Hg2 as <-. reflexivity.
    - rewrite doppler_correction_topo in Hdop. injection Hdop as <- _. reflexivity. }
  eexists. split; [exact HL|]. simpl.
  split; [exact Hloc|]. split; [reflexivity|]. split; [reflexivity|].
  split; [|rewrite HD, HG, !list_lookup_insert_eq, Hr by assumption; split; reflexivity].
  unfold compile_toa_flags in Hfl. simpl in Hfl.
  apply rbind_Ok in Hfl as (fmax & _ & Hfl).
  apply rbind_Ok in Hfl as (fmin & _ & Hfl).
  rewrite andb_false_r in Hfl. simpl in Hfl.
  injection Hfl as <-.
  apply elem_of_list_cases. unfold fit_dependent_keys.
  repeat constructor; rewrite fold_insert_lookup;
    (destruct (last_binding _ _); [reflexivity|]); flag_lookup.
Qed.

Lemma X6_one_channel_record_witness :
  length (freqsx (ex_subint 0 1)) = 1 /\
  (let d := ex_archive [ex_subint 0 1] in
   process_subint ex_fit opts_all_requested "m.gmodel" d
     (ex_state d opts_all_requested) (ex_subint 0 1) = Ok ex_after_one_channel) /\
  exists toa,
    TOA_list ex_after_one_channel = [toa] /\
    TOA_DM toa = None /\
    TOA_flags toa !! "gm" = None /\
    TOA_flags toa !! "scat_time" = None /\
    TOA_flags toa !! "phi_DM_cov" = None.
Proof.
  assert (Hone : length (freqsx (ex_subint 0 1)) = 1) by reflexivity.
  assert (H : process_subint ex_fit opts_all_requested "m.gmodel"
                (ex_archive [ex_subint 0 1])
                (ex_state (ex_archive [ex_subint 0 1]) opts_all_requested)
                (ex_subint 0 1) = Ok ex_after_one_channel) by reflexivity.
  split; [exact Hone|]. split; [exact H|].
  destruct (X6_one_channel_record _ _ _ _ _ _ _ Hone H)
    as (toa & HL & _ & HDM & _ & Hkeys & _).
  exists toa. split; [exact HL|]. split; [exact HDM|].
  repeat split; rewrite Hkeys; try reflexivity; unfold fit_dependent_keys; set_solver.
Defined.

(** ** The archive-level aggregation *)

Lemma take_indices_in_range {A : Type} (a : list A) (idx : list nat) :
  (forall i, i ∈ idx -> i < length a) -> exists xs, take_indices a idx = Ok xs.
Proof.
  induction idx as [|i idx IH]; intros Hin.
  - exists []. reflexivity.
  - destruct (lookup_lt_is_Some_2 a i) as [x Hx]; [apply Hin; left|].
    destruct IH as [xs Hxs]; [intros j Hj; apply Hin; right; exact Hj|].
    exists (x :: xs). simpl. unfold getitem. rewrite Hx. simpl. rewrite Hxs.
    reflexivity.
Qed.

Lemma take_indices_out_of_range {A : Type} (a : list A) (idx : list nat) :
  (exists i, i ∈ idx /\ length a <= i) -> take_indices a idx = Raise IndexError.
Proof.
  induction idx as [|i idx IH]; intros (j & Hj & Hout).
  - inversion Hj.
  - simpl. unfold getitem. destruct (a !! i) as [x|] eqn:Hx; [|reflexivity].
    simpl. rewrite IH; [reflexivity|].
    apply elem_of_cons in Hj as [->|Hj]; [|eauto].
    apply lookup_lt_Some in Hx. lia.
Qed.

(** X7.  The aggregation returns a result exactly when there is at least one
    good subintegration and every index lies within the arrays; with none it
    raises [ZeroDivisionError] (the weights sum to zero), and an index
    outside the arrays raises [IndexError]. *)
Theorem X7_aggregate_DM_outcomes
    (DM0 : R) (DMs DM_errs : list R) (ok_isubs : list nat) :
  length DMs = length DM_errs ->
  (ok_isubs = [] ->
   aggregate_DM DM0 DMs DM_errs ok_isubs = Raise ZeroDivisionError) /\
  ((exists i, i ∈ ok_isubs /\ length DMs <= i) ->
   aggregate_DM DM0 DMs DM_errs ok_isubs = Raise IndexError) /\
  (ok_isubs <> [] -> (forall i, i ∈ ok_isubs -> i < length DMs) ->
   exists mean err, aggregate_DM DM0 DMs DM_errs ok_isubs = Ok (mean, err)).
Proof.
  intros Hlen. split; [|split].
  - intros ->. unfold aggregate_DM, np_average. simpl.
    destruct (Req_dec_T 0 0) as [_|Hne]; [reflexivity|contradiction].
  - intros Hout. unfold aggregate_DM.
    rewrite take_indices_out_of_range; [reflexivity|].
    rewrite <- Hlen. exact Hout.
  - intros Hne Hin.
    destruct (take_indices_in_range DMs ok_isubs Hin) as [dms Hdms].
    destruct (take_indices_in_range DM_errs ok_isubs) as [errs Herrs];
      [rewrite <- Hlen; exact Hin|].
    destruct (aggregate_DM_runs DM0 _ _ _ _ _ Hne Hdms Herrs) as [_ Hrun].
    eexists _, _. exact Hrun.
Qed.

Lemma X7_aggregate_DM_outcomes_witness :
  length [11; 9]%R = length [0.5; 0.5]%R /\
  aggregate_DM 10 [11; 9]%R [0.5; 0.5]%R [] = Raise ZeroDivisionError /\
  aggregate_DM 10 [11; 9]%R [0.5; 0.5]%R [0; 2] = Raise IndexError /\
  exists mean err, aggregate_DM 10 [11; 9]%R [0.5; 0.5]%R [0; 1] = Ok (mean, err).
Proof.
  assert (Hlen : length [11; 9]%R = length [0.5; 0.5]%R) by reflexivity.
  destruct (X7_aggregate_DM_outcomes 10 [11; 9]%R [0.5; 0.5]%R [] Hlen)
    as (Hempty & _ & _).
  destruct (X7_aggregate_DM_outcomes 10 [11; 9]%R [0.5; 0.5]%R [0; 2] Hlen)
    as (_ & Hout & _).
  destruct (X7_aggregate_DM_outcomes 10 [11; 9]%R [0.5; 0.5]%R [0; 1] Hlen)
    as (_ & _ & Hok).
  split; [exact Hlen|]. split; [apply Hempty; reflexivity|]. split.
  - apply Hout. exists 2. split; [set_solver | simpl; lia].
  - apply Hok; [discriminate|]. intros i Hi. simpl.
    repeat (apply elem_of_cons in Hi as [->|Hi]; [lia|]). inversion Hi.
Defined.

Lemma take_indices_Ok_range {A : Type} (a : list A) (idx : list nat) xs :
  take_indices a idx = Ok xs -> forall i, i ∈ idx -> i < length a.
Proof.
  revert xs. induction idx as [|j idx IH]; intros xs H i Hi.
  - inversion Hi.
  - simpl in H. apply rbind_Ok in H as (x & Hx & H).
    apply rbind_Ok in H as (xs' & Hxs & _).
    apply getitem_Ok, lookup_lt_Some in Hx.
    apply elem_of_cons in Hi as [->|Hi]; [exact Hx | exact (IH _ Hxs i Hi)].
Qed.

Lemma Rsum_shift (c : R) (xs ws : list R) :
  length xs = length ws ->
  Rsum (zip_with Rmult (map (fun x => (x - c)%R) xs) ws)
  = (Rsum (zip_with Rmult xs ws) - c * Rsum ws)%R.
Proof.
  revert ws. induction xs as [|x xs IH]; intros [|w ws] Hlen; simpl in *;
    try discriminate.
  - ring.
  - rewrite IH by lia. ring.
Qed.

(** X8.  The choice of the baseline DM only shifts the mean offset: with
    another baseline the mean changes by the difference of the baselines,
    so [DeltaDM_mean + DM0] is the same, and the uncertainty is unchanged. *)
Theorem X8_baseline_DM_only_shifts_the_mean
    (DM0 DM0' : R) (DMs DM_errs : list R) (ok_isubs : list nat) (mean err : R) :
  aggregate_DM DM0 DMs DM_errs ok_isubs = Ok (mean, err) ->
  aggregate_DM DM0' DMs DM_errs ok_isubs = Ok ((mean + DM0 - DM0')%R, err).
Proof.
  intros H.
  assert (Hne : ok_isubs <> []).
  { intros ->. unfold aggregate_DM, np_average in H. simpl in H.
    destruct (Req_dec_T 0 0); [discriminate|contradiction]. }
  assert (Hinv := H). unfold aggregate_DM in Hinv.
  apply rbind_Ok in Hinv as (errs & Herrs & Hinv).
  apply rbind_Ok in Hinv as (dd & Hdd & _).
  destruct (take_indices_in_range DMs ok_isubs) as [dms Hdms].
  { intros i Hi. apply (take_indices_Ok_range _ _ _ Hdd) in Hi.
    rewrite length_map in Hi. exact Hi. }
  destruct (aggregate_DM_runs DM0 _ _ _ _ _ Hne Hdms Herrs) as [Hsum Hrun].
  destruct (aggregate_DM_runs DM0' _ _ _ _ _ Hne Hdms Herrs) as [_ Hrun'].
  rewrite Hrun in H. injection H as Hmean Herr.
  rewrite Hrun'. clear Hrun Hrun'.
  assert (Hlen : length dms = length (spec_weights errs)).
  { rewrite spec_weights_length, (take_indices_length _ _ _ Hdms),
      (take_indices_length _ _ _ Herrs). reflexivity. }
  set (ws := spec_weights errs) in *.
  assert (Hshift :
    (Rsum (zip_with Rmult (map (fun x => x - DM0') dms) ws) / Rsum ws
     = mean + DM0 - DM0')%R).
  { rewrite <- Hmean, !Rsum_shift by exact Hlen. field. lra. }
  rewrite Hshift. f_equal. f_equal. rewrite <- Herr. f_equal.
  rewrite !length_map.
  assert (Hres :
    map (fun x => ((x - (mean + DM0 - DM0')) ^ 2)%R) (map (fun x => (x - DM0')%R) dms)
    = map (fun x => ((x - mean) ^ 2)%R) (map (fun x => (x - DM0)%R) dms)).
  { rewrite !map_map. apply map_ext. intros x. ring. }
  rewrite Hres, Hmean. reflexivity.
Qed.

Lemma X8_baseline_DM_only_shifts_the_mean_witness :
  exists mean err,
    aggregate_DM 10 [11; 9]%R [0.5; 0.5]%R [0; 1] = Ok (mean, err) /\
    aggregate_DM 0 [11; 9]%R [0.5; 0.5]%R [0; 1] = Ok ((mean + 10 - 0)%R, err).
Proof.
  destruct (aggregate_DM_runs 10 [11; 9]%R [0.5; 0.5]%R [0; 1] [11; 9]%R
              [0.5; 0.5]%R) as [_ Hrun]; [discriminate | reflexivity | reflexivity |].
  eexists _, _. split; [exact Hrun|].
  exact (X8_baseline_DM_only_shifts_the_mean 10 0 _ _ _ _ _ Hrun).
Defined.

(** ** One archive *)

Lemma compile_toa_flags_subint o modelfile d s (ff : list bool) r df flags :
  compile_toa_flags o modelfile d s ff r df = Ok flags ->
  last_binding (addtnl_toa_flags o) "subint" = None ->
  flags !! "subint" = Some (FInt (isub s)).
Proof.
  unfold compile_toa_flags. intros Hfl Hk.
  apply rbind_Ok in Hfl as (f2 & _ & Hfl).
  apply rbind_Ok in Hfl as (f3 & _ & Hfl).
  apply rbind_Ok in Hfl as (f4 & _ & Hfl).
  apply rbind_Ok in Hfl as (fmax & _ & Hfl).
  apply rbind_Ok in Hfl as (fmin & _ & Hfl).
  apply rbind_Ok in Hfl as (tf & Htf & Hfl).
  injection Hfl as <-.
  destruct (is_not_None (nu_ref_DM o) && forallb (fun b => b) (take 2 ff));
    [apply rbind_Ok in Htf as (c & _ & Htf)|]; injection Htf as <-;
    rewrite fold_insert_lookup, Hk; flag_lookup.
Qed.

Lemma process_subint_shape fit o modelfile d st s st' :
  process_subint fit o modelfile d st s = Ok st' ->
  (exists toa, TOA_list st' = TOA_list st ++ [toa] /\
               record_of_subint fit o d s toa) /\
  isub s < length (DMs (arrs st)) /\
  length (DMs (arrs st')) = length (DMs (arrs st)) /\
  length (DM_errs (arrs st')) = length (DM_errs (arrs st)) /\
  length (covariances (arrs st')) = length (covariances (arrs st)).
Proof.
  intros H. apply process_subint_Ok in H
    as (ff & r' & df & cov & flags & f1 & _ & _ & _ & Hfl & _ & HlD & _ & _
        & _ & HD & HDe & _ & HC & _ & _ & _ & HL).
  split.
  - eexists. split; [exact HL|]. unfold record_of_subint. simpl.
    split; [reflexivity|]. split; [reflexivity|]. split; [reflexivity|].
    split; [exists ff; split; reflexivity|].
    apply (compile_toa_flags_subint _ _ _ _ _ _ _ _ Hfl).
  - split; [exact HlD|].
    rewrite HD, HDe, HC, !length_insert. repeat split.
Qed.

Lemma subint_loop_shape fit o modelfile d subs :
  forall st st',
  foldM (process_subint fit o modelfile d) st subs = Ok st' ->
  (exists recs, TOA_list st' = TOA_list st ++ recs /\
                Forall2 (record_of_subint fit o d) subs recs) /\
  Forall (fun s => isub s < length (DMs (arrs st))) subs /\
  length (DMs (arrs st')) = length (DMs (arrs st)) /\
  length (DM_errs (arrs st')) = length (DM_errs (arrs st)) /\
  length (covariances (arrs st')) = length (covariances (arrs st)).
Proof.
  induction subs as [|s subs IH]; intros st st' H; simpl in H.
  - injection H as <-. split; [exists []; rewrite app_nil_r; split; [reflexivity|constructor]|].
    split; [constructor|]. repeat split.
  - apply rbind_Ok in H as (st1 & Hs & H).
    apply process_subint_shape in Hs as ((toa & HL & Hrec) & Hi & HD & HDe & HC).
    apply IH in H as ((recs & HL' & Hrecs) & Hall & HD' & HDe' & HC').
    split; [exists (toa :: recs); split; [|constructor; assumption]|].
    { rewrite HL', HL, <- app_assoc. reflexivity. }
    split; [constructor; [exact Hi | rewrite HD in Hall; exact Hall]|].
    rewrite HD', HDe', HC'. repeat split; assumption.
Qed.

(** X9.  A successfully processed archive adds exactly one record per good
    subintegration, after the records already accumulated and in the order
    of the subintegrations: the i-th new record names the archive and its
    telescope, carries the TOA and uncertainty computed from the epoch and
    period of the i-th good subintegration and, unless the caller overrides
    it, that subintegration's index as its [subint] flag.  Every good
    subintegration's index lies below [nsub], and the per-archive arrays
    keep [nsub] entries. *)
Theorem X9_one_record_per_good_subintegration
    fit o modelfile fit_flags toas d fit_flags' toas' summary :
  process_archive fit o modelfile fit_flags toas d
  = Ok (fit_flags', toas', summary) ->
  (exists recs, toas' = toas ++ recs /\
                Forall2 (record_of_subint fit o d) (ok_subints d) recs) /\
  Forall (fun s => isub s < nsub d) (ok_subints d) /\
  length (DMs (sum_arrays summary)) = nsub d /\
  length (DM_errs (sum_arrays summary)) = nsub d /\
  length (covariances (sum_arrays summary)) = nsub d.
Proof.
  unfold process_archive. intros H.
  apply rbind_Ok in H as (st & Hloop & H).
  apply rbind_Ok in H as ([mean err] & _ & H).
  injection H as _ <- <-. simpl.
  apply subint_loop_shape in Hloop as (Hrecs & Hall & HD & HDe & HC).
  simpl in *. rewrite !length_replicate in *.
  repeat split; assumption.
Qed.

Lemma ex_two_subints_runs :
  exists r, process_archive ex_fit opts_default "m.gmodel" None [] ex_two_subints = Ok r.
Proof.
  assert (Hloop : foldM (process_subint ex_fit opts_default "m.gmodel" ex_two_subints)
                    (ex_state ex_two_subints opts_default)
                    (ok_subints ex_two_subints) = Ok ex_after_loop) by reflexivity.
  destruct (aggregate_DM_runs 10 (DMs (arrs ex_after_loop))
              (DM_errs (arrs ex_after_loop)) [0; 1]
              [(10 * 1.0001)%R; (10 * 1.0001)%R] [0.01; 0.01]%R)
    as [_ Hagg]; [discriminate | reflexivity | reflexivity |].
  unfold process_archive.
  change (ex_state ex_two_subints opts_default)
    with {| local_fit_flags := None; arrs := init_arrays opts_default ex_two_subints;
            TOA_list := [] |} in Hloop.
  rewrite Hloop. cbn [rbind].
  change (match DM0 opts_default with
          | Some x => x
          | None => DM_stored ex_two_subints
          end) with 10%R.
  change (map isub (ok_subints ex_two_subints)) with [0; 1].
  rewrite Hagg. cbn [rbind]. eexists. reflexivity.
Qed.

Lemma X9_one_record_per_good_subintegration_witness :
  exists fit_flags' toas' summary,
    process_archive ex_fit opts_default "m.gmodel" None [] ex_two_subints
    = Ok (fit_flags', toas', summary) /\
    (exists toa0 toa1,
       toas' = [toa0; toa1] /\
       TOA_flags toa0 !! "subint" = Some (FInt 0) /\
       TOA_flags toa1 !! "subint" = Some (FInt 1)) /\
    length (DMs (sum_arrays summary)) = 2.
Proof.
  destruct ex_two_subints_runs as [[[ff' toas'] summary] Hrun].
  exists ff', toas', summary. split; [exact Hrun|].
  destruct (X9_one_record_per_good_subintegration _ _ _ _ _ _ _ _ _ Hrun)
    as ((recs & -> & Hrecs) & _ & HD & _).
  split; [|exact HD].
  change (ok_subints ex_two_subints) with [ex_subint 0 4; ex_subint 1 4] in Hrecs.
  apply Forall2_cons_inv_l in Hrecs as (toa0 & recs' & H0 & Hrecs & ->).
  apply Forall2_cons_inv_l in Hrecs as (toa1 & recs'' & H1 & Hrecs & ->).
  apply Forall2_nil_inv_l in Hrecs as ->.
  exists toa0, toa1. split; [reflexivity|].
  destruct H0 as (_ & _ & _ & _ & H0), H1 as (_ & _ & _ & _ & H1).
  split; [apply H0 | apply H1]; reflexivity.
Defined.

(** ** The loop over the data files *)

(** X10.  A data file that does not load, is skipped, or has no good
    subintegration has no effect on the outcome: the call ends as it would
    on the list of the usable data files alone. *)
Theorem X10_unusable_archives_are_skipped
    (load : string -> load_outcome) (fit : fit_engine) (o : options)
    (datafiles : list string) :
  forall fit_flags gt,
  snd (get_TOAs_loop load fit o fit_flags gt datafiles)
  = snd (get_TOAs_loop load fit o fit_flags gt (List.filter (usable load) datafiles)).
Proof.
  induction datafiles as [|f rest IH]; intros fit_flags gt; [reflexivity|].
  cbn [List.filter]. rewrite get_TOAs_loop_cons, pbind_emit. cbn [snd].
  destruct (usable load f) eqn:Hu; [|apply IH].
  rewrite get_TOAs_loop_cons, pbind_emit, Hu. cbn [snd].
  destruct (load f) as [| |d]; [apply IH | apply IH |].
  destruct (process_archive fit o (self_modelfile gt) fit_flags (self_TOA_list gt) d)
    as [[[fit_flags' toas] summary]|e]; [apply IH | reflexivity].
Qed.

Lemma get_TOAs_loop_returns load fit o datafiles :
  forall fit_flags gt tr gt',
  get_TOAs_loop load fit o fit_flags gt datafiles = (tr, Returns gt') ->
  tr = map LoadData datafiles /\
  self_datafiles gt' = self_datafiles gt /\
  self_modelfile gt' = self_modelfile gt /\
  (exists recs, self_TOA_list gt' = self_TOA_list gt ++ recs) /\
  exists means errs,
    self_DeltaDM_means gt' = self_DeltaDM_means gt ++ means /\
    self_DeltaDM_errs gt' = self_DeltaDM_errs gt ++ errs /\
    length means = length (List.filter (usable load) datafiles) /\
    length errs = length (List.filter (usable load) datafiles).
Proof.
  induction datafiles as [|f rest IH]; intros fit_flags gt tr gt' H.
  - injection H as <- <-. repeat split; try (exists []; rewrite app_nil_r; reflexivity).
    exists [], []. rewrite !app_nil_r. repeat split.
  - rewrite get_TOAs_loop_cons, pbind_emit in H. cbn [List.filter].
    destruct (usable load f) eqn:Hu.
    + destruct (load f) as [| |d] eqn:Hload; try (unfold usable in Hu; rewrite Hload in Hu; discriminate).
      destruct (process_archive fit o (self_modelfile gt) fit_flags (self_TOA_list gt) d)
        as [[[fit_flags' toas] summary]|e] eqn:Harch; [|discriminate].
      destruct (get_TOAs_loop load fit o fit_flags' _ rest) as [tr' out'] eqn:Hrest.
      injection H as <- ->.
      apply IH in Hrest as (-> & Hd & Hm & (recs & HL) & means & errs & HM & HE & Hlm & Hle).
      simpl in *.
      assert (Hprefix : exists recs0, toas = self_TOA_list gt ++ recs0).
      { unfold process_archive in Harch.
        apply rbind_Ok in Harch as (st & Hloop & Harch).
        apply rbind_Ok in Harch as ([mean err] & _ & Harch).
        injection Harch as _ <- _.
        apply subint_loop_shape in Hloop as ((recs0 & HL0 & _) & _). eauto. }
      destruct Hprefix as (recs0 & ->).
      split; [reflexivity|]. split; [exact Hd|]. split; [exact Hm|].
      split; [exists (recs0 ++ recs); rewrite HL, app_assoc; reflexivity|].
      exists (DeltaDM_mean summary :: means), (DeltaDM_err summary :: errs).
      rewrite HM, HE, <- !app_assoc. simpl. repeat split; f_equal; assumption.
    + destruct (get_TOAs_loop load fit o fit_flags gt rest) as [tr' out'] eqn:Hrest.
      simpl in H. injection H as <- ->.
      apply IH in Hrest as (-> & Hrest). split; [reflexivity | exact Hrest].
Qed.

(** X11.  When [get_TOAs] returns, the object keeps its data files and
    model file; the TOA list is the former list with records appended; and
    the lists of mean DM offsets and of their uncertainties each gained one
    entry per usable data file. *)
Theorem X11_get_TOAs_accumulates
    (load : string -> load_outcome) (fit : fit_engine) (o : options)
    (gt gt' : GetTOAs) :
  snd (get_TOAs load fit o gt) = Returns gt' ->
  self_datafiles gt' = self_datafiles gt /\
  self_modelfile gt' = self_modelfile gt /\
  (exists recs, self_TOA_list gt' = self_TOA_list gt ++ recs) /\
  exists means errs,
    self_DeltaDM_means gt' = self_DeltaDM_means gt ++ means /\
    self_DeltaDM_errs gt' = self_DeltaDM_errs gt ++ errs /\
    length means = length (List.filter (usable load) (self_datafiles gt)) /\
    length errs = length (List.filter (usable load) (self_datafiles gt)).
Proof.
  unfold get_TOAs. intros H.
  destruct (get_TOAs_loop load fit o None gt (self_datafiles gt)) as [tr out] eqn:Hrun.
  simpl in H. subst out.
  apply get_TOAs_loop_returns in Hrun as (_ & Hrun). exact Hrun.
Qed.

Lemma X11_get_TOAs_accumulates_witness :
  exists gt',
    snd (get_TOAs ex_load_one ex_fit opts_default ex_GetTOAs) = Returns gt' /\
    self_datafiles gt' = ["a.fits"; "b.fits"] /\
    length (self_DeltaDM_means gt') = 1 /\
    length (self_DeltaDM_errs gt') = 1.
Proof.
  destruct ex_two_subints_runs as [[[ff' toas] summary] Hrun].
  assert (Hret : exists gt',
             snd (get_TOAs ex_load_one ex_fit opts_default ex_GetTOAs) = Returns gt').
  { unfold get_TOAs.
    change (self_datafiles ex_GetTOAs) with ["a.fits"; "b.fits"].
    rewrite get_TOAs_loop_cons, pbind_emit.
    change (usable ex_load_one "a.fits") with true.
    change (ex_load_one "a.fits") with (Loaded ex_two_subints).
    change (self_modelfile ex_GetTOAs) with "m.gmodel".
    change (self_TOA_list ex_GetTOAs) with (@nil TOA).
    cbv iota. rewrite Hrun. cbv iota beta.
    rewrite get_TOAs_loop_cons, pbind_emit.
    change (usable ex_load_one "b.fits") with false.
    cbv iota. eexists. reflexivity. }
  destruct Hret as [gt' Hret]. exists gt'. split; [exact Hret|].
  destruct (X11_get_TOAs_accumulates _ _ _ _ _ Hret)
    as (Hd & _ & _ & means & errs & HM & HE & Hlm & Hle).
  split; [exact Hd|].
  rewrite HM, HE. simpl. split; [exact Hlm | exact Hle].
Defined.

(** ** Storing the covariance matrix: broadcasting and failure *)

Lemma map_const_seq {A : Type} (c : A) (s n : nat) :
  map (fun _ => c) (seq s n) = replicate n c.
Proof.
  revert s. induction n as [|n IH]; intros s; simpl; [reflexivity|].
  rewrite IH. reflexivity.
Qed.

Lemma assign_broadcast_single n (v : R) :
  assign_broadcast n [[v]] = Ok (replicate n (replicate n v)).
Proof.
  unfold assign_broadcast. cbn [shape length].
  rewrite !orb_true_r. cbn [andb].
  destruct (Nat.eqb_spec 1 n) as [<-|Hn]; [reflexivity|].
  cbn [nth]. rewrite !map_const_seq. reflexivity.
Qed.

Lemma doppler_correction_covariance b ff df r r' df' :
  doppler_correction b ff df r = Ok (r', df') ->
  covariance_matrix r' = covariance_matrix r.
Proof.
  destruct b.
  - intros H. apply doppler_correction_bary in H as (f1 & f2 & _ & _ & _ & ->).
    destruct f1, f2; reflexivity.
  - rewrite doppler_correction_topo. intros [= <- _]. reflexivity.
Qed.

(** X12.  A subintegration with one good channel is fitted for the phase
    alone; when the engine then answers with a 1 x 1 covariance matrix, the
    assignment raises no [ValueError] and numpy broadcasts the single
    variance over the whole [self.nfit x self.nfit] slot. *)
Theorem X12_single_variance_fills_the_slot fit o modelfile d st s st' (v : R) :
  length (freqsx s) = 1 ->
  covariance_matrix (fit o s phase_only) = [[v]] ->
  process_subint fit o modelfile d st s = Ok st' ->
  covariances (arrs st') !! isub s
  = Some (replicate (self_nfit o) (replicate (self_nfit o) v)).
Proof.
  intros Hone Hcov H.
  apply process_subint_Ok in H
    as (ff & r' & df & cov & flags & f1 & Hff & Hdop & Hst & _ & _ & _ & _
        & Hlc & _ & _ & _ & _ & HC & _).
  rewrite Hone in Hff. injection Hff as <-.
  change [true; false; false; false; false] with phase_only in *.
  apply doppler_correction_covariance in Hdop. rewrite Hdop, Hcov in Hst.
  unfold store_covariance in Hst. rewrite assign_broadcast_single in Hst.
  injection Hst as <-.
  rewrite HC. apply list_lookup_insert_eq. exact Hlc.
Qed.

Lemma X12_single_variance_fills_the_slot_witness :
  covariances (arrs ex_after_one_channel) !! 0
  = Some (replicate 5 (replicate 5 1%R)).
Proof.
  apply (X12_single_variance_fills_the_slot ex_fit opts_all_requested "m.gmodel"
           (ex_archive [ex_subint 0 1])
           (ex_state (ex_archive [ex_subint 0 1]) opts_all_requested)
           (ex_subint 0 1) ex_after_one_channel 1%R);
    reflexivity.
Defined.

Lemma store_covariance_Raise nfit (fit_flags : list bool) (M : matrix) e :
  store_covariance nfit fit_flags M = Raise e -> e = IndexError.
Proof.
  unfold store_covariance.
  destruct (assign_broadcast nfit M) as [slot|e'] eqn:Ha; [discriminate|].
  assert (He' : e' = ValueError).
  { unfold assign_broadcast in Ha. destruct (shape M) as [a b].
    destruct (_ && _); [discriminate | injection Ha as <-; reflexivity]. }
  subst e'. unfold remap_covariance. apply remap_rows_Raise.
Qed.

Lemma assign_broadcast_one_by_one n (M : matrix) :
  square 1 M -> exists slot, assign_broadcast n M = Ok slot.
Proof.
  intros [Hlen Hall]. destruct M as [|row [|]]; try discriminate.
  apply Forall_cons in Hall as [Hrow _].
  destruct row as [|v [|]]; try discriminate.
  rewrite assign_broadcast_single. eauto.
Qed.

(** X13.  Storing the engine's k x k matrix (k the number of free parameters
    of the mask) can fail in one way only: with [IndexError], and exactly when
    k is neither [self.nfit] nor 1 and some free position lies outside the
    [self.nfit x self.nfit] slot. *)
Theorem X13_store_covariance_fails_only_out_of_range
    nfit (fit_flags : list bool) (M : matrix) :
  square (length (np_where fit_flags)) M ->
  (forall e, store_covariance nfit fit_flags M = Raise e -> e = IndexError) /\
  (store_covariance nfit fit_flags M = Raise IndexError <->
   length (np_where fit_flags) <> nfit /\ length (np_where fit_flags) <> 1 /\
   exists pos, pos ∈ np_where fit_flags /\ nfit <= pos).
Proof.
  intros HM. split; [intros e; apply store_covariance_Raise|].
  split.
  - intros Hraise.
    destruct (Nat.eq_dec (length (np_where fit_flags)) nfit) as [Hn|Hn].
    { exfalso. unfold store_covariance in Hraise. rewrite Hn in HM.
      rewrite (assign_broadcast_same nfit M HM) in Hraise. discriminate. }
    destruct (Nat.eq_dec (length (np_where fit_flags)) 1) as [H1|H1].
    { exfalso. unfold store_covariance in Hraise. rewrite H1 in HM.
      destruct (assign_broadcast_one_by_one nfit M HM) as [slot Hs].
      rewrite Hs in Hraise. discriminate. }
    split; [exact Hn|]. split; [exact H1|].
    destruct (decide (Exists (fun pos => nfit <= pos) (np_where fit_flags)))
      as [Hex|Hno].
    + apply Exists_exists in Hex as (pos & Hin & Hle).
      exists pos. split; [exact Hin | exact Hle].
    + exfalso. unfold store_covariance in Hraise.
      rewrite (assign_broadcast_mismatch nfit _ M HM Hn H1) in Hraise.
      rewrite (remap_covariance_spec nfit fit_flags M) in Hraise;
        [discriminate | rewrite <- np_where_length; exact HM |].
      intros pos Hin. apply np_where_elem in Hin. destruct (le_lt_dec nfit pos) as [Hle|Hlt]; [|exact Hlt].
      exfalso. apply Hno. apply Exists_exists. exists pos.
      split; [exact Hin | exact Hle].
  - intros (Hn & H1 & pos & Hin & Hle). unfold store_covariance.
    rewrite (assign_broadcast_mismatch nfit _ M HM Hn H1).
    eapply remap_covariance_out_of_range; eassumption.
Qed.

Lemma X13_store_covariance_fails_only_out_of_range_witness :
  square (length (np_where [true; true; true; false; false])) (identity_matrix 3) /\
  store_covariance 2 [true; true; true; false; false] (identity_matrix 3)
  = Raise IndexError.
Proof.
  assert (HM : square (length (np_where [true; true; true; false; false]))
                 (identity_matrix 3)).
  { split; [reflexivity|]. repeat constructor. }
  split; [exact HM|].
  apply (proj2 (X13_store_covariance_fails_only_out_of_range 2
                  [true; true; true; false; false] (identity_matrix 3) HM)).
  split; [simpl; lia|]. split; [simpl; lia|].
  exists 2. split; [|lia]. simpl. set_solver.
Defined.

(** X14.  With the mask of the options and the engine's square matrix of
    its free parameters, the matrix is stored as it is unless [fix_alpha] is
    set without [fit_scat]; then [self.nfit] is one too small, and storing
    raises [IndexError] as soon as DM or GM is fitted (with neither, the slot
    is 0 x 0 and stays empty). *)
Theorem X14_fix_alpha_without_fit_scat (o : options) (M : matrix) :
  square (length (np_where (self_fit_flags o))) M ->
  store_covariance (self_nfit o) (self_fit_flags o) M
  = if fix_alpha o && negb (fit_scat o) then
      if fit_DM o || fit_GM o then Raise IndexError else Ok []
    else Ok M.
Proof.
  intros HM.
  destruct (fix_alpha o && negb (fit_scat o)) eqn:Hfix.
  - apply andb_true_iff in Hfix as [Hfa Hfs]. apply negb_true_iff in Hfs.
    destruct (fit_DM o || fit_GM o) eqn:Hany.
    + unfold store_covariance.
      rewrite (assign_broadcast_mismatch (self_nfit o) _ M HM).
      * unfold self_fit_flags, self_fit_alpha, self_nfit in *.
        rewrite Hfa, Hfs in *.
        destruct (fit_DM o), (fit_GM o); try discriminate;
          [apply (remap_covariance_out_of_range _ _ _ 2)
          |apply (remap_covariance_out_of_range _ _ _ 1)
          |apply (remap_covariance_out_of_range _ _ _ 2)];
          simpl; try lia; set_solver.
      * unfold self_fit_flags, self_fit_alpha, self_nfit. rewrite Hfa, Hfs.
        destruct (fit_DM o), (fit_GM o); simpl; lia.
      * unfold self_fit_flags, self_fit_alpha, self_nfit in *. rewrite Hfs.
        destruct (fit_DM o), (fit_GM o); try discriminate; simpl; lia.
    + apply orb_false_iff in Hany as [HDM HGM].
      unfold self_fit_flags, self_fit_alpha, self_nfit in *.
      rewrite Hfa, Hfs, HDM, HGM in *. simpl in HM.
      destruct HM as [Hlen Hall]. destruct M as [|row [|]]; try discriminate.
      apply Forall_cons in Hall as [Hrow _].
      destruct row as [|v [|]]; try discriminate. reflexivity.
  - unfold store_covariance. rewrite assign_broadcast_same; [reflexivity|].
    replace (self_nfit o) with (length (np_where (self_fit_flags o))); [exact HM|].
    unfold self_fit_flags, self_fit_alpha, self_nfit.
    destruct (fit_DM o), (fit_GM o), (fit_scat o), (fix_alpha o);
      try discriminate; reflexivity.
Qed.

Lemma X14_fix_alpha_without_fit_scat_witness :
  store_covariance (self_nfit opts_fix_alpha) (self_fit_flags opts_fix_alpha)
    (identity_matrix 3) = Raise IndexError.
Proof.
  apply (X14_fix_alpha_without_fit_scat opts_fix_alpha (identity_matrix 3)).
  split; [reflexivity|]. repeat constructor.
Defined.

(** ** Channel zapping: what is flagged and what is not *)

Lemma truthy_zero : truthy 0 = false.
Proof. unfold truthy. destruct (Req_dec_T 0 0); [reflexivity | contradiction]. Qed.

Lemma getitem_snr_of (snrs : list R) c x :
  getitem snrs c = Ok x -> x = snr_of snrs c.
Proof.
  intros H. apply getitem_Ok in H. unfold snr_of.
  symmetry. apply nth_lookup_Some. exact H.
Qed.

Lemma first_pass_chi2_only rchi2 thr chi2 (snrs : list R) (ok : list nat) :
  forall bad0, first_pass 0 rchi2 thr chi2 snrs bad0 ok
               = Ok (bad0 ++ List.filter (chi2_bad rchi2 chi2) ok).
Proof.
  induction ok as [|c ok IH]; intros bad0; simpl.
  - rewrite app_nil_r. reflexivity.
  - unfold chi2_bad at 1. destruct (chi2 c) as [x|].
    + destruct (Rgt_dec x rchi2).
      * rewrite IH, <- app_assoc. reflexivity.
      * rewrite truthy_zero. apply IH.
    + rewrite IH, <- app_assoc. reflexivity.
Qed.

(** X15.  With [SNR_threshold = 0] only the reduced chi-square criterion
    applies: the flagged channels are the good channels whose reduced
    chi-square is above the threshold or not a number, in order; the
    per-channel S/N array is not read, and [iterate] changes nothing.  With
    no good channel the threshold computation divides by zero. *)
Theorem X15_zero_threshold_is_chi2_only
    (fuel : nat) (rchi2_threshold : R) (iterate : bool)
    (channel_red_chi2 : nat -> option R) (channel_snrs : list R)
    (ok_ichans : list nat) :
  zap_subint fuel 0 rchi2_threshold iterate channel_red_chi2 channel_snrs ok_ichans
  = match ok_ichans with
    | [] => Some (Raise ZeroDivisionError)
    | _ => Some (Ok (List.filter (chi2_bad rchi2_threshold channel_red_chi2) ok_ichans))
    end.
Proof.
  unfold zap_subint, channel_SNR_threshold.
  destruct ok_ichans as [|c ok]; [reflexivity|].
  destruct (Z.eqb_spec (Z.of_nat (length (c :: ok))) 0) as [Hz|_];
    [simpl in Hz; lia|].
  rewrite first_pass_chi2_only, truthy_zero, andb_false_r. reflexivity.
Qed.

Lemma threshold_le_target (T : R) (n : Z) :
  (sqrt (T ^ 2 / IZR n) <= Rabs T)%R.
Proof.
  rewrite <- (sqrt_Rsqr_abs T).
  destruct (Z_lt_le_dec n 1) as [Hn|Hn].
  - assert (Hle : (IZR n <= 0)%R) by (apply IZR_le; lia).
    destruct (Req_dec (IZR n) 0) as [H0|H0].
    + rewrite H0. unfold Rdiv. rewrite Rinv_0, Rmult_0_r, sqrt_0. apply sqrt_pos.
    + assert (Hneg : (T ^ 2 / IZR n <= 0)%R).
      { assert (/ IZR n < 0)%R by (apply Rinv_lt_0_compat; lra).
        assert (0 <= T ^ 2)%R by nra. unfold Rdiv. nra. }
      rewrite (sqrt_neg_0 _ Hneg). apply sqrt_pos.
  - assert (H1 : (1 <= IZR n)%R) by (apply IZR_le; lia).
    apply sqrt_le_1_alt. unfold Rsqr.
    assert (Hinv : (0 < / IZR n <= 1)%R).
    { split; [apply Rinv_0_lt_compat; lra|].
      rewrite <- Rinv_1. apply Rinv_le_contravar; lra. }
    assert (0 <= T ^ 2)%R by nra. unfold Rdiv.
    replace (T * T)%R with (T ^ 2 * 1)%R by ring.
    apply Rmult_le_compat_l; lra.
Qed.

Lemma first_pass_inv T rchi2 thr chi2 (snrs : list R) (ok : list nat) :
  forall bad0 bad,
  first_pass T rchi2 thr chi2 snrs bad0 ok = Ok bad ->
  exists added,
    bad = bad0 ++ added /\
    (forall c, c ∈ added -> c ∈ ok) /\
    (forall c, c ∈ ok -> chi2_bad rchi2 chi2 c = true -> c ∈ added) /\
    (forall c, chi2_bad rchi2 chi2 c = false -> (thr <= snr_of snrs c)%R ->
       c ∉ added) /\
    (forall c, c ∈ added -> chi2_bad rchi2 chi2 c = false ->
       truthy T = true /\ (snr_of snrs c < thr)%R).
Proof.
  induction ok as [|c ok IH]; intros bad0 bad; simpl.
  - intros [= <-]. exists []. rewrite app_nil_r.
    split; [reflexivity|]. split; [intros c Hc; inversion Hc|].
    split; [intros c Hc; inversion Hc|].
    split; [intros c _ _ Hc; inversion Hc | intros c Hc; inversion Hc].
  - assert (Hbad : forall (Hwhy : chi2_bad rchi2 chi2 c = true \/
                                  (truthy T = true /\ (snr_of snrs c < thr)%R)),
              first_pass T rchi2 thr chi2 snrs (bad0 ++ [c]) ok = Ok bad ->
              exists added,
                bad = bad0 ++ added /\
                (forall c', c' ∈ added -> c' ∈ c :: ok) /\
                (forall c', c' ∈ c :: ok -> chi2_bad rchi2 chi2 c' = true -> c' ∈ added) /\
                (forall c', chi2_bad rchi2 chi2 c' = false ->
                   (thr <= snr_of snrs c')%R -> c' ∉ added) /\
                (forall c', c' ∈ added -> chi2_bad rchi2 chi2 c' = false ->
                   truthy T = true /\ (snr_of snrs c' < thr)%R)).
    { intros Hwhy H. apply IH in H as (added & -> & Hsub & Hchi & Hkeep & Hsnr).
      exists (c :: added). rewrite <- app_assoc. split; [reflexivity|].
      split; [|split; [|split]].
      - intros c' Hc'. apply elem_of_cons in Hc' as [->|Hc']; [left | right; auto].
      - intros c' Hc' Hb. apply elem_of_cons in Hc' as [->|Hc']; [left | right; auto].
      - intros c' Hb Hge Hin. apply elem_of_cons in Hin as [->|Hin].
        + destruct Hwhy as [Hw|[_ Hw]]; [congruence | lra].
        + exact (Hkeep c' Hb Hge Hin).
      - intros c' Hin Hb. apply elem_of_cons in Hin as [->|Hin]; [|auto].
        destruct Hwhy as [Hw|Hw]; [congruence | exact Hw]. }
    assert (Hgood : chi2_bad rchi2 chi2 c = false ->
              first_pass T rchi2 thr chi2 snrs bad0 ok = Ok bad ->
              exists added,
                bad = bad0 ++ added /\
                (forall c', c' ∈ added -> c' ∈ c :: ok) /\
                (forall c', c' ∈ c :: ok -> chi2_bad rchi2 chi2 c' = true -> c' ∈ added) /\
                (forall c', chi2_bad rchi2 chi2 c' = false ->
                   (thr <= snr_of snrs c')%R -> c' ∉ added) /\
                (forall c', c' ∈ added -> chi2_bad rchi2 chi2 c' = false ->
                   truthy T = true /\ (snr_of snrs c' < thr)%R)).
    { intros Hc H. apply IH in H as (added & -> & Hsub & Hchi & Hkeep & Hsnr).
      exists added. split; [reflexivity|]. split; [|split; [|split]].
      - intros c' Hc'. right. auto.
      - intros c' Hc' Hb. apply elem_of_cons in Hc' as [->|Hc']; [congruence | auto].
      - exact Hkeep.
      - exact Hsnr. }
    unfold chi2_bad in Hbad at 1, Hgood at 1.
    destruct (chi2 c) as [x|]; [|apply Hbad; left; reflexivity].
    destruct (Rgt_dec x rchi2); [apply Hbad; left; reflexivity|].
    destruct (truthy T) eqn:HT; [|apply Hgood; reflexivity].
    intros H. apply rbind_Ok in H as (s & Hs & H).
    apply getitem_snr_of in Hs. subst s.
    destruct (Rlt_dec (snr_of snrs c) thr) as [Hlt|Hge].
    + apply Hbad; [right; split; [reflexivity | exact Hlt] | exact H].
    + apply Hgood; [reflexivity | exact H].
Qed.

Lemma recheck_inv thr (snrs : list R) (ok : list nat) :
  forall bad0 bad,
  recheck thr snrs bad0 ok = Ok bad ->
  exists added,
    bad = bad0 ++ added /\
    (forall c, c ∈ added -> c ∈ ok /\ (snr_of snrs c < thr)%R).
Proof.
  induction ok as [|c ok IH]; intros bad0 bad; simpl.
  - intros [= <-]. exists []. rewrite app_nil_r. split; [reflexivity|].
    intros c Hc. inversion Hc.
  - destruct (bool_decide (c ∈ bad0)).
    + intros H. apply IH in H as (added & -> & Hadd).
      exists added. split; [reflexivity|]. intros c' Hc'.
      destruct (Hadd c' Hc'). split; [right|]; assumption.
    + intros H. apply rbind_Ok in H as (s & Hs & H).
      apply getitem_snr_of in Hs. subst s.
      destruct (Rlt_dec (snr_of snrs c) thr) as [Hlt|Hge].
      * apply IH in H as (added & -> & Hadd).
        exists (c :: added). rewrite <- app_assoc. split; [reflexivity|].
        intros c' Hc'. apply elem_of_cons in Hc' as [->|Hc'].
        -- split; [left | exact Hlt].
        -- destruct (Hadd c' Hc'). split; [right|]; assumption.
      * apply IH in H as (added & -> & Hadd).
        exists added. split; [reflexivity|]. intros c' Hc'.
        destruct (Hadd c' Hc'). split; [right|]; assumption.
Qed.

Lemma zap_while_inv fuel T (snrs : list R) (ok : list nat) :
  forall bad0 old_len added_new bad,
  zap_while fuel T snrs ok bad0 old_len added_new = Some (Ok bad) ->
  exists added,
    bad = bad0 ++ added /\
    (forall c, c ∈ added -> c ∈ ok /\ (snr_of snrs c < Rabs T)%R).
Proof.
  induction fuel as [|fuel IH]; intros bad0 old_len added_new bad;
    rewrite zap_while_unfold;
    (destruct (added_new && negb (len_diff ok bad0 =? 0)%Z);
     [|intros [= <-]; exists []; rewrite app_nil_r; split; [reflexivity|];
       intros c Hc; inversion Hc]).
  - discriminate.
  - unfold channel_SNR_threshold.
    destruct (len_diff ok bad0 =? 0)%Z; [discriminate|].
    destruct (recheck _ snrs bad0 ok) as [bad1|e] eqn:Hre; [|discriminate].
    intros H. apply IH in H as (added2 & -> & Hadd2).
    apply recheck_inv in Hre as (added1 & -> & Hadd1).
    exists (added1 ++ added2). rewrite app_assoc. split; [reflexivity|].
    intros c Hc. apply elem_of_app in Hc as [Hc|Hc]; [|auto].
    destruct (Hadd1 c Hc) as [Hin Hlt]. split; [exact Hin|].
    eapply Rlt_le_trans; [exact Hlt | apply threshold_le_target].
Qed.

(** X16.  Whatever the options, a channel is flagged only if it is a good
    channel; every good channel whose reduced chi-square is above the
    threshold or not a number is flagged; and a good channel with an
    acceptable reduced chi-square and an S/N of at least |SNR_threshold| is
    never flagged, by the first pass or by the iteration. *)
Theorem X16_what_is_flagged
    (fuel : nat) (SNR_threshold rchi2_threshold : R) (iterate : bool)
    (channel_red_chi2 : nat -> option R) (channel_snrs : list R)
    (ok_ichans bad_ichans : list nat) :
  zap_subint fuel SNR_threshold rchi2_threshold iterate channel_red_chi2
    channel_snrs ok_ichans = Some (Ok bad_ichans) ->
  (forall c, c ∈ bad_ichans -> c ∈ ok_ichans) /\
  (forall c, c ∈ ok_ichans ->
     chi2_bad rchi2_threshold channel_red_chi2 c = true -> c ∈ bad_ichans) /\
  (forall c, chi2_bad rchi2_threshold channel_red_chi2 c = false ->
     (Rabs SNR_threshold <= snr_of channel_snrs c)%R -> c ∉ bad_ichans).
Proof.
  unfold zap_subint, channel_SNR_threshold.
  destruct (Z.of_nat (length ok_ichans) =? 0)%Z; [discriminate|].
  destruct (first_pass _ _ _ _ _ _ _) as [bad0|e] eqn:Hfirst; [|discriminate].
  apply first_pass_inv in Hfirst as (added0 & -> & Hsub & Hchi & Hkeep & _).
  simpl app.
  assert (Hkeep0 : forall c, chi2_bad rchi2_threshold channel_red_chi2 c = false ->
            (Rabs SNR_threshold <= snr_of channel_snrs c)%R -> c ∉ added0).
  { intros c Hb Hge. apply Hkeep; [exact Hb|].
    eapply Rle_trans; [apply threshold_le_target | exact Hge]. }
  destruct (iterate && truthy SNR_threshold && negb (length added0 =? 0)).
  - intros H. apply zap_while_inv in H as (added & -> & Hadd).
    split; [|split].
    + intros c Hc. apply elem_of_app in Hc as [Hc|Hc]; [auto | apply Hadd; exact Hc].
    + intros c Hc Hb. apply elem_of_app. left. auto.
    + intros c Hb Hge Hin. apply elem_of_app in Hin as [Hin|Hin].
      * exact (Hkeep0 c Hb Hge Hin).
      * destruct (Hadd c Hin) as [_ Hlt]. lra.
  - intros [= <-]. split; [exact Hsub|]. split; [exact Hchi | exact Hkeep0].
Qed.

Lemma X16_what_is_flagged_witness :
  exists bad_ichans,
    zap_subint 4 8 1.3 true ex_red_chi2 ex_channel_snrs ex_ok_ichans
    = Some (Ok bad_ichans) /\
    (2 ∉ bad_ichans) /\ (3 ∉ bad_ichans).
Proof.
  destruct (zap_iterate_cuts_both) as [Hrun _].
  eexists. split; [exact Hrun|].
  destruct (X16_what_is_flagged _ _ _ _ _ _ _ _ Hrun) as (_ & _ & Hkeep).
  split; apply Hkeep;
    try (unfold chi2_bad, ex_red_chi2; destruct (Rgt_dec 1 1.3); [lra | reflexivity]);
    unfold snr_of, ex_channel_snrs; simpl; rewrite Rabs_pos_eq; lra.
Defined.

(** X17.  Iterating only adds to the first pass: the list flagged with
    [iterate] set is the list flagged without it followed by further good
    channels, each of them with an S/N below |SNR_threshold|. *)
Theorem X17_iteration_only_adds
    (fuel : nat) (SNR_threshold rchi2_threshold : R)
    (channel_red_chi2 : nat -> option R) (channel_snrs : list R)
    (ok_ichans bad_ichans : list nat) :
  zap_subint fuel SNR_threshold rchi2_threshold true channel_red_chi2
    channel_snrs ok_ichans = Some (Ok bad_ichans) ->
  exists first added,
    (forall fuel', zap_subint fuel' SNR_threshold rchi2_threshold false
                     channel_red_chi2 channel_snrs ok_ichans = Some (Ok first)) /\
    bad_ichans = first ++ added /\
    (forall c, c ∈ added ->
       c ∈ ok_ichans /\ (snr_of channel_snrs c < Rabs SNR_threshold)%R).
Proof.
  unfold zap_subint, channel_SNR_threshold.
  destruct (Z.of_nat (length ok_ichans) =? 0)%Z; [discriminate|].
  destruct (first_pass _ _ _ _ _ _ _) as [bad0|e] eqn:Hfirst; [|discriminate].
  cbn [andb].
  destruct (truthy SNR_threshold && negb (length bad0 =? 0)).
  - intros H. apply zap_while_inv in H as (added & -> & Hadd).
    exists bad0, added. split; [reflexivity|]. split; [reflexivity | exact Hadd].
  - intros [= <-]. exists bad0, []. rewrite app_nil_r.
    split; [reflexivity|]. split; [reflexivity|]. intros c Hc. inversion Hc.
Qed.

Lemma X17_iteration_only_adds_witness :
  exists first added,
    zap_subint 0 8 1.3 false ex_red_chi2 ex_channel_snrs ex_ok_ichans
    = Some (Ok first) /\
    [0; 1] = first ++ added /\
    (forall c, c ∈ added -> (snr_of ex_channel_snrs c < Rabs 8)%R).
Proof.
  destruct (zap_iterate_cuts_both) as [Hrun _].
  destruct (X17_iteration_only_adds _ _ _ _ _ _ _ Hrun)
    as (first & added & Hfirst & Happ & Hadd).
  exists first, added. split; [apply Hfirst|]. split; [exact Happ|].
  intros c Hc. apply Hadd. exact Hc.
Defined.

(** ** [show_fit] after [get_TOAs] *)

Lemma select_fit_flags_lookup_2 o prev nchx (ff : list bool) :
  select_fit_flags o prev nchx = Ok ff -> exists f2 : bool, ff !! 2 = Some f2.
Proof.
  unfold select_fit_flags.
  destruct (nchx =? 1); [intros [= <-]; eexists; reflexivity|].
  destruct ((nchx =? 2) && fit_DM o && fit_GM o).
  - destruct prev as [prev|]; [|discriminate].
    intros H. apply setitem_Ok in H as [Hlen ->].
    exists false. apply list_lookup_insert_eq. exact Hlen.
  - intros [= <-]. eexists. reflexivity.
Qed.

(** X18.  [show_fit] divides the stored DM and GM of a subintegration by the
    Doppler factor and its cube whenever [bary] is set.  It so recovers the
    fitted value of a parameter that was free in the mask; for a parameter
    the mask held fixed, which [get_TOAs] stored uncorrected, it yields the
    fitted value divided by the factor instead. *)
Theorem X18_show_fit_after_get_TOAs fit o modelfile d st s st' :
  doppler_factor s <> 0%R ->
  process_subint fit o modelfile d st s = Ok st' ->
  exists (ff : list bool) (f1 f2 : bool) (DM_i GM_i : R),
    select_fit_flags o (local_fit_flags st) (length (freqsx s)) = Ok ff /\
    ff !! 1 = Some f1 /\ ff !! 2 = Some f2 /\
    DMs (arrs st') !! isub s = Some DM_i /\
    GMs (arrs st') !! isub s = Some GM_i /\
    let fitted := fit o s ff in
    let df := doppler_factor s in
    show_fit_DM_GM (bary o) DM_i GM_i df
    = ((if bary o && negb f1 then DM fitted / df else DM fitted)%R,
       (if bary o && negb f2 then GM fitted / df ^ 3 else GM fitted)%R).
Proof.
  intros Hdf H. apply process_subint_Ok in H
    as (ff & r' & df & cov & flags & f1 & Hff & Hdop & _ & _ & Hf1 & HlD & HlG
        & _ & _ & HD & _ & HG & _).
  destruct (select_fit_flags_lookup_2 _ _ _ _ Hff) as [f2 Hf2].
  exists ff, f1, f2, (DM r'), (GM r').
  split; [exact Hff|]. split; [exact Hf1|]. split; [exact Hf2|].
  rewrite HD, HG, !list_lookup_insert_eq by assumption.
  split; [reflexivity|]. split; [reflexivity|]. cbv zeta.
  unfold show_fit_DM_GM. destruct (bary o).
  - apply doppler_correction_bary in Hdop as (g1 & g2 & Hg1 & Hg2 & _ & ->).
    rewrite Hf1 in Hg1. injection Hg1 as <-.
    rewrite Hf2 in Hg2. injection Hg2 as <-.
    destruct f1, f2; simpl; f_equal; field; exact Hdf.
  - rewrite doppler_correction_topo in Hdop. injection Hdop as <- _. reflexivity.
Qed.

Lemma X18_show_fit_after_get_TOAs_witness :
  exists DM_i GM_i : R,
    DMs (arrs ex_after_one_channel) !! 0 = Some DM_i /\
    GMs (arrs ex_after_one_channel) !! 0 = Some GM_i /\
    show_fit_DM_GM true DM_i GM_i 1.0001 = (10 / 1.0001, 2 / 1.0001 ^ 3)%R.
Proof.
  assert (Hdf : doppler_factor (ex_subint 0 1) <> 0%R) by (simpl; lra).
  assert (H : process_subint ex_fit opts_all_requested "m.gmodel"
                (ex_archive [ex_subint 0 1])
                (ex_state (ex_archive [ex_subint 0 1]) opts_all_requested)
                (ex_subint 0 1) = Ok ex_after_one_channel) by reflexivity.
  destruct (X18_show_fit_after_get_TOAs _ _ _ _ _ _ _ Hdf H)
    as (ff & f1 & f2 & DM_i & GM_i & Hff & Hf1 & Hf2 & HD & HG & Hshow).
  injection Hff as <-. injection Hf1 as <-. injection Hf2 as <-.
  exists DM_i, GM_i. split; [exact HD|]. split; [exact HG|]. exact Hshow.
Defined.

(** ** The scattering-time flags *)

Lemma Rpower_10_log10 (x : R) : (0 < x)%R -> Rpower 10 (log10 x) = x.
Proof.
  intros Hx. unfold Rpower, log10.
  assert (Hln : (0 < ln 10)%R).
  { rewrite <- ln_1. apply ln_increasing; lra. }
  replace (ln x / ln 10 * ln 10)%R with (ln x) by (field; lra).
  apply exp_ln. exact Hx.
Qed.

(** X19.  When the scattering time is fitted as a base-10 logarithm, the two
    flags written for it agree: [scat_time] (in microseconds) is ten to the
    power [log10_scat_time], times 1e6.  A subintegration whose mask holds
    the scattering time fixed gets neither flag. *)
Theorem X19_scattering_time_flags_agree fit o modelfile d st s st' :
  (0 < P s)%R -> (0 < doppler_factor s)%R ->
  self_log10_tau o = true ->
  last_binding (addtnl_toa_flags o) "scat_time" = None ->
  last_binding (addtnl_toa_flags o) "log10_scat_time" = None ->
  process_subint fit o modelfile d st s = Ok st' ->
  exists (ff : list bool) toa,
    select_fit_flags o (local_fit_flags st) (length (freqsx s)) = Ok ff /\
    TOA_list st' = TOA_list st ++ [toa] /\
    (ff !! 3 = Some true ->
     exists t lt : R,
       TOA_flags toa !! "scat_time" = Some (FFloat t) /\
       TOA_flags toa !! "log10_scat_time" = Some (FFloat lt) /\
       t = (Rpower 10 lt * 1e6)%R) /\
    (ff !! 3 = Some false ->
     TOA_flags toa !! "scat_time" = None /\
     TOA_flags toa !! "log10_scat_time" = None).
Proof.
  intros HP Hdf Hlog Hk1 Hk2 H.
  apply process_subint_record in H as (ff & r' & df & toa & Hff & Hdop & HL & Hfl).
  exists ff, toa. split; [exact Hff|]. split; [exact HL|].
  assert (Hpos : (0 < P s / df)%R).
  { destruct (bary o).
    - apply doppler_correction_bary in Hdop as (_ & _ & _ & _ & -> & _).
      apply Rdiv_lt_0_compat; assumption.
    - rewrite doppler_correction_topo in Hdop. injection Hdop as _ <-.
      unfold Rdiv. rewrite Rinv_1, Rmult_1_r. exact HP. }
  assert (Hdf0 : df <> 0%R).
  { intros ->. unfold Rdiv in Hpos. rewrite Rinv_0, Rmult_0_r in Hpos. lra. }
  unfold compile_toa_flags in Hfl.
  apply rbind_Ok in Hfl as (f2 & _ & Hfl).
  apply rbind_Ok in Hfl as (f3 & Hf3 & Hfl). apply getitem_Ok in Hf3.
  apply rbind_Ok in Hfl as (f4 & _ & Hfl).
  apply rbind_Ok in Hfl as (fmax & _ & Hfl).
  apply rbind_Ok in Hfl as (fmin & _ & Hfl).
  apply rbind_Ok in Hfl as (tf & Htf & Hfl).
  injection Hfl as <-.
  destruct (is_not_None (nu_ref_DM o) && forallb (fun b => b) (take 2 ff));
    [apply rbind_Ok in Htf as (c & _ & Htf)|]; injection Htf as <-;
    (split;
     [ intros Hfree; rewrite Hf3 in Hfree; injection Hfree as ->;
       exists (Rpower 10 (tau r') * P s / df * 1e6)%R, (tau r' + log10 (P s / df))%R;
       split; [|split];
       [ rewrite fold_insert_lookup, Hk1; unfold scat_flags; rewrite Hlog; flag_lookup
       | rewrite fold_insert_lookup, Hk2; unfold scat_flags; rewrite Hlog; flag_lookup
       | rewrite Rpower_plus, (Rpower_10_log10 _ Hpos); field; exact Hdf0 ]
     | intros Hfixed; rewrite Hf3 in Hfixed; injection Hfixed as ->;
       split; [rewrite fold_insert_lookup, Hk1 | rewrite fold_insert_lookup, Hk2];
       flag_lookup ]).
Qed.

Lemma X19_scattering_time_flags_agree_witness :
  exists toa (t lt : R),
    TOA_list ex_after_scat = [toa] /\
    TOA_flags toa !! "scat_time" = Some (FFloat t) /\
    TOA_flags toa !! "log10_scat_time" = Some (FFloat lt) /\
    t = (Rpower 10 lt * 1e6)%R.
Proof.
  assert (HP : (0 < P (ex_subint 0 4))%R) by (simpl; lra).
  assert (Hdf : (0 < doppler_factor (ex_subint 0 4))%R) by (simpl; lra).
  assert (H : process_subint ex_fit opts_all_requested "m.gmodel"
                (ex_archive [ex_subint 0 4])
                (ex_state (ex_archive [ex_subint 0 4]) opts_all_requested)
                (ex_subint 0 4) = Ok ex_after_scat) by reflexivity.
  destruct (X19_scattering_time_flags_agree ex_fit opts_all_requested "m.gmodel"
              _ _ _ _ HP Hdf eq_refl eq_refl eq_refl H)
    as (ff & toa & Hff & HL & Hfree & _).
  injection Hff as <-.
  destruct (Hfree eq_refl) as (t & lt & Ht & Hlt & Heq).
  exists toa, t, lt. repeat split; assumption.
Defined.

(** ** The constructor on a metafile *)

Lemma substring_prefix (s : string) (c : ascii) :
  substring 0 (String.length s) (s +:+ String c EmptyString) = s.
Proof. induction s as [|a s IH]; simpl; [reflexivity | rewrite IH; reflexivity]. Qed.

Lemma length_snoc (s : string) (c : ascii) :
  String.length (s +:+ String c EmptyString) = S (String.length s).
Proof. induction s as [|a s IH]; simpl; [reflexivity | rewrite IH; reflexivity]. Qed.

Lemma drop_last_snoc (s : string) (c : ascii) :
  drop_last (s +:+ String c EmptyString) = s.
Proof.
  unfold drop_last. rewrite length_snoc.
  replace (S (String.length s) - 1) with (String.length s) by lia.
  apply substring_prefix.
Qed.

(** X20.  Given a metafile of at most 999 lines, the constructor prints
    nothing and returns an object with empty result lists whose data files
    are the lines without their last character, whatever that character is:
    a line end is removed, and a last line that has no line end loses the
    last character of its file name. *)
Theorem X20_constructor_reads_metafile
    (entries : list (string * ascii)) (modelfile : string) (quiet : bool) :
  length entries <= 999 ->
  GetTOAs_init
    (Metafile (map (fun e => e.1 +:+ String e.2 EmptyString) entries))
    modelfile quiet
  = ([], Returns {| self_datafiles := map fst entries;
                    self_modelfile := modelfile; self_quiet := quiet;
                    self_TOA_list := []; self_DeltaDM_means := [];
                    self_DeltaDM_errs := [] |}).
Proof.
  intros Hlen. unfold GetTOAs_init, datafile_names.
  assert (Hnames : map drop_last
                     (map (fun e => e.1 +:+ String e.2 EmptyString) entries)
                   = map fst entries).
  { rewrite map_map. apply map_ext. intros [name c]. apply drop_last_snoc. }
  rewrite Hnames, length_map.
  destruct (Nat.ltb_spec max_nfile (length entries)) as [Hgt|_];
    [unfold max_nfile in Hgt; lia | reflexivity].
Qed.

Lemma X20_constructor_reads_metafile_witness :
  GetTOAs_init (Metafile ["a.fits" +:+ newline; "b.fits"]) "m.gmodel" true
  = ([], Returns {| self_datafiles := ["a.fits"; "b.fit"];
                    self_modelfile := "m.gmodel"; self_quiet := true;
                    self_TOA_list := []; self_DeltaDM_means := [];
                    self_DeltaDM_errs := [] |}).
Proof.
  apply (X20_constructor_reads_metafile ex_metafile_entries "m.gmodel" true).
  simpl. lia.
Defined.

(** ** The narrowband method: the second unbound name *)

Lemma narrowband_guess_rot_prof w o locals d s (x : R) :
  nb_fit_scat o = true ->
  nb_globals w !! "nu_fit_tau" = Some (VFloat x) ->
  nb_globals w !! "rot_prof" = None ->
  narrowband_guess w o locals d s = Raise (NameError "rot_prof").
Proof.
  intros Hscat Hnu Hrot. unfold narrowband_guess. rewrite Hscat.
  assert (Hread : load_name narrowband_local_names locals (nb_globals w) "nu_fit_tau"
                  = Ok (VFloat x)).
  { unfold load_name. rewrite nu_fit_tau_not_local, Hnu. reflexivity. }
  assert (Hread' : load_name narrowband_local_names locals (nb_globals w) "rot_prof"
                   = Raise (NameError "rot_prof")).
  { unfold load_name. rewrite rot_prof_not_local, Hrot. reflexivity. }
  rewrite Hread, Hread'.
  destruct (nb_scat_guess o) as [[[tau_guess_s tau_guess_ref] alpha_guess]|];
    [reflexivity|].
  destruct (self_gparams (nb_model_attrs w d s)) as [[gparams1 model_nu_ref]|];
    reflexivity.
Qed.

(** X21.  Binding [nu_fit_tau] is not enough for the narrowband method with
    [fit_scat]: with [nu_fit_tau] a float among the module's globals and
    [rot_prof] not bound there, the guess construction raises [NameError]
    for [rot_prof], the call adds no TOA record, and it ends with that
    exception as soon as a loaded archive has a good subintegration. *)
Theorem X21_narrowband_needs_rot_prof
    (w : narrowband_world) (o : narrowband_options) (toas : list TOA)
    (datafiles : list string) (x : R) :
  nb_fit_scat o = true ->
  nb_globals w !! "nu_fit_tau" = Some (VFloat x) ->
  nb_globals w !! "rot_prof" = None ->
  fst (snd (get_narrowband_TOAs w o toas datafiles)) = toas /\
  (snd (snd (get_narrowband_TOAs w o toas datafiles)) = None \/
   snd (snd (get_narrowband_TOAs w o toas datafiles))
   = Some (NameError "rot_prof")) /\
  ((exists f d, f ∈ datafiles /\ nb_load w f = Loaded d /\ ok_subints d <> []) ->
   snd (snd (get_narrowband_TOAs w o toas datafiles))
   = Some (NameError "rot_prof")).
Proof.
  intros Hscat Hnu Hrot.
  induction datafiles as [|f rest IH]; simpl.
  - split; [reflexivity|]. split; [left; reflexivity|].
    intros (f & d & Hf & _). inversion Hf.
  - destruct IH as (IHtoas & IHexn & IHraise).
    assert (Hskip :
      forall r, (let '(tr, r') := get_narrowband_TOAs w o toas rest in
                 (LoadData f :: tr, r')) = r ->
      (forall d, nb_load w f = Loaded d -> ok_subints d = []) ->
      fst (snd r) = toas /\
      (snd (snd r) = None \/ snd (snd r) = Some (NameError "rot_prof")) /\
      ((exists f' d, f' ∈ f :: rest /\ nb_load w f' = Loaded d /\ ok_subints d <> []) ->
       snd (snd r) = Some (NameError "rot_prof"))).
    { intros r <- Hnone.
      destruct (get_narrowband_TOAs w o toas rest) as [tr [toas' e]]. simpl in *.
      split; [exact IHtoas|]. split; [exact IHexn|].
      intros (f' & d & Hf' & Hload & Hsubs).
      apply elem_of_cons in Hf' as [->|Hf'].
      - exfalso. apply Hsubs. apply Hnone. exact Hload.
      - apply IHraise. eauto. }
    destruct (nb_load w f) as [| |d] eqn:Hload.
    + apply Hskip; [reflexivity|]. intros d' [=].
    + apply Hskip; [reflexivity|]. intros d' [=].
    + destruct (ok_subints d) as [|s subs] eqn:Hsubs.
      * simpl. apply Hskip; [reflexivity|]. intros d' [= <-]. exact Hsubs.
      * simpl. rewrite (narrowband_guess_rot_prof w o ∅ d s x Hscat Hnu Hrot).
        simpl. split; [reflexivity|]. split; [right; reflexivity|].
        intros _. reflexivity.
Qed.

Lemma X21_narrowband_needs_rot_prof_witness :
  fst (snd (get_narrowband_TOAs ex_narrowband_world_nu_fit_tau
              ex_narrowband_options [] ["a.fits"])) = [] /\
  snd (snd (get_narrowband_TOAs ex_narrowband_world_nu_fit_tau
              ex_narrowband_options [] ["a.fits"]))
  = Some (NameError "rot_prof").
Proof.
  destruct (X21_narrowband_needs_rot_prof ex_narrowband_world_nu_fit_tau
              ex_narrowband_options [] ["a.fits"] 1400%R eq_refl eq_refl eq_refl)
    as (Htoas & _ & Hraise).
  split; [exact Htoas|]. apply Hraise.
  exists "a.fits", (ex_archive [ex_subint 0 4; ex_subint 1 4]).
  split; [left|]. split; [reflexivity | discriminate].
Defined.

(** ** The [--flags] option *)

Lemma split_comma_token (t : string) :
  comma_free t = true -> split_comma t = [t].
Proof.
  induction t as [|c t IH]; simpl; [reflexivity|].
  intros H. apply andb_true_iff in H as [Hc Ht].
  apply negb_true_iff in Hc. rewrite Hc, (IH Ht). reflexivity.
Qed.

Lemma split_comma_app (t rest : string) :
  comma_free t = true ->
  split_comma (t +:+ String ","%char rest) = t :: split_comma rest.
Proof.
  induction t as [|c t IH]; simpl; [reflexivity|].
  intros H. apply andb_true_iff in H as [Hc Ht].
  apply negb_true_iff in Hc. rewrite Hc, (IH Ht). reflexivity.
Qed.

Lemma split_comma_concat (tokens : list string) :
  tokens <> [] -> Forall (fun t => comma_free t = true) tokens ->
  split_comma (String.concat "," tokens) = tokens.
Proof.
  induction tokens as [|t tokens IH]; [congruence|].
  intros _ Hall. apply Forall_cons in Hall as [Ht Hall].
  destruct tokens as [|t' tokens].
  - simpl. apply split_comma_token. exact Ht.
  - change (String.concat "," (t :: t' :: tokens))
      with (t +:+ String ","%char (String.concat "," (t' :: tokens))).
    rewrite (split_comma_app _ _ Ht), IH; [reflexivity | discriminate | exact Hall].
Qed.

Lemma stride2_tokens (pairs : list (string * string)) (extra : list string) :
  length extra <= 1 ->
  stride2 (tokens_of pairs ++ extra) = map fst pairs ++ extra /\
  stride2 (tail (tokens_of pairs ++ extra)) = map snd pairs.
Proof.
  intros Hextra. induction pairs as [|[k v] pairs [IH1 IH2]].
  - destruct extra as [|e [|]]; simpl in *; try lia; split; reflexivity.
  - split.
    + simpl. rewrite IH1. reflexivity.
    + simpl. f_equal.
      destruct pairs as [|[k' v'] pairs].
      * destruct extra as [|e [|]]; simpl in *; try lia; reflexivity.
      * simpl in *. exact IH2.
Qed.

Lemma dict_set_fresh (items : list (string * flag_value)) k v :
  k ∉ map fst items -> dict_set items k v = items ++ [(k, v)].
Proof.
  induction items as [|[k' v'] items IH]; simpl; [reflexivity|].
  intros Hnot. apply not_elem_of_cons in Hnot as [Hne Hnot].
  destruct (String.eqb_spec k' k) as [->|_]; [contradiction|].
  rewrite (IH Hnot). reflexivity.
Qed.

Lemma dict_of_NoDup (pairs : list (string * flag_value)) :
  NoDup (map fst pairs) -> dict_of pairs = pairs.
Proof.
  unfold dict_of.
  assert (Hgen : forall items,
            NoDup (map fst (items ++ pairs)) ->
            fold_left (fun items kv => dict_set items kv.1 kv.2) pairs items
            = items ++ pairs).
  { induction pairs as [|[k v] pairs IH]; intros items Hnd; simpl.
    - rewrite app_nil_r. reflexivity.
    - rewrite dict_set_fresh.
      + rewrite IH; rewrite <- app_assoc; [reflexivity | exact Hnd].
      + rewrite map_app in Hnd. simpl in Hnd.
        apply NoDup_app in Hnd as (_ & Hdis & _).
        intros Hin. apply (Hdis k Hin). left. }
  intros Hnd. apply (Hgen []). exact Hnd.
Qed.

(** X23.  The [--flags] string is read as consecutive key,value tokens: a
    comma-separated list of pairs with distinct keys gives exactly those
    pairs, in order, as additional TOA flags; a single token left over at
    the end is dropped without a message, so that the default empty string
    gives no flag at all. *)
Theorem X23_flags_option_pairs
    (pairs : list (string * string)) (extra : string) :
  Forall (fun p => comma_free p.1 = true /\ comma_free p.2 = true) pairs ->
  NoDup (map fst pairs) ->
  comma_free extra = true ->
  (pairs <> [] ->
   cli_toa_flags (String.concat "," (tokens_of pairs))
   = map (fun p => (p.1, FStr p.2)) pairs) /\
  cli_toa_flags (String.concat "," (tokens_of pairs ++ [extra]))
  = map (fun p => (p.1, FStr p.2)) pairs.
Proof.
  intros Hfree Hnd Hextra.
  assert (Htokens : Forall (fun t => comma_free t = true) (tokens_of pairs)).
  { induction Hfree as [|[k v] pairs [Hk Hv] _ IH]; simpl; [constructor|].
    constructor; [exact Hk|]. constructor; [exact Hv|]. apply IH.
    simpl in Hnd. apply NoDup_cons in Hnd as [_ Hnd]. exact Hnd. }
  assert (Hdict : forall ks, ks = map fst pairs ->
            dict_of (combine ks (map FStr (map snd pairs)))
            = map (fun p => (p.1, FStr p.2)) pairs).
  { intros ks ->.
    assert (Hc : combine (map fst pairs) (map FStr (map snd pairs))
                 = map (fun p => (p.1, FStr p.2)) pairs).
    { clear. induction pairs as [|[k v] pairs IH]; simpl; [reflexivity|].
      rewrite IH. reflexivity. }
    rewrite Hc. apply dict_of_NoDup. rewrite map_map. simpl.
    rewrite (map_ext _ fst); [exact Hnd | reflexivity]. }
  split.
  - intros Hne. unfold cli_toa_flags.
    rewrite split_comma_concat;
      [|destruct pairs as [|[k v] pairs]; [congruence | discriminate] | exact Htokens].
    destruct (stride2_tokens pairs []) as [H1 H2]; [simpl; lia|].
    rewrite !app_nil_r in H1. rewrite app_nil_r in H2.
    rewrite H1, H2. apply Hdict. reflexivity.
  - unfold cli_toa_flags.
    rewrite split_comma_concat;
      [|destruct (tokens_of pairs); discriminate
       |apply Forall_app; split; [exact Htokens | constructor; [exact Hextra | constructor]]].
    destruct (stride2_tokens pairs [extra]) as [H1 H2]; [simpl; lia|].
    rewrite H1, H2.
    assert (Hc : combine (map fst pairs ++ [extra]) (map FStr (map snd pairs))
                 = combine (map fst pairs) (map FStr (map snd pairs))).
    { clear. induction pairs as [|[k v] pairs IH]; simpl; [reflexivity|].
      rewrite IH. reflexivity. }
    rewrite Hc. apply Hdict. reflexivity.
Qed.

Lemma X23_flags_option_pairs_witness :
  cli_toa_flags "pta,NANOGrav,version,0.1"
  = [("pta", FStr "NANOGrav"); ("version", FStr "0.1")] /\
  cli_toa_flags "pta,NANOGrav,version" = [("pta", FStr "NANOGrav")].
Proof.
  assert (Hnd2 : NoDup (map fst [("pta", "NANOGrav"); ("version", "0.1")])).
  { simpl. apply NoDup_cons. split; [|apply NoDup_singleton].
    intros Hin. apply elem_of_cons in Hin as [Hin|Hin]; [discriminate | inversion Hin]. }
  assert (Hnd1 : NoDup (map fst [("pta", "NANOGrav")])) by apply NoDup_singleton.
  split.
  - apply (proj1 (X23_flags_option_pairs
                    [("pta", "NANOGrav"); ("version", "0.1")] EmptyString
                    ltac:(repeat constructor) Hnd2 eq_refl)).
    discriminate.
  - apply (proj2 (X23_flags_option_pairs [("pta", "NANOGrav")] "version"
                    ltac:(repeat constructor) Hnd1 eq_refl)).
Defined.
